(** * llm-web-extractor: URL utilities, content utilities and the crawl orchestrator

    A shallow embedding of [src/utils/url-utils.ts], [src/utils/content-utils.ts]
    and of the [WebExtractor] class, together with the part of the JavaScript
    platform these files call into (strings, numbers, [URL],
    [URLSearchParams], [RegExp], [Array.prototype.sort]).

    Conventions.
    - A JavaScript string is a [string] whose characters are the code units
      0..255 (the Latin-1 part of UTF-16).
    - A JavaScript number that the code compares, subtracts or uses as an
      index or a length is a [number]: exact rationals plus the IEEE special
      values.  The two ratios of the crawl statistics are [binary64] values,
      computed with the IEEE 754 operations of the Standard Library, each
      operation rounded to nearest, ties to even.  Lengths and counts are
      natural numbers: they stay below 2^53, where binary64 sums are exact.
    - A thrown [Error] is the [Throw] branch of [result], carrying the message.
    - Wall-clock readings ([Date.now()], [new Date()]) are left out of the
      records that carry them. *)

From Stdlib Require Import ZArith NArith QArith Qabs Ascii String DecimalString DecimalN List Lia.
From Stdlib Require Floats.SpecFloat.
From stdpp Require Import base list gmap strings.

Local Open Scope string_scope.
Local Open Scope list_scope.

(** ** The JavaScript runtime *)

Module JS.

(** *** Exceptions *)

Inductive result (A : Type) : Type :=
| Ok (a : A)
| Throw (message : string).
Arguments Ok {A} a.
Arguments Throw {A} message.

Definition bind {A B} (r : result A) (k : A -> result B) : result B :=
  match r with
  | Ok a => k a
  | Throw m => Throw m
  end.

Definition is_ok {A} (r : result A) : bool :=
  match r with Ok _ => true | Throw _ => false end.

(** *** Code units *)

Definition code (c : ascii) : nat := nat_of_ascii c.

Definition in_range (lo hi : nat) (c : ascii) : bool :=
  (lo <=? code c)%nat && (code c <=? hi)%nat.

Definition is_digit (c : ascii) : bool := in_range 48 57 c.
Definition is_upper (c : ascii) : bool := in_range 65 90 c.
Definition is_lower (c : ascii) : bool := in_range 97 122 c.
Definition is_alpha (c : ascii) : bool := is_upper c || is_lower c.
Definition is_alnum (c : ascii) : bool := is_alpha c || is_digit c.

(** [\s] of a regular expression and the characters [trim] removes: TAB, LF,
    VT, FF, CR, SPACE and NBSP are the ones below 256. *)
Definition is_space (c : ascii) : bool :=
  in_range 9 13 c || (code c =? 32)%nat || (code c =? 160)%nat.

(** [\w] of a regular expression. *)
Definition is_word_char (c : ascii) : bool :=
  is_alnum c || (code c =? 95)%nat.

(** ASCII lowercase, as the URL standard applies to schemes and hosts. *)
Definition ascii_lower_char (c : ascii) : ascii :=
  if is_upper c then ascii_of_nat (code c + 32) else c.

(** [String.prototype.toLowerCase] on one code unit below 256: A-Z and the
    Latin-1 capitals 0xC0-0xDE (0xD7, the multiplication sign, apart). *)
Definition lower_char (c : ascii) : ascii :=
  if is_upper c || (in_range 192 222 c && negb (code c =? 215)%nat)
  then ascii_of_nat (code c + 32) else c.

(** *** Strings *)

Fixpoint str_map (f : ascii -> ascii) (s : string) : string :=
  match s with
  | EmptyString => EmptyString
  | String c s' => String (f c) (str_map f s')
  end.

Fixpoint str_forallb (p : ascii -> bool) (s : string) : bool :=
  match s with
  | EmptyString => true
  | String c s' => p c && str_forallb p s'
  end.

Definition toLowerCase (s : string) : string := str_map lower_char s.
Definition ascii_lower (s : string) : string := str_map ascii_lower_char s.

(** A value used as a condition: a string is falsy exactly when empty. *)
Definition truthy (s : string) : bool :=
  match s with EmptyString => false | _ => true end.

(** [a || b] where [a] may be [undefined] and [b] is a string. *)
Definition or_else (a : option string) (b : string) : string :=
  match a with
  | Some s => if truthy s then s else b
  | None => b
  end.

(** [a || b] where both may be [undefined]. *)
Definition or_opt (a b : option string) : option string :=
  match a with
  | Some s => if truthy s then Some s else b
  | None => b
  end.

(** [s.endsWith(c)] for a one-character [c]. *)
Fixpoint endsWith (s : string) (c : ascii) : bool :=
  match s with
  | EmptyString => false
  | String x EmptyString => Ascii.eqb x c
  | String _ s' => endsWith s' c
  end.

(** [s.slice(0, -1)]. *)
Fixpoint slice_0_minus1 (s : string) : string :=
  match s with
  | EmptyString => EmptyString
  | String _ EmptyString => EmptyString
  | String x s' => String x (slice_0_minus1 s')
  end.

(** The longest prefix free of [p], and the rest (which, when not empty,
    starts with a character satisfying [p]). *)
Fixpoint break (p : ascii -> bool) (s : string) : string * string :=
  match s with
  | EmptyString => (EmptyString, EmptyString)
  | String c s' =>
      if p c then (EmptyString, s)
      else let '(a, b) := break p s' in (String c a, b)
  end.

(** [s.split(d)] for a one-character separator: never empty. *)
Fixpoint split_on (d : ascii) (s : string) : list string :=
  match s with
  | EmptyString => [EmptyString]
  | String c s' =>
      if Ascii.eqb c d then EmptyString :: split_on d s'
      else match split_on d s' with
           | hd :: tl => String c hd :: tl
           | [] => [String c EmptyString]
           end
  end.

Definition starts_with_space (s : string) : bool :=
  match s with String c _ => is_space c | EmptyString => false end.

(** [s.split(/\s+/)]: the pieces between maximal runs of white space; a
    leading or trailing run leaves an empty first or last piece, and the
    empty string splits into one empty piece. *)
Fixpoint split_ws (s : string) : list string :=
  match s with
  | EmptyString => [EmptyString]
  | String c s' =>
      if is_space c then
        if starts_with_space s' then split_ws s'
        else EmptyString :: split_ws s'
      else match split_ws s' with
           | hd :: tl => String c hd :: tl
           | [] => [String c EmptyString]
           end
  end.

Fixpoint trimStart (s : string) : string :=
  match s with
  | String c s' => if is_space c then trimStart s' else s
  | EmptyString => EmptyString
  end.

Fixpoint trimEnd (s : string) : string :=
  match s with
  | EmptyString => EmptyString
  | String c s' =>
      match trimEnd s' with
      | EmptyString => if is_space c then EmptyString else String c EmptyString
      | t => String c t
      end
  end.

Definition trim (s : string) : string := trimEnd (trimStart s).

(** *** Numbers *)

Inductive number : Type :=
| NaN
| Infinity (negative : bool)
| Num (q : Q).

Definition of_nat (n : nat) : number := Num (inject_Z (Z.of_nat n)).

Definition Qsign_neg (q : Q) : bool := (Qnum q <? 0)%Z.
Definition Qis_zero (q : Q) : bool := (Qnum q =? 0)%Z.

(** [a + b]. *)
Definition add (a b : number) : number :=
  match a, b with
  | NaN, _ | _, NaN => NaN
  | Infinity s, Infinity t => if Bool.eqb s t then Infinity s else NaN
  | Infinity s, Num _ | Num _, Infinity s => Infinity s
  | Num x, Num y => Num (x + y)
  end.

(** [a * b]. *)
Definition mul (a b : number) : number :=
  match a, b with
  | NaN, _ | _, NaN => NaN
  | Infinity s, Infinity t => Infinity (xorb s t)
  | Infinity s, Num y | Num y, Infinity s =>
      if Qis_zero y then NaN else Infinity (xorb s (Qsign_neg y))
  | Num x, Num y => Num (x * y)
  end.

(** [a / b]: zero over zero is [NaN], anything else over zero is infinite. *)
Definition div (a b : number) : number :=
  match a, b with
  | NaN, _ | _, NaN => NaN
  | Infinity _, Infinity _ => NaN
  | Infinity s, Num y => Infinity (xorb s (Qsign_neg y))
  | Num _, Infinity _ => Num 0
  | Num x, Num y =>
      if Qis_zero y then (if Qis_zero x then NaN else Infinity (Qsign_neg x))
      else Num (x / y)
  end.

(** A number used as a condition: falsy when zero or [NaN]. *)
Definition truthy_number (a : number) : bool :=
  match a with
  | NaN => false
  | Infinity _ => true
  | Num q => negb (Qis_zero q)
  end.

(** [Math.min(a, b)]. *)
Definition Math_min (a b : number) : number :=
  match a, b with
  | NaN, _ | _, NaN => NaN
  | Infinity true, _ | _, Infinity true => Infinity true
  | Infinity false, y => y
  | x, Infinity false => x
  | Num x, Num y => if Qle_bool x y then Num x else Num y
  end.

(** [a > b]. *)
Definition gt (a b : number) : bool :=
  match a, b with
  | NaN, _ | _, NaN => false
  | Infinity s, Infinity t => negb s && t
  | Infinity s, Num _ => negb s
  | Num _, Infinity t => t
  | Num x, Num y => negb (Qle_bool x y)
  end.

(** [a - b]. *)
Definition sub (a b : number) : number :=
  match a, b with
  | NaN, _ | _, NaN => NaN
  | Infinity s, Infinity t => if Bool.eqb s t then NaN else Infinity s
  | Infinity s, Num _ => Infinity s
  | Num _, Infinity t => Infinity (negb t)
  | Num x, Num y => Num (x - y)
  end.

(** [a <= b]. *)
Definition leq (a b : number) : bool :=
  match a, b with
  | NaN, _ | _, NaN => false
  | Infinity s, Infinity t => s || negb t
  | Infinity s, Num _ => s
  | Num _, Infinity t => negb t
  | Num x, Num y => Qle_bool x y
  end.

(** *** Slices *)

(** ToIntegerOrInfinity: the fraction is dropped, [NaN] is 0. *)
Definition to_integer (q : Q) : Z := Z.quot (Qnum q) (Zpos (Qden q)).

(** The position in [0..len] that a relative index of [slice] denotes: a
    negative index counts from the end, and both ends are clamped. *)
Definition relative_index (len : nat) (a : number) : nat :=
  match a with
  | NaN => 0
  | Infinity true => 0
  | Infinity false => len
  | Num q =>
      let z := to_integer q in
      if (z <? 0)%Z then Z.to_nat (Z.max (Z.of_nat len + z) 0)
      else Z.to_nat (Z.min z (Z.of_nat len))
  end.

(** [s.slice(start, stop)]. *)
Definition String_slice (s : string) (start stop : number) : string :=
  let len := String.length s in
  let from := relative_index len start in
  let to := relative_index len stop in
  String.substring from (to - from) s.

(** [l.slice(start)] and [l.slice(start, stop)]. *)
Definition Array_slice {A} (l : list A) (start : number) (stop : option number) : list A :=
  let len := length l in
  let from := relative_index len start in
  let to := match stop with Some e => relative_index len e | None => len end in
  take (to - from) (drop from l).

(** [l.join(sep)] for an array of strings. *)
Definition Array_join (sep : string) (l : list string) : string := String.concat sep l.

(** [s.endsWith(suffix)]. *)
Definition endsWith_string (s suffix : string) : bool :=
  let n := String.length s in
  let k := String.length suffix in
  (k <=? n)%nat && String.eqb (String.substring (n - k) k s) suffix.

(** [try { return e } catch { return false }]. *)
Definition catch_false (r : result bool) : bool :=
  match r with Ok b => b | Throw _ => false end.

End JS.

(** ** IEEE 754 binary64

    The arithmetic of JavaScript numbers where its rounding shows: a value
    is a [spec_float] of the Standard Library, and division and
    multiplication are its operations at precision 53 and maximal exponent
    1024. *)

Module Binary64.
Import SpecFloat.

Definition binary64 : Type := spec_float.

Definition prec : Z := 53.
Definition emax : Z := 1024.

(** The number that stands for a length or a count. *)
Definition b64_of_nat (n : nat) : binary64 := binary_normalize prec emax (Z.of_nat n) 0 false.

Definition b64_div (x y : binary64) : binary64 := SFdiv prec emax x y.
Definition b64_mul (x y : binary64) : binary64 := SFmul prec emax x y.

(** The rational number that a zero or a finite value stands for. *)
Definition b64_to_Q (x : binary64) : option Q :=
  match x with
  | S754_zero _ => Some 0%Q
  | S754_finite s m e =>
      Some ((if s then -1 else 1) * inject_Z (Z.pos m) * Qpower 2 e)%Q
  | _ => None
  end.

(** [x] is a zero or a finite value at most [eps] away from [q]. *)
Definition b64_within (eps : Q) (x : binary64) (q : Q) : bool :=
  match b64_to_Q x with
  | Some v => Qle_bool (Qabs (v - q)) eps
  | None => false
  end.

End Binary64.

(** ** The platform's [URL] and [URLSearchParams]

    The URL record and its serializer, getters and setters follow the WHATWG
    URL standard.  The parser covers absolute URLs of the shape
    [scheme://host[:port][/path][?query][#fragment]] with a special scheme, a
    domain host over letters, digits, [-] and [.], no credentials, and a
    path, query and fragment made of characters that the parser copies as
    they are; a string outside this shape is rejected by the model. *)

Module WHATWG.
Import JS.

Record URL : Type := mkURL {
  url_scheme : string;
  url_host : string;
  url_port : option N;
  url_path : list string;
  url_query : option string;
  url_fragment : option string
}.

(** The special schemes that carry a host, with their default ports. *)
Definition default_port (scheme : string) : option N :=
  if String.eqb scheme "http" then Some 80%N
  else if String.eqb scheme "https" then Some 443%N
  else if String.eqb scheme "ws" then Some 80%N
  else if String.eqb scheme "wss" then Some 443%N
  else if String.eqb scheme "ftp" then Some 21%N
  else None.

Definition is_colon (c : ascii) : bool := Ascii.eqb c ":".
Definition is_hash (c : ascii) : bool := Ascii.eqb c "#".
Definition is_question (c : ascii) : bool := Ascii.eqb c "?".
Definition is_authority_end (c : ascii) : bool :=
  Ascii.eqb c "/" || Ascii.eqb c "?" || Ascii.eqb c "#".

Definition one_of (set : string) (c : ascii) : bool :=
  negb (str_forallb (fun x => negb (Ascii.eqb x c)) set).

(** *** Hosts *)

Definition host_char (c : ascii) : bool :=
  is_lower c || is_digit c || Ascii.eqb c "-" || Ascii.eqb c ".".

Definition starts_with_alpha (s : string) : bool :=
  match s with String c _ => is_lower c | EmptyString => false end.

Definition label_ok (l : string) : bool :=
  truthy l && negb (String.prefix "xn--" l).

(** A lower-case domain that the host parser returns unchanged: no empty
    label, no punycode label, and a last label that cannot be read as a
    number (which would make the host an IPv4 address). *)
Definition host_ok (h : string) : bool :=
  str_forallb host_char h
  && forallb label_ok (split_on "." h)
  && starts_with_alpha (List.last (split_on "." h) EmptyString).

Definition parse_host (input : string) : option string :=
  let h := ascii_lower input in
  if host_ok h then Some h else None.

(** *** Ports *)

Definition decimal (n : N) : string := NilEmpty.string_of_uint (N.to_uint n).

(** [portpart] is what follows the host inside the authority: empty, or a
    colon and the port digits. *)
Definition parse_port (dflt : N) (portpart : string) : option (option N) :=
  match portpart with
  | EmptyString => Some None
  | String _ digits =>
      match NilEmpty.uint_of_string digits with
      | None => None
      | Some Decimal.Nil => Some None
      | Some d =>
          let n := N.of_uint d in
          if (65535 <? n)%N then None
          else if (n =? dflt)%N then Some None
          else Some (Some n)
      end
  end.

(** *** Paths *)

(** Characters the path state copies unchanged (RFC 3986 [pchar], the
    percent sign of an escape included, and the segment separator). *)
Definition path_char (c : ascii) : bool :=
  is_alnum c || one_of "-._~!$&'()*+,;=:@/%" c.

Definition query_char (c : ascii) : bool :=
  is_alnum c || one_of "-._~!$&()*+,;=:@/?%" c.

Definition fragment_char (c : ascii) : bool :=
  is_alnum c || one_of "-._~!$&'()*+,;=:@/?%" c.

(** The dot segments, with their percent-encoded spellings ([%2e] in either
    letter case). *)
Definition is_single_dot (seg : string) : bool :=
  existsb (String.eqb (ascii_lower seg)) ["."; "%2e"].
Definition is_double_dot (seg : string) : bool :=
  existsb (String.eqb (ascii_lower seg)) [".."; ".%2e"; "%2e."; "%2e%2e"].

(** The path state, run over the segments that the slashes delimit: [acc]
    is the path built so far, last segment first. *)
Fixpoint path_state (raw : list string) (acc : list string) : list string :=
  match raw with
  | [] => rev acc
  | [seg] =>
      if is_double_dot seg then rev (EmptyString :: tl acc)
      else if is_single_dot seg then rev (EmptyString :: acc)
      else rev (seg :: acc)
  | seg :: rest =>
      if is_double_dot seg then path_state rest (tl acc)
      else if is_single_dot seg then path_state rest acc
      else path_state rest (seg :: acc)
  end.

(** [pathstr] is empty or starts with a slash. *)
Definition parse_path (pathstr : string) : list string :=
  match pathstr with
  | EmptyString => [EmptyString]
  | String _ p => path_state (split_on "/" p) []
  end.

(** *** Percent-encoding *)

Definition hex_value (c : ascii) : option nat :=
  if is_digit c then Some (code c - 48)
  else if in_range 65 70 c then Some (code c - 55)
  else if in_range 97 102 c then Some (code c - 87)
  else None.

Definition hex_digit (n : nat) : ascii :=
  if (n <? 10)%nat then ascii_of_nat (48 + n) else ascii_of_nat (55 + n).

Definition percent_byte (n : nat) : string :=
  String "%" (String (hex_digit (n / 16)) (String (hex_digit (n mod 16)) EmptyString)).

Fixpoint percent_decode (s : string) : string :=
  match s with
  | EmptyString => EmptyString
  | String c rest =>
      if Ascii.eqb c "%" then
        match rest with
        | String h1 (String h2 rest') =>
            match hex_value h1, hex_value h2 with
            | Some a, Some b => String (ascii_of_nat (16 * a + b)) (percent_decode rest')
            | _, _ => String c (percent_decode rest)
            end
        | _ => String c (percent_decode rest)
        end
      else String c (percent_decode rest)
  end.

(** What follows the delimiter that [break] stopped at, if it stopped. *)
Definition after_delimiter (s : string) : option string :=
  match s with
  | EmptyString => None
  | String _ s' => Some s'
  end.

(** *** [URLSearchParams] *)

Definition plus_to_space (c : ascii) : ascii :=
  if Ascii.eqb c "+" then " "%char else c.

Definition urldecode (s : string) : string :=
  percent_decode (str_map plus_to_space s).

Definition parse_pair (piece : string) : list (string * string) :=
  match piece with
  | EmptyString => []
  | _ =>
      let '(name, rest) := break (fun c => Ascii.eqb c "=") piece in
      [(urldecode name, urldecode (default EmptyString (after_delimiter rest)))]
  end.

(** The application/x-www-form-urlencoded parser. *)
Definition parse_urlencoded (s : string) : list (string * string) :=
  flat_map parse_pair (split_on "&" s).

(** [new URLSearchParams(init)] for a string [init]. *)
Definition URLSearchParams_new (init : string) : list (string * string) :=
  match init with
  | String "?" s => parse_urlencoded s
  | _ => parse_urlencoded init
  end.

(** One code unit under the form-urlencoded byte serializer; a code unit
    from 128 on is first encoded in UTF-8 (two bytes). *)
Definition urlencode_char (c : ascii) : string :=
  if Ascii.eqb c " " then "+"
  else if is_alnum c || one_of "*-._" c then String c EmptyString
  else if (code c <? 128)%nat then percent_byte (code c)
  else percent_byte (192 + code c / 64) +:+ percent_byte (128 + code c mod 64).

Fixpoint urlencode (s : string) : string :=
  match s with
  | EmptyString => EmptyString
  | String c s' => urlencode_char c +:+ urlencode s'
  end.

Definition serialize_pair (p : string * string) : string :=
  urlencode (fst p) +:+ String "=" (urlencode (snd p)).

(** [params.toString()]. *)
Definition URLSearchParams_toString (l : list (string * string)) : string :=
  String.concat "&" (map serialize_pair l).

(** The queries the model reads: made of characters that the query state
    copies unchanged, and whose names and values decode to ASCII. *)
Definition is_ascii (c : ascii) : bool := (code c <? 128)%nat.

Definition ascii_pair (p : string * string) : bool :=
  str_forallb is_ascii (fst p) && str_forallb is_ascii (snd p).

Definition query_supported (q : string) : bool :=
  str_forallb query_char q && forallb ascii_pair (parse_urlencoded q).

(** *** The basic URL parser, [new URL(input)] *)

(** The authority: a host and an optional port. *)
Definition parse_authority (dflt : N) (authority : string) : option (string * option N) :=
  let '(hostpart, portpart) := break is_colon authority in
  match parse_host hostpart, parse_port dflt portpart with
  | Some host, Some port => Some (host, port)
  | _, _ => None
  end.

(** What follows the authority: path, query and fragment. *)
Definition parse_tail (tail : string)
  : option (list string * option string * option string) :=
  let '(pq, frag) := break is_hash tail in
  let '(pathstr, qry) := break is_question pq in
  if str_forallb path_char pathstr
     && query_supported (default EmptyString (after_delimiter qry))
     && str_forallb fragment_char (default EmptyString (after_delimiter frag))
  then Some (parse_path pathstr, after_delimiter qry, after_delimiter frag)
  else None.

Definition URL_parse (input : string) : option URL :=
  let '(sch, rest) := break is_colon input in
  let scheme := ascii_lower sch in
  match default_port scheme, rest with
  | Some dflt, String _ (String c1 (String c2 after)) =>
      if Ascii.eqb c1 "/" && Ascii.eqb c2 "/" then
        let '(authority, tail) := break is_authority_end after in
        match parse_authority dflt authority, parse_tail tail with
        | Some (host, port), Some (path, query, fragment) =>
            Some {| url_scheme := scheme;
                    url_host := host;
                    url_port := port;
                    url_path := path;
                    url_query := query;
                    url_fragment := fragment |}
        | _, _ => None
        end
      else None
  | _, _ => None
  end.

(** *** The URL serializer and the getters *)

Definition path_string (p : list string) : string :=
  fold_right (fun seg acc => String "/" (seg +:+ acc)) EmptyString p.

Definition authority_string (host : string) (port : option N) : string :=
  host +:+ match port with Some p => String ":" (decimal p) | None => EmptyString end.

Definition tail_string (path : list string) (query fragment : option string) : string :=
  path_string path
  +:+ match query with Some q => String "?" q | None => EmptyString end
  +:+ match fragment with Some f => String "#" f | None => EmptyString end.

Definition URL_href (u : URL) : string :=
  url_scheme u +:+ "://"
  +:+ authority_string (url_host u) (url_port u)
  +:+ tail_string (url_path u) (url_query u) (url_fragment u).

Definition URL_toString (u : URL) : string := URL_href u.
Definition URL_protocol (u : URL) : string := url_scheme u +:+ ":".
Definition URL_hostname (u : URL) : string := url_host u.
Definition URL_pathname (u : URL) : string := path_string (url_path u).

Definition URL_search (u : URL) : string :=
  match url_query u with
  | Some (String c q) => String "?" (String c q)
  | _ => EmptyString
  end.

(** *** The setters

    Each is modelled on values that need no further encoding; the host
    setter leaves the URL unchanged when the host parser fails. *)

Definition URL_set_hostname (u : URL) (v : string) : URL :=
  match parse_host v with
  | Some h => mkURL (url_scheme u) h (url_port u) (url_path u) (url_query u) (url_fragment u)
  | None => u
  end.

Definition URL_set_hash (u : URL) (v : string) : URL :=
  let f := match v with
           | EmptyString => None
           | String "#" f => Some f
           | _ => Some v
           end in
  mkURL (url_scheme u) (url_host u) (url_port u) (url_path u) (url_query u) f.

Definition URL_set_search (u : URL) (v : string) : URL :=
  let q := match v with
           | EmptyString => None
           | String "?" q => Some q
           | _ => Some v
           end in
  mkURL (url_scheme u) (url_host u) (url_port u) (url_path u) q (url_fragment u).

(** *** Collation and sorting *)

(** [a.localeCompare(b)] depends on the locale of the host. *)
Class Locale : Type := { localeCompare : string -> string -> Z }.

(** A comparator that never puts two values on both sides of each other. *)
Definition consistent (cmp : string -> string -> Z) : Prop :=
  forall a b, (0 < cmp a b)%Z -> (cmp b a <= 0)%Z.

Fixpoint sort_insert {A} (cmp : A -> A -> Z) (x : A) (l : list A) : list A :=
  match l with
  | [] => [x]
  | y :: l' => if (cmp x y <=? 0)%Z then x :: l else y :: sort_insert cmp x l'
  end.

(** [Array.prototype.sort(cmp)]: the stable sort. *)
Fixpoint Array_sort {A} (cmp : A -> A -> Z) (l : list A) : list A :=
  match l with
  | [] => []
  | x :: l' => sort_insert cmp x (Array_sort cmp l')
  end.

(** Code-unit order.  On keys made of digits and lower-case ASCII letters
    this is the order of the root collation; the examples use such keys. *)
Definition compare_code_units (a b : string) : Z :=
  match String.compare a b with
  | Lt => (-1)%Z
  | Eq => 0%Z
  | Gt => 1%Z
  end.

#[global] Instance code_unit_order : Locale := {| localeCompare := compare_code_units |}.

End WHATWG.

(** ** The platform's [RegExp]

    A regular expression object has an identity, a compiled matcher and its
    flags; its [lastIndex] lives in a store shared by every reference to the
    object.  [re_matcher R S i] is the end of a match of the pattern that
    starts exactly at index [i] of [S], if there is one. *)

Module RegExpModel.

Record RegExp : Type := mkRegExp {
  re_id : nat;
  re_matcher : string -> nat -> option nat;
  re_global : bool;
  re_sticky : bool
}.

(** The [lastIndex] of each regular expression object. *)
Definition Store : Type := nat -> nat.

Definition fresh : Store := fun _ => 0.

Definition set_lastIndex (σ : Store) (id v : nat) : Store :=
  fun i => if (i =? id)%nat then v else σ i.

(** The search loop of RegExpBuiltinExec: try index [i], then, unless the
    expression is sticky, the [fuel] indices that follow. *)
Fixpoint search (R : RegExp) (S : string) (i fuel : nat) : option nat :=
  match re_matcher R S i with
  | Some e => Some e
  | None =>
      if re_sticky R then None
      else match fuel with
           | O => None
           | S fuel' => search R S (i + 1) fuel'
           end
  end.

(** [R.test(S)]. *)
Definition RegExp_test (R : RegExp) (S : string) (σ : Store) : bool * Store :=
  let stateful := re_global R || re_sticky R in
  let lastIndex := if stateful then σ (re_id R) else 0 in
  if (String.length S <? lastIndex)%nat
  then (false, if stateful then set_lastIndex σ (re_id R) 0 else σ)
  else match search R S lastIndex (String.length S - lastIndex) with
       | None => (false, if stateful then set_lastIndex σ (re_id R) 0 else σ)
       | Some e => (true, if stateful then set_lastIndex σ (re_id R) e else σ)
       end.

(** The pattern occurs somewhere in [S]. *)
Definition matches (R : RegExp) (S : string) : bool :=
  match search (mkRegExp (re_id R) (re_matcher R) false false) S 0 (String.length S) with
  | Some _ => true
  | None => false
  end.

Definition stateless (R : RegExp) : bool := negb (re_global R) && negb (re_sticky R).

(** [patterns.some((pattern) => pattern.test(url))]: stops at the first hit. *)
Fixpoint some_test (patterns : list RegExp) (url : string) (σ : Store) : bool * Store :=
  match patterns with
  | [] => (false, σ)
  | p :: rest =>
      let '(hit, σ') := RegExp_test p url σ in
      if hit then (true, σ') else some_test rest url σ'
  end.

(** [l.filter(f)] for a callback that reads and writes the store. *)
Fixpoint filter_st {A} (f : A -> Store -> bool * Store) (l : list A) (σ : Store)
  : list A * Store :=
  match l with
  | [] => ([], σ)
  | x :: rest =>
      let '(keep, σ1) := f x σ in
      let '(kept, σ2) := filter_st f rest σ1 in
      (if keep then x :: kept else kept, σ2)
  end.

(** The matcher of a pattern that is one literal string. *)
Definition literal (lit : string) : string -> nat -> option nat :=
  fun S i =>
    if String.prefix lit (String.substring i (String.length S - i) S)
    then Some (i + String.length lit) else None.

End RegExpModel.

(** ** [src/types.ts] *)

Module Types.
Import JS RegExpModel Binary64.

Record NormalizeUrlOptions : Type := {
  removeTrailingSlash : option bool;
  removeQueryParams : option bool;
  removeFragment : option bool;
  lowercase : option bool;
  sortQueryParams : option bool
}.

(** The object [{}]: every option left out. *)
Definition no_options : NormalizeUrlOptions :=
  {| removeTrailingSlash := None; removeQueryParams := None;
     removeFragment := None; lowercase := None; sortQueryParams := None |}.

Record PageMetadata : Type := {
  sourceUrl : string;
  description : option string;
  wordCount : nat;
  language : option string;
  statusCode : option Z
}.

Record ExtractedPage : Type := {
  title : string;
  content : string;
  url : string;
  metadata : PageMetadata
}.

Record ExtractPageOptions : Type := {
  page_onlyMainContent : option bool;
  page_format : option string;
  includeScreenshot : option bool;
  waitFor : option number
}.

Record ExtractWebsiteOptions : Type := {
  maxPages : option number;
  includeSubdomains : option bool;
  titlePrefix : option string;
  onlyMainContent : option bool;
  format : option string;
  maxDepth : option number;
  followExternalLinks : option bool;
  includePatterns : option (list RegExp);
  excludePatterns : option (list RegExp)
}.

Definition no_website_options : ExtractWebsiteOptions :=
  {| maxPages := None; includeSubdomains := None; titlePrefix := None;
     onlyMainContent := None; format := None; maxDepth := None;
     followExternalLinks := None; includePatterns := None; excludePatterns := None |}.

Record FailedExtraction : Type := {
  failed_url : string;
  failed_error : string
}.

Record ExtractionStats : Type := {
  successRate : binary64;
  totalWords : nat;
  avgWordsPerPage : binary64
}.

Record ExtractionResult : Type := {
  pages : list ExtractedPage;
  totalPages : nat;
  failed : list FailedExtraction;
  stats : ExtractionStats
}.

End Types.

(** ** [src/utils/url-utils.ts] *)

Module UrlUtils.
Import JS WHATWG RegExpModel Types.

(** The message of the [TypeError] that [new URL] throws. *)
Definition URL_TypeError : string := "Invalid URL".

Definition validateUrl (url : string) : result URL :=
  let attempt :=
    match URL_parse url with
    | None => Throw URL_TypeError
    | Some urlObj =>
        if existsb (String.eqb (URL_protocol urlObj)) ["http:"; "https:"]
        then Ok urlObj
        else Throw "Only HTTP and HTTPS protocols are supported"
    end in
  match attempt with
  | Ok urlObj => Ok urlObj
  | Throw errorMessage => Throw ("Invalid URL: " +:+ url +:+ " - " +:+ errorMessage)
  end.

Definition sort_params `{Locale} (entries : list (string * string)) : list (string * string) :=
  Array_sort (fun a b => localeCompare (fst a) (fst b)) entries.

Definition normalizeUrl `{Locale} (url : string) (options : NormalizeUrlOptions)
  : result string :=
  let removeTrailingSlash := default true (removeTrailingSlash options) in
  let removeQueryParams := default false (removeQueryParams options) in
  let removeFragment := default true (removeFragment options) in
  let lowercase := default true (lowercase options) in
  let sortQueryParams := default true (sortQueryParams options) in
  bind (validateUrl url) (fun urlObj =>
  let urlObj :=
    if lowercase then URL_set_hostname urlObj (toLowerCase (URL_hostname urlObj))
    else urlObj in
  let urlObj := if removeFragment then URL_set_hash urlObj "" else urlObj in
  let urlObj :=
    if removeQueryParams then URL_set_search urlObj ""
    else if sortQueryParams && truthy (URL_search urlObj) then
      let params := URLSearchParams_new (URL_search urlObj) in
      let sorted := sort_params params in
      URL_set_search urlObj (URLSearchParams_toString sorted)
    else urlObj in
  let normalized := URL_toString urlObj in
  Ok (if removeTrailingSlash && endsWith normalized "/"
      then slice_0_minus1 normalized else normalized)).

(** The loop of [deduplicateUrls]: [seen] and [unique] are its two
    accumulators. *)
Fixpoint dedup_loop `{Locale} (options : NormalizeUrlOptions) (urls : list string)
  (seen : gset string) (unique : list string) : list string :=
  match urls with
  | [] => unique
  | url :: rest =>
      match normalizeUrl url options with
      | Ok normalized =>
          if decide (normalized ∈ seen) then dedup_loop options rest seen unique
          else dedup_loop options rest ({[normalized]} ∪ seen) (unique ++ [url])
      | Throw _ => dedup_loop options rest seen unique
      end
  end.

Definition deduplicateUrls `{Locale} (urls : list string) (options : NormalizeUrlOptions)
  : list string :=
  dedup_loop options urls ∅ [].

(** The callback of [filterUrlsByPattern]. *)
Definition keep_url (includePatterns excludePatterns : option (list RegExp))
  (url : string) (σ : Store) : bool * Store :=
  let '(excluded, σ1) :=
    match excludePatterns with
    | Some patterns => some_test patterns url σ
    | None => (false, σ)
    end in
  if excluded then (false, σ1)
  else match includePatterns with
       | Some (p :: rest) => some_test (p :: rest) url σ1
       | _ => (true, σ1)
       end.

Definition filterUrlsByPattern (urls : list string)
  (includePatterns excludePatterns : option (list RegExp)) (σ : Store)
  : list string * Store :=
  filter_st (keep_url includePatterns excludePatterns) urls σ.

Definition extractDomain (url : string) : result string :=
  bind (validateUrl url) (fun urlObj => Ok (URL_hostname urlObj)).

Definition extractRootDomain (url : string) : result string :=
  bind (extractDomain url) (fun domain =>
  let parts := split_on "." domain in
  if (2 <=? length parts)%nat
  then Ok (Array_join "." (Array_slice parts (Num (inject_Z (-2))) None))
  else Ok domain).

Definition isSameDomain (url1 url2 : string) : bool :=
  catch_false
    (bind (extractDomain url1) (fun domain1 =>
     bind (extractDomain url2) (fun domain2 =>
     Ok (String.eqb domain1 domain2)))).

Definition isSameRootDomain (url1 url2 : string) : bool :=
  catch_false
    (bind (extractRootDomain url1) (fun root1 =>
     bind (extractRootDomain url2) (fun root2 =>
     Ok (String.eqb root1 root2)))).

Definition isSubdomain (url parentUrl : string) : bool :=
  catch_false
    (bind (extractDomain url) (fun domain =>
     bind (extractDomain parentUrl) (fun parentDomain =>
     Ok (negb (String.eqb domain parentDomain)
         && endsWith_string domain ("." +:+ parentDomain))))).

Definition getUrlDepth (url : string) : result nat :=
  bind (validateUrl url) (fun urlObj =>
  let pathSegments :=
    List.filter (fun s => (0 <? String.length s)%nat) (split_on "/" (URL_pathname urlObj)) in
  Ok (length pathSegments)).

End UrlUtils.

(** ** [src/utils/content-utils.ts] *)

Module ContentUtils.
Import JS WHATWG.

Definition LF : ascii := ascii_of_nat 10.

(** [content.replace(/\n{3,}/g, '\n\n')]: a run of three or more line
    feeds becomes two. *)
Fixpoint collapse_newlines (s : string) : string :=
  match s with
  | EmptyString => EmptyString
  | String c s' =>
      let r := collapse_newlines s' in
      if Ascii.eqb c LF then
        match r with
        | String a (String b _) =>
            if Ascii.eqb a LF && Ascii.eqb b LF then r else String c r
        | _ => String c r
        end
      else String c r
  end.

Definition cleanContent (content : string) : string :=
  if negb (truthy content) then ""
  else
    let cleaned := collapse_newlines content in
    let cleaned := trim cleaned in
    cleaned.

Definition countWords (content : string) : nat :=
  if negb (truthy content) then 0
  else length (List.filter (fun word => (0 <? String.length word)%nat) (split_ws content)).

(** [s] starts with [w], letter case apart; the rest of [s] after it. *)
Fixpoint strip_prefix_ci (w s : string) : option string :=
  match w, s with
  | EmptyString, _ => Some s
  | String a w', String b s' =>
      if Ascii.eqb (ascii_lower_char a) (ascii_lower_char b) then strip_prefix_ci w' s' else None
  | String _ _, EmptyString => None
  end.

Definition starts_with_word_char (s : string) : bool :=
  match s with String c _ => is_word_char c | EmptyString => false end.

(** [/\bw\b/i.test(s)] for a word [w] of letters; [prev] tells whether the
    character before [s] is a word character. *)
Fixpoint word_test_from (w : string) (prev : bool) (s : string) : bool :=
  match strip_prefix_ci w s with
  | Some rest => negb prev && negb (starts_with_word_char rest)
  | None => false
  end
  || match s with
     | EmptyString => false
     | String c s' => word_test_from w (is_word_char c) s'
     end.

Definition word_test (w : string) (s : string) : bool := word_test_from w false s.

Definition languagePatterns : list (string * list string) :=
  [ ("en", ["the"; "and"; "of"; "is"]);
    ("es", ["el"; "la"; "de"; "que"]);
    ("fr", ["le"; "la"; "de"; "et"]);
    ("de", ["der"; "die"; "das"; "und"]) ].

Definition detectLanguage (content : string) : option string :=
  let scores :=
    map (fun '(lang, patterns) =>
           (lang, length (List.filter (fun pattern => word_test pattern content) patterns)))
        languagePatterns in
  let sorted :=
    Array_sort (fun a b => (Z.of_nat (snd b) - Z.of_nat (snd a))%Z) scores in
  match sorted with
  | detected :: _ => if (0 <? snd detected)%nat then Some (fst detected) else None
  | [] => None
  end.

Definition word_set (content : string) : gset string :=
  list_to_set (split_ws (toLowerCase content)).

Definition calculateSimilarity (content1 content2 : string) : number :=
  let words1 : gset string := word_set content1 in
  let words2 : gset string := word_set content2 in
  let intersection : gset string :=
    list_to_set (List.filter (fun x => bool_decide (x ∈ words2)) (elements words1)) in
  let union : gset string := list_to_set (elements words1 ++ elements words2) in
  div (of_nat (size intersection)) (of_nat (size union)).

(** [suffix] is [None] when the caller leaves it out. *)
Definition truncate (text : string) (maxLength : number) (suffix : option string) : string :=
  let suffix := default "..." suffix in
  if leq (of_nat (String.length text)) maxLength then text
  else String_slice text (of_nat 0) (sub maxLength (of_nat (String.length suffix))) +:+ suffix.

Definition generateExcerpt (content : string) (maxWords : option number) : string :=
  let maxWords := default (of_nat 50) maxWords in
  let words := List.filter (fun w => (0 <? String.length w)%nat) (split_ws content) in
  if leq (of_nat (length words)) maxWords then content
  else Array_join " " (Array_slice words (of_nat 0) (Some maxWords)) +:+ "...".

End ContentUtils.

(** ** [WebExtractor] *)

Module WebExtractor.
Import JS WHATWG RegExpModel Binary64 Types UrlUtils ContentUtils.

(** *** What the collaborator returns and receives *)

Record RawMetadata : Type := {
  sourceURL : option string;
  raw_title : option string;
  raw_description : option string;
  raw_language : option string;
  raw_statusCode : option Z
}.

Record RawPage : Type := {
  raw_metadata : option RawMetadata;
  raw_url : option string;
  raw_markdown : option string;
  raw_html : option string;
  raw_text : option string;
  raw_content : option string;
  raw_excerpt : option string
}.

Record CrawlResponse : Type := { data : option (list RawPage) }.

Record ScrapeOptions : Type := {
  formats : list string;
  scrape_onlyMainContent : bool
}.

Record CrawlOptions : Type := {
  limit : number;
  scrapeOptions : ScrapeOptions;
  crawl_maxDepth : number;
  allowExternalLinks : option bool;
  allowSubdomains : option bool
}.

(** [firecrawl.crawlUrl]: the answer of the collaborator to one call. *)
Definition Firecrawl : Type := string -> CrawlOptions -> result CrawlResponse.

Record ScrapeUrlOptions : Type := {
  scrape_formats : list string;
  scrapeUrl_onlyMainContent : bool;
  scrape_waitFor : option number
}.

(** [firecrawl.scrapeUrl]. *)
Definition FirecrawlScrape : Type := string -> ScrapeUrlOptions -> result RawPage.

(** [page.metadata?.field]. *)
Definition meta {A} (field : RawMetadata -> option A) (page : RawPage) : option A :=
  match raw_metadata page with
  | Some m => field m
  | None => None
  end.

(** *** The private helpers *)

Definition extractContent (result : RawPage) (format : string) : string :=
  if String.eqb format "markdown" then or_else (or_opt (raw_markdown result) (raw_content result)) ""
  else if String.eqb format "html" then or_else (or_opt (raw_html result) (raw_content result)) ""
  else if String.eqb format "text" then or_else (or_opt (raw_text result) (raw_content result)) ""
  else or_else (or_opt (raw_markdown result) (raw_content result)) "".

Definition truthy_opt (a : option string) : option string :=
  match a with
  | Some s => if truthy s then Some s else None
  | None => None
  end.

Definition buildMetadata (page : RawPage) (normalizedUrl : string) : PageMetadata :=
  let content := extractContent page "markdown" in
  let wordCount := countWords content in
  {| sourceUrl := normalizedUrl;
     description := truthy_opt (or_opt (meta raw_description page) (raw_excerpt page));
     wordCount := wordCount;
     language := match truthy_opt (meta raw_language page) with
                 | Some l => Some l
                 | None => detectLanguage content
                 end;
     statusCode := meta raw_statusCode page |}.

(** *** One page *)

Definition extractPage `{Locale} (scrapeUrl : FirecrawlScrape)
  (url : string) (options : ExtractPageOptions) : result ExtractedPage :=
  let onlyMainContent := default true (page_onlyMainContent options) in
  let format := default "markdown" (page_format options) in
  bind (validateUrl url) (fun _ =>
  bind (normalizeUrl url no_options) (fun normalizedUrl =>
  let scrapeOptions :=
    {| scrape_formats := [format];
       scrapeUrl_onlyMainContent := onlyMainContent;
       scrape_waitFor := match waitFor options with
                         | Some w => if truthy_number w then Some w else None
                         | None => None
                         end |} in
  let attempt :=
    bind (scrapeUrl url scrapeOptions) (fun result =>
    let content := extractContent result format in
    let metadata := buildMetadata result normalizedUrl in
    bind (match truthy_opt (meta raw_title result) with
          | Some t => Ok t
          | None => match URL_parse url with
                    | Some u => Ok (URL_hostname u)
                    | None => Throw URL_TypeError
                    end
          end) (fun title =>
    Ok {| title := title;
          content := cleanContent content;
          url := normalizedUrl;
          metadata := metadata |})) in
  match attempt with
  | Ok page => Ok page
  | Throw errorMessage => Throw ("Failed to extract page " +:+ url +:+ ": " +:+ errorMessage)
  end)).

(** *** The crawl *)

Definition crawlOptions (options : ExtractWebsiteOptions) : CrawlOptions :=
  let maxPages := default (of_nat 10) (maxPages options) in
  let includeSubdomains := default false (includeSubdomains options) in
  let onlyMainContent := default true (onlyMainContent options) in
  let format := default "markdown" (format options) in
  let maxDepth := default (of_nat 3) (maxDepth options) in
  let followExternalLinks := default false (followExternalLinks options) in
  {| limit := Math_min maxPages (of_nat 100);
     scrapeOptions := {| formats := [format]; scrape_onlyMainContent := onlyMainContent |};
     crawl_maxDepth := maxDepth;
     allowExternalLinks := if negb followExternalLinks then Some false else None;
     allowSubdomains := if negb includeSubdomains then Some false else None |}.

(** The URL list of the crawl: one entry per record, then deduplicated,
    then filtered when a pattern list was given. *)
Definition url_entry (url : string) (page : RawPage) : string :=
  or_else (or_opt (meta sourceURL page) (raw_url page)) url.

Definition crawl_urls `{Locale} (url : string) (options : ExtractWebsiteOptions)
  (data : list RawPage) (σ : Store) : list string :=
  let urls := map (url_entry url) data in
  let urls := deduplicateUrls urls no_options in
  match includePatterns options, excludePatterns options with
  | None, None => urls
  | inc, exc => fst (filterUrlsByPattern urls inc exc σ)
  end.

(** What one turn of the loop over the records does. *)
Inductive Outcome : Type :=
| Extracted (page : ExtractedPage)
| Failed (failure : FailedExtraction)
| Skipped.

Definition pageUrl_of (url : string) (page : RawPage) : string :=
  or_else (meta sourceURL page) url.

Definition process_page `{Locale} (url : string) (options : ExtractWebsiteOptions)
  (urls : list string) (page : RawPage) : Outcome :=
  let format := default "markdown" (format options) in
  let pageUrl := pageUrl_of url page in
  let on_error errorMessage :=
    Failed {| failed_url := or_else (raw_url page) "unknown"; failed_error := errorMessage |} in
  match normalizeUrl pageUrl no_options with
  | Throw errorMessage => on_error errorMessage
  | Ok normalizedPageUrl =>
      if negb (existsb (String.eqb pageUrl) urls) then Skipped
      else
        let content := extractContent page format in
        let metadata := buildMetadata page normalizedPageUrl in
        let title :=
          match truthy_opt (meta raw_title page) with
          | Some t => Ok t
          | None => match URL_parse pageUrl with
                    | Some u => Ok (URL_pathname u)
                    | None => Throw URL_TypeError
                    end
          end in
        match title with
        | Throw errorMessage => on_error errorMessage
        | Ok title =>
            let title :=
              match truthy_opt (titlePrefix options) with
              | Some prefix => prefix +:+ " - " +:+ title
              | None => title
              end in
            Extracted {| title := title;
                         content := cleanContent content;
                         url := normalizedPageUrl;
                         metadata := metadata |}
        end
  end.

Definition is_skipped (o : Outcome) : bool :=
  match o with Skipped => true | _ => false end.

Definition pages_of (outcomes : list Outcome) : list ExtractedPage :=
  omap (fun o => match o with Extracted p => Some p | _ => None end) outcomes.

Definition failed_of (outcomes : list Outcome) : list FailedExtraction :=
  omap (fun o => match o with Failed f => Some f | _ => None end) outcomes.

Definition summarize (pages : list ExtractedPage) (failed : list FailedExtraction)
  : ExtractionResult :=
  let totalWords := fold_left (fun sum p => sum + wordCount (metadata p)) pages 0 in
  {| pages := pages;
     totalPages := length pages + length failed;
     failed := failed;
     stats := {| successRate :=
                   b64_mul (b64_div (b64_of_nat (length pages))
                                    (b64_of_nat (length pages + length failed)))
                           (b64_of_nat 100);
                 totalWords := totalWords;
                 avgWordsPerPage :=
                   if (0 <? length pages)%nat
                   then b64_div (b64_of_nat totalWords) (b64_of_nat (length pages))
                   else b64_of_nat 0 |} |}.

Definition extractWebsite `{Locale} (firecrawl : Firecrawl) (σ : Store)
  (url : string) (options : ExtractWebsiteOptions) : result ExtractionResult :=
  bind (validateUrl url) (fun _ =>
  bind (normalizeUrl url no_options) (fun normalizedUrl =>
  match firecrawl url (crawlOptions options) with
  | Throw errorMessage =>
      Throw ("Failed to extract website " +:+ url +:+ ": " +:+ errorMessage)
  | Ok crawlResult =>
      let data := default [] (data crawlResult) in
      let urls := crawl_urls url options data σ in
      let outcomes := map (process_page url options urls) data in
      Ok (summarize (pages_of outcomes) (failed_of outcomes))
  end)).

(** [WebExtractor.isValidUrl]. *)
Definition isValidUrl (url : string) : bool :=
  match validateUrl url with
  | Ok _ => true
  | Throw _ => false
  end.

End WebExtractor.

(** ** The URL records that the parser returns, and the default
    normalization step by step *)

Module Canonical.
Import JS WHATWG UrlUtils.

Definition segment_char (c : ascii) : bool := path_char c && negb (Ascii.eqb c "/").

Definition raw_segment (seg : string) : bool := str_forallb segment_char seg.

Definition segment_ok (seg : string) : bool :=
  raw_segment seg && negb (is_single_dot seg) && negb (is_double_dot seg).

Definition port_ok (dflt : N) (port : option N) : bool :=
  match port with
  | None => true
  | Some p => (p <=? 65535)%N && negb (p =? dflt)%N
  end.

Definition query_wf (query : option string) : bool :=
  match query with None => true | Some q => query_supported q end.

Definition fragment_wf (fragment : option string) : bool :=
  match fragment with None => true | Some f => str_forallb fragment_char f end.

Definition well_formed (u : URL) : bool :=
  match default_port (url_scheme u) with
  | None => false
  | Some dflt =>
      host_ok (url_host u)
      && port_ok dflt (url_port u)
      && match url_path u with [] => false | _ => forallb segment_ok (url_path u) end
      && query_wf (url_query u)
      && fragment_wf (url_fragment u)
  end.

Definition query_string (query : option string) : string :=
  match query with Some q => String "?" q | None => EmptyString end.

Definition fragment_string (fragment : option string) : string :=
  match fragment with Some f => String "#" f | None => EmptyString end.

(** The characters that the form-urlencoded serializer writes. *)
Definition encoded_char (c : ascii) : bool := is_alnum c || one_of "*-._+%" c.

(** Adjacent entries are in the order of the comparator. *)
Fixpoint sorted {A} (cmp : A -> A -> Z) (l : list A) : Prop :=
  match l with
  | x :: (y :: _) as l' => (cmp x y <= 0)%Z /\ sorted cmp l'
  | _ => True
  end.

(** What [normalizeUrl] does to the parsed URL under the default options,
    and to its serialization. *)
Definition default_steps `{Locale} (urlObj : URL) : URL :=
  let urlObj := URL_set_hostname urlObj (toLowerCase (URL_hostname urlObj)) in
  let urlObj := URL_set_hash urlObj "" in
  if truthy (URL_search urlObj) then
    let params := URLSearchParams_new (URL_search urlObj) in
    let sorted := sort_params params in
    URL_set_search urlObj (URLSearchParams_toString sorted)
  else urlObj.

(** The serialization up to the path. *)
Definition href_prefix (r : URL) : string :=
  url_scheme r +:+ "://" +:+ authority_string (url_host r) (url_port r).

Definition strip_slash (normalized : string) : string :=
  if endsWith normalized "/" then slice_0_minus1 normalized else normalized.

(** The query of a URL that went through [default_steps]. *)
Definition canonical_query `{Locale} (query : option string) : Prop :=
  match query with
  | None => True
  | Some EmptyString => True
  | Some q => exists l, l <> [] /\ forallb ascii_pair l = true
                        /\ sorted (fun a b => localeCompare (fst a) (fst b)) l
                        /\ q = URLSearchParams_toString l
  end.

End Canonical.

(** ** The URL platform as an interface

    [normalizeUrl] and [validateUrl] once more, written against the
    operations of the platform that they call: the [URL] constructor, the
    getters and setters of a URL object, its serializer, and
    [URLSearchParams].  A URL object is the state of its URL record; a
    setter returns the new state.  The names and values of the query
    parameters are strings of the platform, which need not be made of code
    units below 256.  The model of the [WHATWG] module is one instance. *)

Module Platform.
Import JS WHATWG Types.

Class URLPlatform : Type := {
  URLObject : Type;
  Entry : Type;
  (** [new URL(input)]; [None] when the constructor throws its [TypeError]. *)
  new_URL : string -> option URLObject;
  TypeError_message : string -> string;
  get_protocol : URLObject -> string;
  get_hostname : URLObject -> string;
  set_hostname : URLObject -> string -> URLObject;
  set_hash : URLObject -> string -> URLObject;
  get_search : URLObject -> string;
  set_search : URLObject -> string -> URLObject;
  toString : URLObject -> string;
  (** [Array.from(new URLSearchParams(init).entries())]. *)
  URLSearchParams_entries : string -> list Entry;
  (** [new URLSearchParams(entries).toString()]. *)
  URLSearchParams_serialize : list Entry -> string;
  (** The callback [([a], [b]) => a.localeCompare(b)]. *)
  compare_names : Entry -> Entry -> Z
}.

Section Code.
Context `{URLPlatform}.

Definition validateUrl (url : string) : result URLObject :=
  let attempt :=
    match new_URL url with
    | None => Throw (TypeError_message url)
    | Some urlObj =>
        if existsb (String.eqb (get_protocol urlObj)) ["http:"; "https:"]
        then Ok urlObj
        else Throw "Only HTTP and HTTPS protocols are supported"
    end in
  match attempt with
  | Ok urlObj => Ok urlObj
  | Throw errorMessage => Throw ("Invalid URL: " +:+ url +:+ " - " +:+ errorMessage)
  end.

Definition normalizeUrl (url : string) (options : NormalizeUrlOptions) : result string :=
  let removeTrailingSlash := default true (removeTrailingSlash options) in
  let removeQueryParams := default false (removeQueryParams options) in
  let removeFragment := default true (removeFragment options) in
  let lowercase := default true (lowercase options) in
  let sortQueryParams := default true (sortQueryParams options) in
  bind (validateUrl url) (fun urlObj =>
  let urlObj :=
    if lowercase then set_hostname urlObj (toLowerCase (get_hostname urlObj))
    else urlObj in
  let urlObj := if removeFragment then set_hash urlObj "" else urlObj in
  let urlObj :=
    if removeQueryParams then set_search urlObj ""
    else if sortQueryParams && truthy (get_search urlObj) then
      let params := URLSearchParams_entries (get_search urlObj) in
      let sorted := Array_sort compare_names params in
      set_search urlObj (URLSearchParams_serialize sorted)
    else urlObj in
  let normalized := toString urlObj in
  Ok (if removeTrailingSlash && endsWith normalized "/"
      then slice_0_minus1 normalized else normalized)).

(** The search string that the sorting step writes. *)
Definition sorted_search (urlObj : URLObject) : string :=
  URLSearchParams_serialize
    (Array_sort compare_names (URLSearchParams_entries (get_search urlObj))).

(** What [normalizeUrl] does to the URL object under the default options. *)
Definition default_steps (urlObj : URLObject) : URLObject :=
  let urlObj := set_hostname urlObj (toLowerCase (get_hostname urlObj)) in
  let urlObj := set_hash urlObj "" in
  if truthy (get_search urlObj) then set_search urlObj (sorted_search urlObj) else urlObj.

(** The URL objects that [normalizeUrl] holds: what the constructor
    returns, and what the fragment and search setters make of it. *)
Inductive reached : URLObject -> Prop :=
| reached_new (u : string) (r : URLObject) : new_URL u = Some r -> reached r
| reached_hash (r : URLObject) : reached r -> reached (set_hash r "")
| reached_search (r : URLObject) : reached r -> reached (set_search r (sorted_search r)).

(** A URL object without fragment whose search string, if it has one, is
    the one that the sorting step writes. *)
Definition settled (r : URLObject) : Prop :=
  reached r /\ set_hash r "" = r
  /\ (truthy (get_search r) = true -> set_search r (sorted_search r) = r).

End Code.

(** What the URL standard and a consistent collation give for the URL
    objects that [normalizeUrl] holds.
    - The hostname of a URL object is in lower case, and writing it back
      changes nothing.
    - The fragment and search setters keep the protocol; removing the
      fragment twice is removing it once, and the search setter leaves a
      removed fragment removed.
    - A URL object is what the constructor reads from its serialization.
    - The sorted parameters are what [URLSearchParams] reads from the
      search string they were written to, and writing the same search
      string twice is writing it once.
    - The collation never puts two names on both sides of each other.
    - The serialized parameters hold no slash: a serialization without
      fragment that ends with a slash has an empty search string.
    - A serialization without query and fragment that ends with a slash
      ends with the path; without that slash it reads as a URL with the same
      protocol, no query and no fragment, and is the serialization of that
      URL, up to the slash of an empty path. *)
Class Conforming `{URLPlatform} : Prop := {
  hostname_fixed :
    forall r, reached r -> set_hostname r (toLowerCase (get_hostname r)) = r;
  set_hash_protocol :
    forall r, reached r -> get_protocol (set_hash r "") = get_protocol r;
  set_search_protocol :
    forall r, reached r -> get_protocol (set_search r (sorted_search r)) = get_protocol r;
  set_hash_twice :
    forall r, reached r -> set_hash (set_hash r "") "" = set_hash r "";
  set_hash_set_search :
    forall r, reached r -> set_hash r "" = r ->
              set_hash (set_search r (sorted_search r)) "" = set_search r (sorted_search r);
  new_URL_toString :
    forall r, reached r -> new_URL (toString r) = Some r;
  entries_set_search :
    forall r, reached r ->
              URLSearchParams_entries (get_search (set_search r (sorted_search r)))
              = Array_sort compare_names (URLSearchParams_entries (get_search r));
  set_search_twice :
    forall r, reached r ->
              set_search (set_search r (sorted_search r)) (sorted_search r)
              = set_search r (sorted_search r);
  compare_names_consistent :
    forall a b, (0 < compare_names a b)%Z -> (compare_names b a <= 0)%Z;
  slash_after_search :
    forall r, reached r -> set_hash r "" = r ->
              endsWith (toString (set_search r (sorted_search r))) "/" = true ->
              get_search (set_search r (sorted_search r)) = "";
  without_final_slash :
    forall r n, reached r -> set_hash r "" = r -> get_search r = "" ->
                toString r = n +:+ "/" ->
                exists r', new_URL n = Some r'
                           /\ get_protocol r' = get_protocol r
                           /\ set_hash r' "" = r'
                           /\ get_search r' = ""
                           /\ (toString r' = n
                               \/ (toString r' = n +:+ "/" /\ endsWith n "/" = false))
}.

(** The model of the [WHATWG] module as a platform. *)
#[global] Instance whatwg_model `{Locale} : URLPlatform := {|
  URLObject := URL;
  Entry := string * string;
  new_URL := URL_parse;
  TypeError_message := fun _ => UrlUtils.URL_TypeError;
  get_protocol := URL_protocol;
  get_hostname := URL_hostname;
  set_hostname := URL_set_hostname;
  set_hash := URL_set_hash;
  get_search := URL_search;
  set_search := URL_set_search;
  toString := URL_toString;
  URLSearchParams_entries := URLSearchParams_new;
  URLSearchParams_serialize := URLSearchParams_toString;
  compare_names := fun a b => localeCompare (fst a) (fst b)
|}.

End Platform.

(** ** Shapes of strings that the properties speak about *)

Module Pieces.
Import JS ContentUtils.

(** The callback [(s) => s.length > 0]. *)
Definition nonempty (s : string) : bool := (0 <? String.length s)%nat.

(** [content.split(/\s+/).filter((word) => word.length > 0)]. *)
Definition words (s : string) : list string := List.filter nonempty (split_ws s).

(** The first piece of [s.split(/\s+/)], and the words among the other pieces. *)
Definition first_piece (s : string) : string := hd EmptyString (split_ws s).
Definition later_words (s : string) : list string := List.filter nonempty (tl (split_ws s)).

Definition no_space (s : string) : bool := str_forallb (fun c => negb (is_space c)) s.

Fixpoint ends_with_space (s : string) : bool :=
  match s with
  | EmptyString => false
  | String c EmptyString => is_space c
  | String _ s' => ends_with_space s'
  end.

Definition starts_with_two_LF (s : string) : bool :=
  match s with
  | String a (String b _) => Ascii.eqb a LF && Ascii.eqb b LF
  | _ => false
  end.

(** The text is empty, or begins or ends with white space: [split(/\s+/)]
    then yields an empty piece. *)
Definition empty_or_edge_space (content : string) : bool :=
  match content with
  | EmptyString => true
  | _ => starts_with_space content || ends_with_space content
  end.

(** No run of three line feeds. *)
Fixpoint no_triple_LF (s : string) : bool :=
  match s with
  | EmptyString => true
  | String c s' => negb (Ascii.eqb c LF && starts_with_two_LF s') && no_triple_LF s'
  end.

End Pieces.

(** ** Inputs used in the examples, and the reading of the pattern filter
    that the properties compare the code with *)

Module Examples.
Import JS WHATWG RegExpModel Types UrlUtils ContentUtils WebExtractor Pieces.

(** A collaborator that finds no page at all. *)
Definition empty_crawl : Firecrawl := fun _ _ => Ok {| data := Some [] |}.

(** [/\/blog\//g] and [/\/blog\//]. *)
Definition blog_global : RegExp := mkRegExp 1 (literal "/blog/") true false.
Definition blog_plain : RegExp := mkRegExp 2 (literal "/blog/") false false.

Definition blog_urls : list string := ["https://a.com/blog/1"; "https://a.com/blog/2"].

(** The filter as the specification words it: a URL is kept when no exclude
    pattern occurs in it and, if there are include patterns, one of them
    does. *)
Definition spec_keeps (includePatterns excludePatterns : option (list RegExp))
  (url : string) : bool :=
  negb (existsb (fun p => matches p url) (default [] excludePatterns))
  && match includePatterns with
     | Some (p :: rest) => existsb (fun q => matches q url) (p :: rest)
     | _ => true
     end.

(** A record as the collaborator returns it for the page at [src] whose
    markdown is [md]. *)
Definition record (src md : string) : RawPage :=
  {| raw_metadata := Some {| sourceURL := Some src; raw_title := Some "Page";
                             raw_description := None; raw_language := None;
                             raw_statusCode := Some 200%Z |};
     raw_url := None; raw_markdown := Some md; raw_html := None; raw_text := None;
     raw_content := None; raw_excerpt := None |}.

Definition answer (data : list RawPage) : Firecrawl :=
  fun _ _ => Ok {| data := Some data |}.

Definition seed : string := "https://a.com".

(** The URL of the normalization scenario, and what the parser reads. *)
Definition scenario_url : string := "https://Example.com/Path/?b=2&a=1#frag".

Definition scenario_parsed : URL :=
  {| url_scheme := "https"; url_host := "example.com"; url_port := None;
     url_path := ["Path"; ""]; url_query := Some "b=2&a=1"; url_fragment := Some "frag" |}.

(** Five records, one source URL unparseable, the others distinct. *)
Definition five_records : list RawPage :=
  [ record "https://a.com/1" "one"; record "https://a.com/2" "two words";
    record "not a url" "lost"; record "https://a.com/3" "three"; record "https://a.com/4" "four" ].

(** Five records, one source URL unparseable, and two spellings of one page. *)
Definition five_records_two_spellings : list RawPage :=
  [ record "https://a.com/1" "one"; record "https://a.com/1/" "one";
    record "not a url" "lost"; record "https://a.com/2" "two"; record "https://a.com/3" "three" ].

(** Five records, one source URL unparseable, and one source URL that comes
    twice, written the same way. *)
Definition five_records_one_repeated : list RawPage :=
  [ record "https://a.com/1" "one"; record "https://a.com/1" "one again";
    record "not a url" "lost"; record "https://a.com/2" "two"; record "https://a.com/3" "three" ].

Definition two_spellings : list RawPage :=
  [ record "https://a.com/x" "first"; record "https://a.com/x/" "second" ].

Definition one_unparseable : list RawPage := [ record "not a url" "lost" ].

(** Two records and the exclude pattern [/\/blog\//]. *)
Definition blog_and_about : list RawPage :=
  [ record "https://a.com/blog/1" "post"; record "https://a.com/about" "about us" ].

Definition without_blog : ExtractWebsiteOptions :=
  {| maxPages := None; includeSubdomains := None; titlePrefix := None;
     onlyMainContent := None; format := None; maxDepth := None;
     followExternalLinks := None; includePatterns := None;
     excludePatterns := Some [blog_plain] |}.

(** A record with both a markdown and an HTML payload, and a request for HTML. *)
Definition both_payloads : RawPage :=
  {| raw_metadata := Some {| sourceURL := Some "https://a.com/p"; raw_title := Some "P";
                             raw_description := None; raw_language := None;
                             raw_statusCode := None |};
     raw_url := None; raw_markdown := Some "one two three"; raw_html := Some "<p>one</p>";
     raw_text := None; raw_content := None; raw_excerpt := None |}.

Definition html_options : ExtractWebsiteOptions :=
  {| maxPages := None; includeSubdomains := None; titlePrefix := None;
     onlyMainContent := None; format := Some "html"; maxDepth := None;
     followExternalLinks := None; includePatterns := None; excludePatterns := None |}.

(** The similarity as the specification words it: the Jaccard index of the
    two vocabularies, the sets of the words of the lower-cased texts, and 0
    when both vocabularies are empty. *)
Definition vocabulary (content : string) : gset string :=
  list_to_set (words (toLowerCase content)).

Definition jaccard (content1 content2 : string) : number :=
  let intersection := size (vocabulary content1 ∩ vocabulary content2) in
  let union := size (vocabulary content1 ∪ vocabulary content2) in
  if (union =? 0)%nat then of_nat 0 else div (of_nat intersection) (of_nat union).

(** The success rate as the specification words it, in exact arithmetic. *)
Definition claimed_successRate (pages failed : nat) : Q :=
  if (pages + failed =? 0)%nat then 0%Q
  else (100 * inject_Z (Z.of_nat pages) / inject_Z (Z.of_nat (pages + failed)))%Q.

(** Deduplication as the specification words it: going through the list
    from its first URL, a URL is retained, as it is written, when it
    normalizes and no URL before it in the list has its key. *)
Definition has_key `{Locale} (options : NormalizeUrlOptions) (n v : string) : bool :=
  match normalizeUrl v options with
  | Ok m => String.eqb m n
  | Throw _ => false
  end.

Definition first_with_its_key `{Locale} (options : NormalizeUrlOptions)
  (before : list string) (u : string) : bool :=
  match normalizeUrl u options with
  | Ok n => negb (existsb (has_key options n) before)
  | Throw _ => false
  end.

Fixpoint firsts_of_keys `{Locale} (options : NormalizeUrlOptions)
  (before urls : list string) : list string :=
  match urls with
  | [] => []
  | u :: rest =>
      if first_with_its_key options before u
      then u :: firsts_of_keys options (before ++ [u]) rest
      else firsts_of_keys options (before ++ [u]) rest
  end.

(** A record with a markdown, an HTML and a text payload, and a request for
    plain text. *)
Definition three_payloads : RawPage :=
  {| raw_metadata := Some {| sourceURL := Some "https://a.com/p"; raw_title := Some "P";
                             raw_description := None; raw_language := None;
                             raw_statusCode := None |};
     raw_url := None; raw_markdown := Some "# one two three"; raw_html := Some "<p>one</p>";
     raw_text := Some "one two"; raw_content := None; raw_excerpt := None |}.

Definition text_options : ExtractWebsiteOptions :=
  {| maxPages := None; includeSubdomains := None; titlePrefix := None;
     onlyMainContent := None; format := Some "text"; maxDepth := None;
     followExternalLinks := None; includePatterns := None; excludePatterns := None |}.

Definition all_stateless (patterns : option (list RegExp)) : bool :=
  forallb stateless (default [] patterns).

(** The default options, the final slash kept. *)
Definition keep_slash : NormalizeUrlOptions :=
  {| removeTrailingSlash := Some false; removeQueryParams := None;
     removeFragment := None; lowercase := None; sortQueryParams := None |}.

End Examples.

(** * Properties *)

(** ** Strings *)

Module StringFacts.
Import JS.

Lemma append_cons (c : ascii) (s t : string) : String c s +:+ t = String c (s +:+ t).
Proof. reflexivity. Qed.

Lemma append_nil_l (s : string) : "" +:+ s = s.
Proof. reflexivity. Qed.

Lemma append_nil_r (s : string) : s +:+ "" = s.
Proof. induction s as [|c s IH]; [reflexivity | rewrite append_cons, IH; reflexivity]. Qed.

Lemma append_assoc (a b c : string) : (a +:+ b) +:+ c = a +:+ (b +:+ c).
Proof.
  induction a as [|x a IH]; [reflexivity | rewrite !append_cons, IH; reflexivity].
Qed.

Lemma split_ws_nonempty (s : string) : split_ws s <> [].
Proof.
  induction s as [|c s IH]; simpl; [discriminate |].
  destruct (is_space c).
  - destruct (starts_with_space s); [exact IH | discriminate].
  - destruct (split_ws s); discriminate.
Qed.

Lemma split_on_nonempty (d : ascii) (s : string) : split_on d s <> [].
Proof.
  induction s as [|c s IH]; simpl; [discriminate |].
  destruct (Ascii.eqb c d); [discriminate |].
  destruct (split_on d s); discriminate.
Qed.

Lemma length_append (a b : string) :
  String.length (a +:+ b) = String.length a + String.length b.
Proof.
  induction a as [|c a IH]; [reflexivity | rewrite append_cons; simpl; rewrite IH; reflexivity].
Qed.

Lemma substring_all (t : string) : String.substring 0 (String.length t) t = t.
Proof. induction t as [|c t IH]; [reflexivity | simpl; rewrite IH; reflexivity]. Qed.

Lemma substring_skip (p t : string) (k : nat) :
  String.substring (String.length p) k (p +:+ t) = String.substring 0 k t.
Proof. induction p as [|c p IH]; [reflexivity | rewrite append_cons; simpl; exact IH]. Qed.

Lemma substring_split (s : string) (m : nat) :
  m <= String.length s ->
  s = String.substring 0 m s +:+ String.substring m (String.length s - m) s.
Proof.
  revert m. induction s as [|c s IH]; intros m Hm.
  - simpl in Hm. destruct m; [reflexivity | lia].
  - destruct m as [|m].
    + simpl. rewrite substring_all. reflexivity.
    + simpl in Hm. simpl. rewrite append_cons. f_equal. apply IH. lia.
Qed.

Lemma length_substring_0 (s : string) (j : nat) :
  String.length (String.substring 0 j s) = Nat.min j (String.length s).
Proof.
  revert j. induction s as [|c s IH]; intros [|j]; try reflexivity.
  simpl. rewrite IH. reflexivity.
Qed.

End StringFacts.

(** ** Content utilities *)

Module ContentFacts.
Import JS WHATWG Types ContentUtils Pieces Examples.

Lemma word_set_nonempty (s : string) : word_set s <> ∅.
Proof.
  unfold word_set. pose proof (StringFacts.split_ws_nonempty (toLowerCase s)) as Hne.
  destruct (split_ws (toLowerCase s)) as [|w ws]; [congruence |].
  intros Hempty. assert (w ∈ (∅ : gset string)) as Hin.
  { rewrite <- Hempty. rewrite elem_of_list_to_set. left. }
  set_solver.
Qed.

Lemma intersection_as_set (words1 words2 : gset string) :
  list_to_set (List.filter (fun x => bool_decide (x ∈ words2)) (elements words1))
  = (words1 ∩ words2 : gset string).
Proof.
  apply set_eq. intros x.
  rewrite elem_of_list_to_set, list_elem_of_In, filter_In, <- list_elem_of_In.
  rewrite elem_of_elements, bool_decide_eq_true, elem_of_intersection. reflexivity.
Qed.

Lemma union_as_set (words1 words2 : gset string) :
  list_to_set (elements words1 ++ elements words2) = (words1 ∪ words2 : gset string).
Proof.
  apply set_eq. intros x.
  rewrite elem_of_list_to_set, elem_of_app, !elem_of_elements, elem_of_union. reflexivity.
Qed.

Lemma div_of_nat (n d : nat) :
  0 < d -> div (of_nat n) (of_nat d) = Num (inject_Z (Z.of_nat n) / inject_Z (Z.of_nat d)).
Proof.
  intros Hd. unfold div, of_nat, Qis_zero. simpl.
  destruct (Z.eqb_spec (Z.of_nat d) 0) as [Heq|_]; [lia | reflexivity].
Qed.

Lemma ratio_in_unit_interval (n d : nat) :
  n <= d -> 0 < d ->
  (0 <= inject_Z (Z.of_nat n) / inject_Z (Z.of_nat d))%Q
  /\ (inject_Z (Z.of_nat n) / inject_Z (Z.of_nat d) <= 1)%Q.
Proof.
  intros Hle Hd.
  assert (0 < inject_Z (Z.of_nat d))%Q as Hpos by (unfold Qlt; simpl; lia).
  split.
  - apply Qle_shift_div_l; [exact Hpos |]. unfold Qle; simpl. lia.
  - apply Qle_shift_div_r; [exact Hpos |]. unfold Qle; simpl. lia.
Qed.

(** The examples of the documentation. *)
Lemma content_examples :
  countWords "" = 0
  /\ countWords "a b  c" = 3
  /\ cleanContent ("  a" +:+ String LF (String LF (String LF (String LF "b  "))))
     = "a" +:+ String LF (String LF "b")
  /\ detectLanguage "the cat and the dog" = Some "en"
  /\ detectLanguage "" = None.
Proof. vm_compute. repeat split; reflexivity. Qed.

Lemma empty_piece_later (s : string) :
  EmptyString ∈ tl (split_ws s) <-> ends_with_space s = true.
Proof.
  induction s as [|d t IH]; simpl.
  - split; [intros Hin; inversion Hin | discriminate].
  - pose proof (StringFacts.split_ws_nonempty t) as Hne.
    destruct (is_space d) eqn:Hd.
    + destruct t as [|e t'].
      * simpl. split; [reflexivity | intros _; left].
      * change (starts_with_space (String e t')) with (is_space e).
        destruct (is_space e) eqn:He.
        -- exact IH.
        -- simpl in IH |- *. rewrite He in IH |- *.
           destruct (split_ws t') as [|hd tl'] eqn:Hs.
           ++ simpl in IH |- *. rewrite <- IH. split; intros Hin.
              ** apply elem_of_cons in Hin as [Hin | Hin]; [discriminate | inversion Hin].
              ** inversion Hin.
           ++ simpl in IH |- *. rewrite <- IH. split; intros Hin.
              ** apply elem_of_cons in Hin as [Hin | Hin]; [discriminate | exact Hin].
              ** right. exact Hin.
    + destruct (split_ws t) as [|hd tl'] eqn:Hs; [congruence |]. simpl in IH |- *.
      destruct t as [|e t']; [| exact IH].
      simpl in Hs. injection Hs as <- <-. split; [intros Hin; inversion Hin | discriminate].
Qed.

Lemma empty_piece_first (s : string) :
  starts_with_space s = true -> EmptyString ∈ split_ws s.
Proof.
  induction s as [|c s IH]; [discriminate |].
  simpl. intros Hc. rewrite Hc.
  destruct (starts_with_space s) eqn:Hs; [apply IH; reflexivity | left].
Qed.

Lemma empty_piece (s : string) :
  EmptyString ∈ split_ws s <-> empty_or_edge_space s = true.
Proof.
  destruct s as [|c s'].
  - simpl. split; [reflexivity | intros _; left].
  - pose proof (empty_piece_later (String c s')) as Hlater.
    unfold empty_or_edge_space. change (starts_with_space (String c s')) with (is_space c).
    destruct (is_space c) eqn:Hc.
    + split; [reflexivity | intros _]. apply empty_piece_first. exact Hc.
    + rewrite <- Hlater. simpl. rewrite Hc.
      pose proof (StringFacts.split_ws_nonempty s') as Hne.
      destruct (split_ws s') as [|hd tl']; [congruence |]. simpl.
      split; intros Hin.
      * apply elem_of_cons in Hin as [Hin | Hin]; [discriminate | exact Hin].
      * right. exact Hin.
Qed.

Lemma is_space_lower_char (c : ascii) : is_space (lower_char c) = is_space c.
Proof. destruct c as [[] [] [] [] [] [] [] []]; reflexivity. Qed.

Lemma empty_or_edge_space_toLowerCase (s : string) :
  empty_or_edge_space (toLowerCase s) = empty_or_edge_space s.
Proof.
  assert (forall t, ends_with_space (toLowerCase t) = ends_with_space t) as Hends.
  { induction t as [|c t IH]; [reflexivity |].
    destruct t as [|d t']; [apply is_space_lower_char | exact IH]. }
  destruct s as [|c s']; [reflexivity |].
  unfold empty_or_edge_space.
  change (toLowerCase (String c s')) with (String (lower_char c) (toLowerCase s')) at 1 2.
  cbv beta iota.
  change (starts_with_space (String (lower_char c) (toLowerCase s'))) with (is_space (lower_char c)).
  change (starts_with_space (String c s')) with (is_space c).
  rewrite is_space_lower_char.
  change (String (lower_char c) (toLowerCase s')) with (toLowerCase (String c s')).
  rewrite Hends. reflexivity.
Qed.

Lemma nonempty_false (w : string) : nonempty w = false <-> w = EmptyString.
Proof.
  destruct w as [|c w]; [split; reflexivity |].
  change (nonempty (String c w)) with true. split; discriminate.
Qed.

Lemma word_set_vocabulary (s : string) :
  (EmptyString ∉ vocabulary s)
  /\ word_set s = vocabulary s ∪ (if empty_or_edge_space s then {[EmptyString]} else ∅).
Proof.
  unfold vocabulary, word_set, words.
  pose proof (empty_piece (toLowerCase s)) as Hempty.
  rewrite empty_or_edge_space_toLowerCase in Hempty.
  set (l := split_ws (toLowerCase s)) in *.
  assert (forall x, x ∈ (list_to_set (List.filter nonempty l) : gset string)
                    <-> x ∈ l /\ x <> EmptyString) as Hvoc.
  { intros x. rewrite elem_of_list_to_set, list_elem_of_In, filter_In, <- list_elem_of_In.
    rewrite <- nonempty_false. destruct (nonempty x); split; intros [? ?]; split; congruence. }
  split.
  - rewrite Hvoc. tauto.
  - apply set_eq. intros x. rewrite elem_of_union, Hvoc, elem_of_list_to_set.
    destruct (empty_or_edge_space s).
    + rewrite elem_of_singleton. split.
      * intros Hx. destruct (String.eqb_spec x EmptyString); [right; assumption | left; tauto].
      * intros [[Hx _] | ->]; [exact Hx | apply Hempty; reflexivity].
    + split.
      * intros Hx. left. split; [exact Hx |]. intros ->. apply Hempty in Hx. discriminate.
      * intros [[Hx _] | Hx]; [exact Hx | inversion Hx].
Qed.

Lemma calculateSimilarity_ratio (a b : string) :
  calculateSimilarity a b
  = div (of_nat (size (word_set a ∩ word_set b))) (of_nat (size (word_set a ∪ word_set b))).
Proof. unfold calculateSimilarity. rewrite intersection_as_set, union_as_set. reflexivity. Qed.

Lemma sizes_with_empty_piece (A B : gset string) (ea eb : bool) :
  EmptyString ∉ A -> EmptyString ∉ B ->
  let EA : gset string := if ea then {[EmptyString]} else ∅ in
  let EB : gset string := if eb then {[EmptyString]} else ∅ in
  size ((A ∪ EA) ∩ (B ∪ EB)) = size (A ∩ B) + (if ea && eb then 1 else 0)
  /\ size ((A ∪ EA) ∪ (B ∪ EB)) = size (A ∪ B) + (if ea || eb then 1 else 0).
Proof.
  intros HA HB EA EB.
  assert (forall x, x ∈ A -> x <> EmptyString) as HA' by (intros x Hx ->; contradiction).
  assert (forall x, x ∈ B -> x <> EmptyString) as HB' by (intros x Hx ->; contradiction).
  assert ((A ∪ EA) ∩ (B ∪ EB)
          = (A ∩ B) ∪ (if ea && eb then {[EmptyString]} else ∅ : gset string)) as ->.
  { apply set_eq. intros x. specialize (HA' x). specialize (HB' x).
    rewrite elem_of_intersection, !elem_of_union, elem_of_intersection. unfold EA, EB.
    destruct ea, eb; simpl; rewrite ?elem_of_singleton, ?elem_of_empty; tauto. }
  assert ((A ∪ EA) ∪ (B ∪ EB)
          = (A ∪ B) ∪ (if ea || eb then {[EmptyString]} else ∅ : gset string)) as ->.
  { apply set_eq. intros x. rewrite !elem_of_union. unfold EA, EB.
    destruct ea, eb; simpl; rewrite ?elem_of_singleton, ?elem_of_empty; tauto. }
  split.
  - rewrite size_union.
    + destruct (ea && eb); [rewrite size_singleton | rewrite size_empty]; reflexivity.
    + apply elem_of_disjoint. intros x Hx HE. apply elem_of_intersection in Hx as [Hx _].
      destruct (ea && eb); [| inversion HE].
      apply elem_of_singleton in HE. exact (HA' x Hx HE).
  - rewrite size_union.
    + destruct (ea || eb); [rewrite size_singleton | rewrite size_empty]; reflexivity.
    + apply elem_of_disjoint. intros x Hx HE.
      destruct (ea || eb); [| inversion HE].
      apply elem_of_singleton in HE. apply elem_of_union in Hx as [Hx | Hx].
      * exact (HA' x Hx HE).
      * exact (HB' x Hx HE).
Qed.

(** C8. [calculateSimilarity] is the size of the intersection over the size
    of the union of the two sets of pieces that lower-casing and splitting
    on white space produce, the empty piece included: a text that is empty,
    or begins or ends with white space, adds the empty piece to its
    vocabulary.  The value is a number between 0 and 1, the divisor is never
    zero.  For two texts that are not empty and neither begin nor end with
    white space it is the Jaccard index of the two vocabularies; otherwise
    the empty piece counts as a word: ['a '] and ['a'] have the similarity
    1/2 where the Jaccard index is 1, and two empty texts have the
    similarity 1 where the specification says 0. *)
Theorem calculateSimilarity_and_jaccard (a b : string) :
  let ea := empty_or_edge_space a in
  let eb := empty_or_edge_space b in
  let i := size (vocabulary a ∩ vocabulary b) in
  let u := size (vocabulary a ∪ vocabulary b) in
  calculateSimilarity a b
  = div (of_nat (i + (if ea && eb then 1 else 0))) (of_nat (u + (if ea || eb then 1 else 0)))
  /\ (ea = false -> eb = false -> calculateSimilarity a b = jaccard a b)
  /\ (exists q, calculateSimilarity a b = Num q /\ (0 <= q)%Q /\ (q <= 1)%Q)
  /\ (calculateSimilarity "a " "a" = Num (1 # 2) /\ jaccard "a " "a" = Num 1)
  /\ (calculateSimilarity "" "" = Num 1 /\ jaccard "" "" = Num 0).
Proof.
  intros ea eb i u.
  destruct (word_set_vocabulary a) as [Ha Hwa]. destruct (word_set_vocabulary b) as [Hb Hwb].
  destruct (sizes_with_empty_piece (vocabulary a) (vocabulary b) ea eb Ha Hb) as [Hi Hu].
  fold i u in Hi, Hu.
  assert (calculateSimilarity a b
          = div (of_nat (i + (if ea && eb then 1 else 0)))
                (of_nat (u + (if ea || eb then 1 else 0)))) as Heq.
  { rewrite calculateSimilarity_ratio, Hwa, Hwb. fold ea eb. rewrite Hi, Hu. reflexivity. }
  assert (0 < size (word_set a ∪ word_set b)) as Hpos.
  { destruct (decide (size (word_set a ∪ word_set b) = 0)) as [Hz|Hnz]; [|lia].
    apply size_empty_inv in Hz. exfalso. apply (word_set_nonempty a).
    apply set_eq. intros x. split; [| intros Hx; inversion Hx].
    intros Hx. apply Hz. apply elem_of_union. left. exact Hx. }
  split; [exact Heq |]. split; [| split].
  - intros Hea Heb. rewrite Heq, Hea, Heb. simpl. rewrite !Nat.add_0_r.
    unfold jaccard. fold i u.
    rewrite Hwa, Hwb in Hpos. fold ea eb in Hpos. rewrite Hu, Hea, Heb in Hpos. simpl in Hpos.
    destruct (Nat.eqb_spec u 0); [lia | reflexivity].
  - rewrite calculateSimilarity_ratio.
    assert (size (word_set a ∩ word_set b) <= size (word_set a ∪ word_set b)) as Hle.
    { apply subseteq_size. intros x. rewrite elem_of_intersection, elem_of_union. tauto. }
    rewrite (div_of_nat _ _ Hpos). eexists. split; [reflexivity |].
    apply ratio_in_unit_interval; assumption.
  - vm_compute. repeat split; reflexivity.
Qed.
End ContentFacts.

(** ** Statistics of a crawl *)

Module StatsFacts.
Import JS WHATWG RegExpModel Binary64 Types UrlUtils ContentUtils WebExtractor Examples.

Lemma summarize_totalPages pages failed :
  totalPages (summarize pages failed) = length pages + length failed.
Proof. reflexivity. Qed.

Lemma fold_left_sum {A} (f : A -> nat) (l : list A) (acc : nat) :
  fold_left (fun sum x => sum + f x) l acc = acc + list_sum (map f l).
Proof.
  revert acc. induction l as [|x l IH]; intros acc; simpl; [lia |].
  rewrite IH. lia.
Qed.

Lemma extractWebsite_summarizes `{Locale} (firecrawl : Firecrawl) (σ : Store)
  (url : string) (options : ExtractWebsiteOptions) (r : ExtractionResult) :
  extractWebsite firecrawl σ url options = Ok r -> r = summarize (pages r) (failed r).
Proof.
  unfold extractWebsite, bind.
  destruct (validateUrl url); [|discriminate].
  destruct (normalizeUrl url no_options); [|discriminate].
  destruct (firecrawl url (crawlOptions options)) as [resp|]; [|discriminate].
  intros Hrun. injection Hrun as <-. reflexivity.
Qed.

Lemma successRate_checked :
  forallb (fun total =>
             forallb (fun p =>
                        b64_within (1 # 2 ^ 46)
                          (b64_mul (b64_div (b64_of_nat p) (b64_of_nat total)) (b64_of_nat 100))
                          (claimed_successRate p (total - p)))
                     (seq 0 (S total)))
          (seq 1 100) = true.
Proof. vm_compute. reflexivity. Qed.

(** C1. The statistics of a crawl result: [totalPages] is the number of
    Page Records plus the number of Failure Records, the total word count is
    the sum of the word counts of the Page Records, the average is that
    total over the number of Page Records and 0 when there is none, and the
    success rate is [(pages / (pages + failed)) * 100] in binary64
    arithmetic, the quotient rounded and then the product.  For up to 100
    records it is within [2^-46] of [100 * pages / (pages + failed)], but
    it need not be the number nearest to it: 7 Page Records and 18 Failure
    Records give 28.000000000000004 and not 28, 1 and 2 give
    33.33333333333333 and not 33.333333333333336, the quotient of 100 by 3;
    5 and 0 give 100.  The success rate has no guard on the total, so when a crawl
    ends with no Page Record and no Failure Record it is [NaN], not 0. *)
Theorem stats_of_crawl_result `{Locale} (firecrawl : Firecrawl) (σ : Store)
  (url : string) (options : ExtractWebsiteOptions) (r : ExtractionResult) :
  extractWebsite firecrawl σ url options = Ok r ->
  let p := length (pages r) in
  let f := length (failed r) in
  totalPages r = p + f
  /\ totalWords (stats r) = list_sum (map (fun page => wordCount (metadata page)) (pages r))
  /\ avgWordsPerPage (stats r)
     = (if (0 <? p)%nat
        then b64_div (b64_of_nat (totalWords (stats r))) (b64_of_nat p)
        else SpecFloat.S754_zero false)
  /\ successRate (stats r)
     = b64_mul (b64_div (b64_of_nat p) (b64_of_nat (p + f))) (b64_of_nat 100)
  /\ (0 < p + f <= 100 ->
      b64_within (1 # 2 ^ 46) (successRate (stats r)) (claimed_successRate p f) = true)
  /\ (p + f = 0 ->
      successRate (stats r) = SpecFloat.S754_nan
      /\ b64_within (1 # 2 ^ 46) (successRate (stats r)) (claimed_successRate p f) = false
      /\ avgWordsPerPage (stats r) = SpecFloat.S754_zero false)
  /\ (b64_mul (b64_div (b64_of_nat 7) (b64_of_nat (7 + 18))) (b64_of_nat 100)
      = SpecFloat.S754_finite false 7881299347898369 (-48)
      /\ b64_of_nat 28 = SpecFloat.S754_finite false 7881299347898368 (-48)
      /\ b64_mul (b64_div (b64_of_nat 1) (b64_of_nat (1 + 2))) (b64_of_nat 100)
         = SpecFloat.S754_finite false 4691249611844266 (-47)
      /\ b64_div (b64_of_nat (100 * 1)) (b64_of_nat (1 + 2))
         = SpecFloat.S754_finite false 4691249611844267 (-47)
      /\ b64_mul (b64_div (b64_of_nat 5) (b64_of_nat (5 + 0))) (b64_of_nat 100)
         = b64_of_nat 100).
Proof.
  intros Hrun. pose proof (extractWebsite_summarizes _ _ _ _ _ Hrun) as Hr.
  destruct r as [ps total fs st]. unfold summarize in Hr.
  cbn [pages failed] in Hr. injection Hr as -> ->.
  cbn [pages failed stats totalPages totalWords avgWordsPerPage successRate].
  set (p := length ps). set (f := length fs).
  split; [reflexivity |]. split; [apply (fold_left_sum _ ps 0) |]. split.
  { destruct (Nat.ltb_spec 0 p) as [Hp|Hp]; reflexivity. }
  split; [reflexivity |]. split.
  - intros [Hpos Hmax].
    pose proof successRate_checked as Hall. rewrite forallb_forall in Hall.
    specialize (Hall (p + f)). rewrite forallb_forall in Hall.
    assert (In (p + f) (seq 1 100)) as Ht by (apply in_seq; lia).
    assert (In p (seq 0 (S (p + f)))) as Hp by (apply in_seq; lia).
    specialize (Hall Ht p Hp).
    replace (p + f - p) with f in Hall by lia. exact Hall.
  - split.
    + intros Hzero. assert (ps = []) as -> by (destruct ps; [reflexivity | simpl in *; lia]).
      assert (fs = []) as -> by (destruct fs; [reflexivity | simpl in *; lia]).
      repeat split; reflexivity.
    + vm_compute. repeat split; reflexivity.
Qed.

Lemma stats_of_crawl_result_witness :
  exists r, extractWebsite empty_crawl fresh "https://example.com" no_website_options = Ok r
            /\ successRate (stats r) = SpecFloat.S754_nan
            /\ avgWordsPerPage (stats r) = SpecFloat.S754_zero false.
Proof.
  eexists. split; [reflexivity |].
  refine ((fun H => conj (proj1 H) (proj2 (proj2 H)))
            (proj1 (proj2 (proj2 (proj2 (proj2 (proj2
               (stats_of_crawl_result empty_crawl fresh "https://example.com"
                  no_website_options _ _)))))) _)); reflexivity.
Defined.

(** C7. The limit handed to the collaborator is [Math.min(maxPages, 100)],
    with [maxPages] defaulting to 10: a request above 100 becomes 100, any
    other request is passed on as it is.  For a valid URL the crawl makes
    the call [crawlUrl(url, crawlOptions)] with this limit: when that call
    fails the crawl fails with the wrapped error, when it answers the result
    is built from the records of the answer; so the crawl depends on the
    collaborator only through the call that carries this limit.  For an
    invalid URL the crawl fails without the collaborator. *)
Theorem crawl_limit_is_clamped `{Locale} (options : ExtractWebsiteOptions) :
  limit (crawlOptions options) = Math_min (default (of_nat 10) (maxPages options)) (of_nat 100)
  /\ (forall m, maxPages options = Some m -> gt m (of_nat 100) = true ->
                limit (crawlOptions options) = of_nat 100)
  /\ (forall m, maxPages options = Some m -> gt m (of_nat 100) = false ->
                limit (crawlOptions options) = m)
  /\ (maxPages options = None -> limit (crawlOptions options) = of_nat 10)
  /\ (forall (f g : Firecrawl) σ url,
        (forall o, limit o = Math_min (default (of_nat 10) (maxPages options)) (of_nat 100) ->
                   f url o = g url o) ->
        extractWebsite f σ url options = extractWebsite g σ url options)
  /\ (forall (f : Firecrawl) σ url r,
        validateUrl url = Ok r ->
        extractWebsite f σ url options
        = match f url (crawlOptions options) with
          | Throw errorMessage =>
              Throw ("Failed to extract website " +:+ url +:+ ": " +:+ errorMessage)
          | Ok crawlResult =>
              let data := default [] (data crawlResult) in
              let outcomes :=
                map (process_page url options (crawl_urls url options data σ)) data in
              Ok (summarize (pages_of outcomes) (failed_of outcomes))
          end)
  /\ (forall (f : Firecrawl) σ url m,
        validateUrl url = Throw m -> extractWebsite f σ url options = Throw m).
Proof.
  split; [reflexivity |].
  split; [| split; [| split; [| split; [| split]]]].
  - intros m Hm Hgt. unfold crawlOptions; simpl. rewrite Hm; simpl.
    destruct m as [| [|] | q]; simpl in *; try discriminate; try reflexivity.
    unfold of_nat in *. destruct (Qle_bool q _); [discriminate | reflexivity].
  - intros m Hm Hgt. unfold crawlOptions; simpl. rewrite Hm; simpl.
    destruct m as [| [|] | q]; simpl in *; try discriminate; try reflexivity.
    unfold of_nat in *. destruct (Qle_bool q _); [reflexivity | discriminate].
  - intros Hm. unfold crawlOptions; simpl. rewrite Hm. reflexivity.
  - intros f g σ url Hfg. unfold extractWebsite.
    rewrite (Hfg (crawlOptions options)); reflexivity.
  - intros f σ url r Hv. unfold extractWebsite, normalizeUrl, bind. rewrite Hv. reflexivity.
  - intros f σ url m Hv. unfold extractWebsite, bind. rewrite Hv. reflexivity.
Qed.

Lemma crawl_limit_is_clamped_witness :
  limit (crawlOptions {| maxPages := Some (of_nat 250); includeSubdomains := None;
                         titlePrefix := None; onlyMainContent := None; format := None;
                         maxDepth := None; followExternalLinks := None;
                         includePatterns := None; excludePatterns := None |}) = of_nat 100.
Proof.
  refine (proj1 (proj2 (crawl_limit_is_clamped _)) (of_nat 250) _ _); reflexivity.
Defined.

End StatsFacts.


(** ** URL utilities *)

Module UrlFacts.
Import JS WHATWG RegExpModel Types UrlUtils Examples.

(** The normalizations recorded in [TEST_RESULTS.md]. *)
Lemma normalizeUrl_recorded_outputs :
  map (fun u => normalizeUrl u no_options)
      [ "https://astratechai.com"; "https://astratechai.com/"; "https://ASTRATECHAI.COM";
        "https://astratechai.com?utm_source=test"; "https://astratechai.com/about";
        "https://astratechai.com/about/" ]
  = [ Ok "https://astratechai.com"; Ok "https://astratechai.com";
      Ok "https://astratechai.com"; Ok "https://astratechai.com/?utm_source=test";
      Ok "https://astratechai.com/about"; Ok "https://astratechai.com/about" ].
Proof. vm_compute. reflexivity. Qed.

(** *** Deduplication *)

Section Dedup.
Context `{Locale}.
Variable options : NormalizeUrlOptions.

#[local] Abbreviation key u := (normalizeUrl u options).

Lemma dedup_loop_unique (urls : list string) (seen : gset string) (unique : list string) :
  dedup_loop options urls seen unique = unique ++ dedup_loop options urls seen [].
Proof.
  revert seen unique. induction urls as [|u urls IH]; intros seen unique; simpl.
  - rewrite app_nil_r. reflexivity.
  - destruct (key u) as [n|_]; [|apply IH].
    destruct (decide (n ∈ seen)); [apply IH |].
    rewrite (IH _ (unique ++ [u])), (IH _ [u]), <- app_assoc. reflexivity.
Qed.

Lemma dedup_loop_cons (u : string) (urls : list string) (seen : gset string) :
  dedup_loop options (u :: urls) seen [] =
  match key u with
  | Ok n => if decide (n ∈ seen) then dedup_loop options urls seen []
            else u :: dedup_loop options urls ({[n]} ∪ seen) []
  | Throw _ => dedup_loop options urls seen []
  end.
Proof.
  simpl. destruct (key u) as [n|_]; [|reflexivity].
  destruct (decide (n ∈ seen)); [reflexivity |].
  rewrite dedup_loop_unique. reflexivity.
Qed.

Lemma dedup_loop_sublist (urls : list string) (seen : gset string) :
  sublist (dedup_loop options urls seen []) urls.
Proof.
  revert seen. induction urls as [|u urls IH]; intros seen.
  - simpl. constructor.
  - rewrite dedup_loop_cons. destruct (key u) as [n|_].
    + destruct (decide (n ∈ seen)).
      * apply sublist_cons. apply IH.
      * apply sublist_skip. apply IH.
    + apply sublist_cons. apply IH.
Qed.

Lemma dedup_loop_fresh (urls : list string) (seen : gset string) (u : string) :
  u ∈ dedup_loop options urls seen [] -> exists n, key u = Ok n /\ n ∉ seen.
Proof.
  revert seen. induction urls as [|x urls IH]; intros seen Hin.
  - simpl in Hin. inversion Hin.
  - rewrite dedup_loop_cons in Hin. destruct (key x) as [n|m] eqn:Hx.
    + destruct (decide (n ∈ seen)) as [Hs|Hs]; [apply IH; exact Hin |].
      apply elem_of_cons in Hin as [->|Hin].
      * exists n. split; assumption.
      * destruct (IH _ Hin) as (k & Hk & Hfresh). exists k. split; [exact Hk |].
        intros Hks. apply Hfresh. apply elem_of_union. right. exact Hks.
    + apply IH. exact Hin.
Qed.

Lemma dedup_loop_distinct (urls : list string) (seen : gset string) (i j : nat) (u v : string) :
  dedup_loop options urls seen [] !! i = Some u ->
  dedup_loop options urls seen [] !! j = Some v ->
  key u = key v -> i = j.
Proof.
  revert seen i j. induction urls as [|x urls IH]; intros seen i j Hi Hj Huv.
  - simpl in Hi. discriminate.
  - rewrite dedup_loop_cons in Hi, Hj. destruct (key x) as [n|m] eqn:Hx.
    + destruct (decide (n ∈ seen)) as [Hs|Hs]; [eapply IH; eassumption |].
      assert (forall k w, dedup_loop options urls ({[n]} ∪ seen) [] !! k = Some w -> key w <> Ok n)
        as Hrest.
      { intros k w Hk Hw. apply list_elem_of_lookup_2 in Hk.
        destruct (dedup_loop_fresh _ _ _ Hk) as (n' & Hn' & Hfresh).
        rewrite Hw in Hn'. injection Hn' as <-. apply Hfresh. apply elem_of_union. left.
        apply elem_of_singleton. reflexivity. }
      destruct i as [|i], j as [|j]; simpl in Hi, Hj.
      * reflexivity.
      * injection Hi as <-. exfalso. apply (Hrest _ _ Hj). rewrite <- Huv. exact Hx.
      * injection Hj as <-. exfalso. apply (Hrest _ _ Hi). rewrite Huv. exact Hx.
      * f_equal. eapply IH; eassumption.
    + eapply IH; eassumption.
Qed.

Lemma dedup_loop_first (urls : list string) (seen : gset string) (i : nat) (u n : string) :
  urls !! i = Some u -> key u = Ok n -> n ∉ seen ->
  (forall j v, j < i -> urls !! j = Some v -> key v <> Ok n) ->
  u ∈ dedup_loop options urls seen [].
Proof.
  revert seen i. induction urls as [|x urls IH]; intros seen i Hi Hu Hfresh Hfirst.
  - discriminate.
  - rewrite dedup_loop_cons. destruct i as [|i]; simpl in Hi.
    + injection Hi as ->. rewrite Hu. destruct (decide (n ∈ seen)); [contradiction |]. left.
    + assert (key x <> Ok n) as Hx by (apply (Hfirst 0 x); [lia | reflexivity]).
      assert (forall j v, j < i -> urls !! j = Some v -> key v <> Ok n) as Hfirst'.
      { intros j v Hj Hv. apply (Hfirst (S j) v); [lia | exact Hv]. }
      destruct (key x) as [k|m].
      * destruct (decide (k ∈ seen)); [eapply IH; eassumption |].
        right. eapply IH; try eassumption.
        intros Hin. apply elem_of_union in Hin as [Hin|Hin]; [|contradiction].
        apply elem_of_singleton in Hin. subst k. apply Hx. reflexivity.
      * eapply IH; eassumption.
Qed.

Lemma existsb_has_key (before : list string) (n : string) :
  existsb (has_key options n) before = true <-> exists v, In v before /\ key v = Ok n.
Proof.
  rewrite existsb_exists. unfold has_key. split.
  - intros (v & Hv & Hk). exists v. split; [exact Hv |].
    destruct (key v) as [m|]; [| discriminate]. apply String.eqb_eq in Hk. subst m. reflexivity.
  - intros (v & Hv & Hk). exists v. split; [exact Hv |]. rewrite Hk. apply String.eqb_refl.
Qed.

Lemma dedup_loop_firsts (urls before : list string) (seen : gset string) :
  (forall n, n ∈ seen <-> exists v, In v before /\ key v = Ok n) ->
  dedup_loop options urls seen [] = firsts_of_keys options before urls.
Proof.
  revert before seen. induction urls as [|u urls IH]; intros before seen Hseen; [reflexivity |].
  rewrite dedup_loop_cons. simpl. unfold first_with_its_key.
  destruct (key u) as [n|m] eqn:Hu.
  - destruct (decide (n ∈ seen)) as [Hin|Hnot].
    + assert (existsb (has_key options n) before = true) as ->
        by (apply existsb_has_key, Hseen; exact Hin).
      simpl. apply IH. intros k. rewrite Hseen. split.
      * intros (v & Hv & Hk). exists v. split; [apply in_or_app; left; exact Hv | exact Hk].
      * intros (v & Hv & Hk). apply in_app_or in Hv as [Hv | [<- | []]].
        -- exists v. split; assumption.
        -- rewrite Hu in Hk. injection Hk as <-. apply Hseen. exact Hin.
    + assert (existsb (has_key options n) before = false) as ->.
      { destruct (existsb (has_key options n) before) eqn:He; [| reflexivity].
        exfalso. apply Hnot, Hseen, existsb_has_key. exact He. }
      simpl. f_equal. apply IH. intros k. rewrite elem_of_union, elem_of_singleton, Hseen. split.
      * intros [-> | (v & Hv & Hk)].
        -- exists u. split; [apply in_or_app; right; left; reflexivity | exact Hu].
        -- exists v. split; [apply in_or_app; left; exact Hv | exact Hk].
      * intros (v & Hv & Hk). apply in_app_or in Hv as [Hv | [<- | []]].
        -- right. exists v. split; assumption.
        -- left. rewrite Hu in Hk. injection Hk as <-. reflexivity.
  - apply IH. intros k. rewrite Hseen. split.
    + intros (v & Hv & Hk). exists v. split; [apply in_or_app; left; exact Hv | exact Hk].
    + intros (v & Hv & Hk). apply in_app_or in Hv as [Hv | [<- | []]].
      * exists v. split; assumption.
      * rewrite Hu in Hk. discriminate Hk.
Qed.

End Dedup.

(** C5. [deduplicateUrls] keeps, in the order of the input and in their
    original form, exactly the first URL of every normalized key.  What it
    returns is the input with every URL left out that does not normalize or
    that has the key of a URL before it in the input, the others standing as
    they were written and in the order of the input; so it is a subsequence
    of the input, each survivor normalizes, no two survivors (at different
    positions) have the same key, every key of a survivor is the key of an
    input URL, a URL that does not normalize is not kept, a URL that is the
    first of the input with its key is kept, and a URL that comes back after
    another one is kept where it first stood.  The three spellings of
    [https://a.com/x] leave the first one. *)
Theorem deduplicateUrls_keeps_first_of_each_key `{Locale}
  (L : list string) (options : NormalizeUrlOptions) :
  let R := deduplicateUrls L options in
  R = firsts_of_keys options [] L
  /\ sublist R L
  /\ (forall u, u ∈ R -> is_ok (normalizeUrl u options) = true)
  /\ (forall i j u v, R !! i = Some u -> R !! j = Some v ->
                      normalizeUrl u options = normalizeUrl v options -> i = j)
  /\ (forall u, u ∈ R -> exists v, v ∈ L /\ normalizeUrl v options = normalizeUrl u options)
  /\ (forall u, u ∈ L -> is_ok (normalizeUrl u options) = false -> u ∉ R)
  /\ (forall i u n, L !! i = Some u -> normalizeUrl u options = Ok n ->
                    (forall j v, j < i -> L !! j = Some v -> normalizeUrl v options <> Ok n) ->
                    u ∈ R)
  /\ (forall x y z kx ky,
        normalizeUrl x options = Ok kx -> normalizeUrl y options = Ok ky ->
        normalizeUrl z options = Ok kx -> kx <> ky ->
        deduplicateUrls [x; y; z] options = [x; y])
  /\ deduplicateUrls ["https://a.com/x"; "https://a.com/y"; "https://a.com/x/"] no_options
     = ["https://a.com/x"; "https://a.com/y"]
  /\ deduplicateUrls ["https://a.com/x"; "https://a.com/x/"; "https://A.COM/x"] no_options
     = ["https://a.com/x"].
Proof.
  intros R. unfold R, deduplicateUrls.
  assert (forall u, u ∈ dedup_loop options L ∅ [] -> is_ok (normalizeUrl u options) = true) as Hok.
  { intros u Hu. destruct (dedup_loop_fresh options _ _ _ Hu) as (n & -> & _). reflexivity. }
  split.
  { apply dedup_loop_firsts. intros n. split.
    - intros Hn. apply elem_of_empty in Hn. destruct Hn.
    - intros (v & [] & _). }
  split; [apply dedup_loop_sublist |].
  split; [exact Hok |].
  split; [intros i j u v; apply dedup_loop_distinct |].
  split.
  { intros u Hu. exists u. split; [|reflexivity].
    eapply elem_of_sublist; [exact Hu | apply dedup_loop_sublist]. }
  split.
  { intros u _ Hbad Hu. rewrite (Hok u Hu) in Hbad. discriminate. }
  split.
  { intros i u n Hi Hn Hfirst. eapply dedup_loop_first; try eassumption. set_solver. }
  split.
  { intros x y z kx ky Hx Hy Hz Hxy. simpl. rewrite Hx.
    destruct (decide (kx ∈ (∅ : gset string))) as [Hin|_]; [apply elem_of_empty in Hin; destruct Hin |].
    rewrite Hy.
    destruct (decide (ky ∈ ({[kx]} ∪ ∅ : gset string))) as [Hin|_].
    { exfalso. apply elem_of_union in Hin as [Hin|Hin]; [| apply elem_of_empty in Hin; exact Hin].
      apply elem_of_singleton in Hin. congruence. }
    rewrite Hz.
    destruct (decide (kx ∈ ({[ky]} ∪ ({[kx]} ∪ ∅) : gset string))) as [_|Hnot]; [reflexivity |].
    exfalso. apply Hnot. apply elem_of_union. right. apply elem_of_union. left.
    apply elem_of_singleton. reflexivity. }
  split; vm_compute; reflexivity.
Qed.

End UrlFacts.

(** ** Pattern filtering *)

Module FilterFacts.
Import JS WHATWG RegExpModel Types UrlUtils Examples.

Lemma search_ext (R R' : RegExp) (S : string) (i fuel : nat) :
  re_matcher R = re_matcher R' -> re_sticky R = re_sticky R' ->
  search R S i fuel = search R' S i fuel.
Proof.
  intros Hm Hs. revert i. induction fuel as [|fuel IH]; intros i; simpl;
    rewrite Hm, Hs; destruct (re_matcher R' S i); try reflexivity;
    destruct (re_sticky R'); try reflexivity.
  apply IH.
Qed.

Lemma test_stateless (R : RegExp) (S : string) (σ : Store) :
  stateless R = true -> RegExp_test R S σ = (matches R S, σ).
Proof.
  unfold stateless. intros Hst. apply andb_true_iff in Hst as [Hg Hs].
  apply negb_true_iff in Hg, Hs.
  unfold RegExp_test, matches. rewrite Hg, Hs. simpl. rewrite Nat.sub_0_r.
  rewrite (search_ext R (mkRegExp (re_id R) (re_matcher R) false false));
    [| reflexivity | exact Hs].
  destruct (search _ S 0 (String.length S)); reflexivity.
Qed.

Lemma some_test_stateless (patterns : list RegExp) (url : string) (σ : Store) :
  forallb stateless patterns = true ->
  some_test patterns url σ = (existsb (fun p => matches p url) patterns, σ).
Proof.
  induction patterns as [|p ps IH]; intros Hall; simpl; [reflexivity |].
  simpl in Hall. apply andb_true_iff in Hall as [Hp Hps].
  rewrite (test_stateless _ _ _ Hp). destruct (matches p url); simpl; [reflexivity |].
  apply IH. exact Hps.
Qed.

Lemma keep_url_stateless (inc exc : option (list RegExp)) (url : string) (σ : Store) :
  all_stateless inc = true -> all_stateless exc = true ->
  keep_url inc exc url σ = (spec_keeps inc exc url, σ).
Proof.
  unfold all_stateless, keep_url, spec_keeps. intros Hinc Hexc.
  destruct exc as [ps|]; simpl in *.
  - rewrite (some_test_stateless _ _ _ Hexc).
    destruct (existsb _ ps); simpl; [reflexivity |].
    destruct inc as [[|q qs]|]; try reflexivity.
    apply (some_test_stateless (q :: qs)). exact Hinc.
  - destruct inc as [[|q qs]|]; try reflexivity.
    apply (some_test_stateless (q :: qs)). exact Hinc.
Qed.

Lemma filter_st_pure {A} (f : A -> Store -> bool * Store) (g : A -> bool) (l : list A) (σ : Store) :
  (forall x τ, f x τ = (g x, τ)) -> filter_st f l σ = (List.filter g l, σ).
Proof.
  intros Hf. induction l as [|x l IH]; simpl; [reflexivity |].
  rewrite Hf, IH. reflexivity.
Qed.

Lemma filter_all_excluded (inc : option (list RegExp)) (ps : list RegExp) (p : RegExp)
  (urls : list string) :
  In p ps -> (forall u, In u urls -> matches p u = true) ->
  List.filter (spec_keeps inc (Some ps)) urls = [].
Proof.
  intros Hp Hall. induction urls as [|u urls IH]; simpl; [reflexivity |].
  assert (spec_keeps inc (Some ps) u = false) as ->.
  { unfold spec_keeps. simpl.
    assert (existsb (fun q => matches q u) ps = true) as ->; [|reflexivity].
    apply existsb_exists. exists p. split; [exact Hp |]. apply Hall. left. reflexivity. }
  apply IH. intros v Hv. apply Hall. right. exact Hv.
Qed.

Lemma some_test_hit (patterns : list RegExp) (p : RegExp) (url : string) (σ : Store) :
  In p patterns -> stateless p = true -> matches p url = true ->
  fst (some_test patterns url σ) = true.
Proof.
  intros Hp Hst Hm. revert σ. induction patterns as [|q qs IH]; intros σ; [destruct Hp |].
  simpl. destruct (RegExp_test q url σ) as [hit σ'] eqn:Htest.
  destruct hit; [reflexivity |].
  destruct Hp as [-> | Hp]; [| apply IH; exact Hp].
  rewrite (test_stateless _ _ _ Hst), Hm in Htest. discriminate Htest.
Qed.

Lemma filter_st_none {A} (f : A -> Store -> bool * Store) (l : list A) (σ : Store) :
  (forall x τ, In x l -> fst (f x τ) = false) -> fst (filter_st f l σ) = [].
Proof.
  revert σ. induction l as [|x l IH]; intros σ Hf; simpl; [reflexivity |].
  pose proof (Hf x σ (or_introl eq_refl)) as Hx.
  destruct (f x σ) as [keep σ1]. simpl in Hx. subst keep.
  specialize (IH σ1 (fun y τ Hy => Hf y τ (or_intror Hy))).
  destruct (filter_st f l σ1) as [kept σ2]. exact IH.
Qed.

(** C6.  For patterns without the global and the sticky flag,
    [filterUrlsByPattern] is the filter of the specification: exclude patterns
    first, then the include patterns if there are any, the order kept and
    every [lastIndex] left as it was.  An exclude pattern without these
    flags that occurs in every URL of the list empties the result, whatever
    the include patterns and the flags of the other patterns are.  With the
    global flag the code departs from its own "check exclude patterns
    first": the exclude pattern [/\/blog\//g] occurs in both URLs of the
    list, yet the second one is kept, because the first test leaves
    [lastIndex] at 19 and the second starts there; and a second call with
    the same arguments need not return what the first returned. *)
Theorem filterUrlsByPattern_excludes_first (urls : list string)
  (includePatterns excludePatterns : option (list RegExp)) (σ : Store) :
  (all_stateless includePatterns = true -> all_stateless excludePatterns = true ->
   filterUrlsByPattern urls includePatterns excludePatterns σ
   = (List.filter (spec_keeps includePatterns excludePatterns) urls, σ))
  /\ (forall p ps, excludePatterns = Some ps -> In p ps -> stateless p = true ->
                   (forall u, In u urls -> matches p u = true) ->
                   fst (filterUrlsByPattern urls includePatterns excludePatterns σ) = [])
  /\ (matches blog_global "https://a.com/blog/1" = true
      /\ matches blog_global "https://a.com/blog/2" = true
      /\ List.filter (spec_keeps None (Some [blog_global])) blog_urls = []
      /\ fst (filterUrlsByPattern blog_urls None (Some [blog_global]) fresh)
         = ["https://a.com/blog/2"])
  /\ (let first := filterUrlsByPattern ["https://a.com/blog/1"] None (Some [blog_global]) fresh in
      fst first = [] /\ snd first 1 = 19
      /\ fst (filterUrlsByPattern ["https://a.com/blog/1"] None (Some [blog_global]) (snd first))
         = ["https://a.com/blog/1"]).
Proof.
  split; [| split; [| split]].
  - intros Hinc Hexc. unfold filterUrlsByPattern. apply filter_st_pure.
    intros x τ. apply keep_url_stateless; assumption.
  - intros p ps -> Hp Hst Hall. unfold filterUrlsByPattern. apply filter_st_none.
    intros u τ Hu. unfold keep_url.
    pose proof (some_test_hit ps p u τ Hp Hst (Hall u Hu)) as Hhit.
    destruct (some_test ps u τ) as [excluded σ1]. simpl in Hhit. subst excluded. reflexivity.
  - vm_compute. repeat split; reflexivity.
  - vm_compute. repeat split; reflexivity.
Qed.

Lemma filterUrlsByPattern_excludes_first_witness :
  filterUrlsByPattern blog_urls None (Some [blog_plain]) fresh = ([], fresh)
  /\ fst (filterUrlsByPattern blog_urls (Some [blog_global]) (Some [blog_global; blog_plain]) fresh)
     = [].
Proof.
  split.
  - exact (proj1 (filterUrlsByPattern_excludes_first blog_urls None (Some [blog_plain]) fresh)
             eq_refl eq_refl).
  - refine (proj1 (proj2 (filterUrlsByPattern_excludes_first blog_urls (Some [blog_global])
                            (Some [blog_global; blog_plain]) fresh))
              blog_plain _ eq_refl _ eq_refl _).
    + right. left. reflexivity.
    + intros u [<- | [<- | []]]; vm_compute; reflexivity.
Defined.

End FilterFacts.

(** ** The crawl *)

Module CrawlFacts.
Import JS WHATWG RegExpModel Types UrlUtils ContentUtils WebExtractor Examples.

Lemma existsb_eqb_elem_of (s : string) (l : list string) :
  existsb (String.eqb s) l = true <-> s ∈ l.
Proof.
  rewrite existsb_exists, list_elem_of_In. split.
  - intros (x & Hx & Heq). apply String.eqb_eq in Heq. subst x. exact Hx.
  - intros Hin. exists s. split; [exact Hin | apply String.eqb_refl].
Qed.

Lemma normalizeUrl_ok_parses `{Locale} (u : string) (o : NormalizeUrlOptions) (n : string) :
  normalizeUrl u o = Ok n -> exists r, URL_parse u = Some r.
Proof.
  unfold normalizeUrl, validateUrl, bind. destruct (URL_parse u) as [r|]; [eauto | discriminate].
Qed.

Section PerRecord.
Context `{Locale}.
Variables (url : string) (options : ExtractWebsiteOptions) (urls : list string).

Lemma process_page_failed (page : RawPage) (m : string) :
  normalizeUrl (pageUrl_of url page) no_options = Throw m ->
  process_page url options urls page
  = Failed {| failed_url := or_else (raw_url page) "unknown"; failed_error := m |}.
Proof. intros Hbad. unfold process_page. rewrite Hbad. reflexivity. Qed.

Lemma process_page_skipped (page : RawPage) (n : string) :
  normalizeUrl (pageUrl_of url page) no_options = Ok n ->
  pageUrl_of url page ∉ urls ->
  process_page url options urls page = Skipped.
Proof.
  intros Hok Hout. unfold process_page. rewrite Hok.
  destruct (existsb _ urls) eqn:Hin; [|reflexivity].
  apply existsb_eqb_elem_of in Hin. contradiction.
Qed.

Lemma process_page_extracted (page : RawPage) (n : string) :
  normalizeUrl (pageUrl_of url page) no_options = Ok n ->
  pageUrl_of url page ∈ urls ->
  exists p, process_page url options urls page = Extracted p
            /\ Types.url p = n
            /\ content p = cleanContent (extractContent page (default "markdown" (format options)))
            /\ metadata p = buildMetadata page n.
Proof.
  intros Hok Hin. unfold process_page. rewrite Hok.
  apply existsb_eqb_elem_of in Hin. rewrite Hin. simpl.
  destruct (normalizeUrl_ok_parses _ _ _ Hok) as [r ->].
  destruct (truthy_opt (meta raw_title page)); destruct (truthy_opt (titlePrefix options));
    eexists; (split; [reflexivity |]); simpl; auto.
Qed.

End PerRecord.

(** *** Counting the outcomes *)

Lemma outcomes_lengths (os : list Outcome) :
  length (pages_of os) + length (failed_of os) + length (List.filter is_skipped os) = length os.
Proof.
  induction os as [|o os IH]; simpl; [reflexivity |].
  unfold pages_of, failed_of in *. destruct o; simpl; lia.
Qed.

Lemma failed_of_single (os : list Outcome) (i : nat) :
  (forall j o, os !! j = Some o -> (exists f, o = Failed f) <-> j = i) ->
  i < length os -> length (failed_of os) = 1.
Proof.
  revert i. induction os as [|o os IH]; intros i Hchar Hlen; simpl in Hlen; [lia |].
  destruct i as [|i].
  - destruct (proj2 (Hchar 0 o eq_refl) eq_refl) as [f ->].
    unfold failed_of. simpl. f_equal.
    assert (forall j o', os !! j = Some o' -> ~ exists f', o' = Failed f') as Hnone.
    { intros j o' Hj Hf. apply (Hchar (S j) o' Hj) in Hf. discriminate. }
    clear -Hnone. induction os as [|o' os IH]; [reflexivity |]. simpl.
    destruct o' as [p|f'|].
    + apply IH. intros j o'' Hj. apply (Hnone (S j)). exact Hj.
    + exfalso. apply (Hnone 0 (Failed f') eq_refl). eauto.
    + apply IH. intros j o'' Hj. apply (Hnone (S j)). exact Hj.
  - assert (~ exists f, o = Failed f) as Ho.
    { intros Hf. apply (Hchar 0 o eq_refl) in Hf. discriminate. }
    assert (length (failed_of os) = 1) as Hrest.
    { apply (IH i); [|lia]. intros j o' Hj. rewrite (Hchar (S j) o' Hj). lia. }
    unfold failed_of in *. destruct o as [p|f|]; simpl; try exact Hrest.
    exfalso. apply Ho. eauto.
Qed.

(** C9. The word count of the metadata, and the text handed to
    [detectLanguage] when the collaborator names no language, come from the
    markdown payload (else the generic content field, else the empty string)
    whatever output format the caller asked for, in the crawl and in the
    extraction of one page alike.  The content of the Page Record is the
    cleaned payload of the requested format: the HTML payload for [html],
    the text payload for [text] (each else the generic content field, else
    the empty string), the markdown payload for every other format.  So with
    the format [html] or [text] the word count of the metadata need not be
    the word count of the content: for a record with the three payloads it
    is 4, against 1 for the HTML content and 2 for the text content. *)
Theorem wordCount_comes_from_markdown `{Locale} (page : RawPage) :
  let markdown := or_else (or_opt (raw_markdown page) (raw_content page)) "" in
  let html := or_else (or_opt (raw_html page) (raw_content page)) "" in
  let text := or_else (or_opt (raw_text page) (raw_content page)) "" in
  let payload format :=
    if String.eqb format "html" then html
    else if String.eqb format "text" then text
    else markdown in
  (forall normalizedUrl,
      wordCount (buildMetadata page normalizedUrl) = countWords markdown
      /\ language (buildMetadata page normalizedUrl)
         = match truthy_opt (meta raw_language page) with
           | Some l => Some l
           | None => detectLanguage markdown
           end)
  /\ (forall url options urls p,
        process_page url options urls page = Extracted p ->
        wordCount (metadata p) = countWords markdown
        /\ language (metadata p)
           = match truthy_opt (meta raw_language page) with
             | Some l => Some l
             | None => detectLanguage markdown
             end
        /\ content p = cleanContent (payload (default "markdown" (format options))))
  /\ (forall scrapeUrl url options p,
        (forall u o, scrapeUrl u o = Ok page) ->
        extractPage scrapeUrl url options = Ok p ->
        wordCount (metadata p) = countWords markdown
        /\ language (metadata p)
           = match truthy_opt (meta raw_language page) with
             | Some l => Some l
             | None => detectLanguage markdown
             end
        /\ content p = cleanContent (payload (default "markdown" (page_format options))))
  /\ (exists p, process_page seed html_options ["https://a.com/p"] both_payloads = Extracted p
                /\ content p = "<p>one</p>"
                /\ wordCount (metadata p) = 3
                /\ countWords (content p) = 1)
  /\ (exists p, process_page seed html_options ["https://a.com/p"] three_payloads = Extracted p
                /\ content p = "<p>one</p>"
                /\ wordCount (metadata p) = 4
                /\ countWords (content p) = 1)
  /\ (exists p, process_page seed text_options ["https://a.com/p"] three_payloads = Extracted p
                /\ content p = "one two"
                /\ wordCount (metadata p) = 4
                /\ countWords (content p) = 2).
Proof.
  intros markdown html text payload.
  assert (forall format, extractContent page format = payload format) as Hpayload.
  { intros format. unfold extractContent, payload.
    destruct (String.eqb format "markdown") eqn:Hm; [| reflexivity].
    apply String.eqb_eq in Hm. subst format. reflexivity. }
  split; [| split; [| split; [| split; [| split]]]].
  - intros normalizedUrl. split; reflexivity.
  - intros url options urls p. unfold process_page.
    destruct (normalizeUrl _ no_options) as [n|m]; [|discriminate].
    destruct (negb _); [discriminate |].
    destruct (truthy_opt (meta raw_title page)).
    + intros Hp. injection Hp as <-. split; [reflexivity |]. split; [reflexivity |].
      simpl. rewrite Hpayload. reflexivity.
    + destruct (URL_parse _); [|discriminate].
      intros Hp. injection Hp as <-. split; [reflexivity |]. split; [reflexivity |].
      simpl. rewrite Hpayload. reflexivity.
  - intros scrapeUrl url options p Hscrape. unfold extractPage, bind.
    destruct (validateUrl url); [|discriminate].
    destruct (normalizeUrl url no_options) as [n|m]; [|discriminate].
    rewrite Hscrape.
    destruct (truthy_opt (meta raw_title page)).
    + intros Hp. injection Hp as <-. split; [reflexivity |]. split; [reflexivity |].
      simpl. rewrite Hpayload. reflexivity.
    + destruct (URL_parse url); [|discriminate].
      intros Hp. injection Hp as <-. split; [reflexivity |]. split; [reflexivity |].
      simpl. rewrite Hpayload. reflexivity.
  - eexists. split; [vm_compute; reflexivity |]. vm_compute. repeat split; reflexivity.
  - eexists. split; [vm_compute; reflexivity |]. vm_compute. repeat split; reflexivity.
  - eexists. split; [vm_compute; reflexivity |]. vm_compute. repeat split; reflexivity.
Qed.

Lemma filter_none {A} (f : A -> bool) (l : list A) :
  (forall x, x ∈ l -> f x = false) -> List.filter f l = [].
Proof.
  induction l as [|x l IH]; intros Hall; simpl; [reflexivity |].
  rewrite (Hall x) by left. apply IH. intros y Hy. apply Hall. right. exact Hy.
Qed.

(** *** Which records survive *)

Lemma source_survives_deduplication `{Locale} (url : string) (data : list RawPage)
  (j : nat) (p : RawPage) (n : string) :
  (forall q, q ∈ data -> url_entry url q = pageUrl_of url q) ->
  data !! j = Some p ->
  normalizeUrl (pageUrl_of url p) no_options = Ok n ->
  (forall k q, k <> j -> data !! k = Some q ->
               normalizeUrl (pageUrl_of url q) no_options <> Ok n) ->
  pageUrl_of url p ∈ deduplicateUrls (map (url_entry url) data) no_options.
Proof.
  intros Hentry Hj Hn Hdistinct. unfold deduplicateUrls.
  apply (UrlFacts.dedup_loop_first no_options _ ∅ j _ n).
  - rewrite list_lookup_fmap, Hj. simpl. f_equal. apply Hentry.
    eapply list_elem_of_lookup_2. exact Hj.
  - exact Hn.
  - set_solver.
  - intros k v Hk Hv. rewrite list_lookup_fmap in Hv.
    destruct (data !! k) as [q|] eqn:Hq; [|discriminate]. simpl in Hv. injection Hv as <-.
    rewrite Hentry by (eapply list_elem_of_lookup_2; exact Hq).
    apply (Hdistinct k q); [lia | exact Hq].
Qed.

Lemma process_page_not_failed `{Locale} (url : string) (options : ExtractWebsiteOptions)
  (urls : list string) (page : RawPage) (n : string) (f : FailedExtraction) :
  normalizeUrl (pageUrl_of url page) no_options = Ok n ->
  process_page url options urls page <> Failed f.
Proof.
  intros Hn. destruct (existsb (String.eqb (pageUrl_of url page)) urls) eqn:Hin.
  - apply existsb_eqb_elem_of in Hin.
    destruct (process_page_extracted url options urls page n Hn Hin) as (e & -> & _).
    discriminate.
  - rewrite (process_page_skipped url options urls page n Hn); [discriminate |].
    intros Hin'. apply existsb_eqb_elem_of in Hin'. congruence.
Qed.

Lemma filter_nil_length {A} (f : A -> bool) (l : list A) :
  length (List.filter f l) = 0 -> forall x, x ∈ l -> f x = false.
Proof.
  induction l as [|y l IH]; intros Hlen x Hx; [inversion Hx |].
  simpl in Hlen. destruct (f y) eqn:Hy; [discriminate Hlen |].
  apply elem_of_cons in Hx as [-> | Hx]; [exact Hy | apply IH; assumption].
Qed.

(** C3, as the code has it.  Five records come back and exactly one source
    URL fails to normalize: the failing record becomes the one Failure
    Record, [totalPages] is the number of Page Records plus one, and the
    Page Records and the skipped records together are four.  The four
    others become four Page Records, and [totalPages] is 5, exactly when
    none of them is skipped, that is when the source URL of each, as it is
    written, is in the deduplicated and filtered URL list; this is so in
    particular when each record is listed under its source URL, no pattern
    list is given and the four normalize to four different URLs. *)
Theorem crawl_with_one_unparseable_source `{Locale} (firecrawl : Firecrawl) (σ : Store)
  (url : string) (options : ExtractWebsiteOptions) (data : list RawPage) (bad : nat) :
  is_ok (normalizeUrl url no_options) = true ->
  firecrawl url (crawlOptions options) = Ok {| data := Some data |} ->
  length data = 5 ->
  bad < 5 ->
  (forall j p, data !! j = Some p ->
               is_ok (normalizeUrl (pageUrl_of url p) no_options) = false <-> j = bad) ->
  let urls := crawl_urls url options data σ in
  exists r, extractWebsite firecrawl σ url options = Ok r
            /\ length (failed r) = 1
            /\ totalPages r = length (pages r) + 1
            /\ length (pages r)
               + length (List.filter is_skipped (map (process_page url options urls) data)) = 4
            /\ ((forall p, p ∈ data ->
                           is_ok (normalizeUrl (pageUrl_of url p) no_options) = true ->
                           pageUrl_of url p ∈ urls)
                <-> length (pages r) = 4 /\ totalPages r = 5)
            /\ (includePatterns options = None -> excludePatterns options = None ->
                (forall q, q ∈ data -> url_entry url q = pageUrl_of url q) ->
                (forall j k p q n, j <> k -> data !! j = Some p -> data !! k = Some q ->
                                   normalizeUrl (pageUrl_of url p) no_options = Ok n ->
                                   normalizeUrl (pageUrl_of url q) no_options <> Ok n) ->
                length (pages r) = 4 /\ totalPages r = 5).
Proof.
  intros Hseed Hcall Hlen Hbad Hone urls.
  unfold extractWebsite, bind.
  destruct (normalizeUrl url no_options) as [nu|] eqn:Hnu; [|discriminate].
  assert (exists u, validateUrl url = Ok u) as [u Hu].
  { unfold normalizeUrl, bind in Hnu. destruct (validateUrl url); [eauto | discriminate]. }
  rewrite Hu, Hcall. simpl. fold urls.
  set (os := map (process_page url options urls) data).
  assert (forall j o, os !! j = Some o -> (exists f, o = Failed f) <-> j = bad) as Hchar.
  { intros j o Hj. unfold os in Hj. rewrite list_lookup_fmap in Hj.
    destruct (data !! j) as [p|] eqn:Hp; [|discriminate]. simpl in Hj. injection Hj as <-.
    specialize (Hone j p Hp).
    destruct (normalizeUrl (pageUrl_of url p) no_options) as [n|m] eqn:Hn.
    - split.
      + intros [f Hf]. exfalso. exact (process_page_not_failed url options urls p n f Hn Hf).
      + intros ->. simpl in Hone. destruct Hone as [_ Hone]. discriminate (Hone eq_refl).
    - rewrite (process_page_failed url options urls p m Hn).
      split; [intros _; apply Hone; reflexivity | eauto]. }
  assert (length os = 5) as Hos by (unfold os; rewrite length_map; exact Hlen).
  assert (length (failed_of os) = 1) as Hfailed.
  { apply (failed_of_single os bad Hchar). lia. }
  pose proof (outcomes_lengths os) as Hsum.
  assert ((forall p, p ∈ data ->
                     is_ok (normalizeUrl (pageUrl_of url p) no_options) = true ->
                     pageUrl_of url p ∈ urls)
          <-> length (List.filter is_skipped os) = 0) as Hskip.
  { split.
    - intros Hall. rewrite filter_none; [reflexivity |]. intros o Ho.
      change os with (process_page url options urls <$> data) in Ho.
      apply list_elem_of_fmap in Ho as (p & -> & Hp).
      destruct (normalizeUrl (pageUrl_of url p) no_options) as [n|m] eqn:Hn.
      + assert (pageUrl_of url p ∈ urls) as Hin by (apply Hall; [exact Hp | rewrite Hn; reflexivity]).
        destruct (process_page_extracted url options urls p n Hn Hin) as (e & -> & _).
        reflexivity.
      + rewrite (process_page_failed url options urls p m Hn). reflexivity.
    - intros Hnone p Hp Hok.
      destruct (normalizeUrl (pageUrl_of url p) no_options) as [n|] eqn:Hn; [| discriminate].
      destruct (existsb (String.eqb (pageUrl_of url p)) urls) eqn:Hin;
        [apply existsb_eqb_elem_of; exact Hin |].
      exfalso.
      assert (process_page url options urls p = Skipped) as Hsk.
      { apply (process_page_skipped url options urls p n Hn).
        intros Hin'. apply existsb_eqb_elem_of in Hin'. congruence. }
      assert (is_skipped (process_page url options urls p) = false) as Hno.
      { apply (filter_nil_length is_skipped os Hnone).
        change os with (process_page url options urls <$> data).
        apply list_elem_of_fmap. exists p. split; [reflexivity | exact Hp]. }
      rewrite Hsk in Hno. discriminate Hno. }
  eexists. split; [reflexivity |]. simpl.
  split; [exact Hfailed |]. split; [lia |]. split; [lia |]. split.
  - rewrite Hskip. lia.
  - intros Hinc Hexc Hentry Hdistinct.
    assert (urls = deduplicateUrls (map (url_entry url) data) no_options) as Hurls.
    { unfold urls, crawl_urls. rewrite Hinc, Hexc. reflexivity. }
    assert (length (List.filter is_skipped os) = 0) as Hzero; [| lia].
    apply Hskip. intros p Hp Hok.
    destruct (normalizeUrl (pageUrl_of url p) no_options) as [n|] eqn:Hn; [| discriminate].
    apply list_elem_of_lookup in Hp as [j Hj].
    rewrite Hurls. eapply source_survives_deduplication; try eassumption.
    intros k q Hk Hq. apply (Hdistinct j k p q n); auto.
Qed.

Lemma crawl_with_one_unparseable_source_witness :
  (exists r, extractWebsite (answer five_records) fresh seed no_website_options = Ok r
             /\ length (pages r) = 4 /\ length (failed r) = 1 /\ totalPages r = 5)
  /\ (exists r, extractWebsite (answer five_records_one_repeated) fresh seed no_website_options
                = Ok r
                /\ length (pages r) = 4 /\ length (failed r) = 1 /\ totalPages r = 5).
Proof.
  split.
  - destruct (crawl_with_one_unparseable_source (answer five_records) fresh seed
                no_website_options five_records 2) as (r & Hr & Hfailed & _ & _ & Hiff & _);
      try reflexivity; try lia.
    + intros j p Hj.
      do 5 (destruct j as [|j]; [injection Hj as <-; vm_compute; split; [discriminate || reflexivity | discriminate || reflexivity] |]).
      discriminate.
    + exists r. split; [exact Hr |].
      assert (length (pages r) = 4 /\ totalPages r = 5) as [Hp Ht]; [| auto].
      apply Hiff. intros p Hp Hok.
      repeat (apply elem_of_cons in Hp as [->|Hp];
              [first [vm_compute in Hok; discriminate Hok | vm_compute; repeat constructor] |]).
      inversion Hp.
  - destruct (crawl_with_one_unparseable_source (answer five_records_one_repeated) fresh seed
                no_website_options five_records_one_repeated 2)
      as (r & Hr & Hfailed & _ & _ & Hiff & _); try reflexivity; try lia.
    + intros j p Hj.
      do 5 (destruct j as [|j]; [injection Hj as <-; vm_compute; split; [discriminate || reflexivity | discriminate || reflexivity] |]).
      discriminate.
    + exists r. split; [exact Hr |].
      assert (length (pages r) = 4 /\ totalPages r = 5) as [Hp Ht]; [| auto].
      apply Hiff. intros p Hp Hok.
      repeat (apply elem_of_cons in Hp as [->|Hp];
              [first [vm_compute in Hok; discriminate Hok | vm_compute; repeat constructor] |]).
      inversion Hp.
Defined.

(** Five records, one unparseable source URL, and two spellings of one page
    among the four others: three Page Records, one Failure Record, and
    [totalPages] is 4. *)
Lemma crawl_with_two_spellings_loses_a_record :
  length five_records_two_spellings = 5
  /\ map (fun p => is_ok (normalizeUrl (pageUrl_of seed p) no_options)) five_records_two_spellings
     = [true; true; false; true; true]
  /\ exists r, extractWebsite (answer five_records_two_spellings) fresh seed no_website_options = Ok r
               /\ length (pages r) = 3 /\ length (failed r) = 1 /\ totalPages r = 4.
Proof.
  split; [reflexivity |]. split; [vm_compute; reflexivity |].
  eexists. split; [vm_compute; reflexivity |]. repeat split; reflexivity.
Qed.

Lemma two_spellings_give_one_page `{Locale} :
  exists r, extractWebsite (answer two_spellings) fresh seed no_website_options = Ok r
            /\ totalPages r = 1 /\ failed r = [] /\ length two_spellings = 2.
Proof. eexists. split; [vm_compute; reflexivity |]. repeat split; reflexivity. Qed.

Lemma excluded_record_gives_no_page `{Locale} :
  exists r, extractWebsite (answer blog_and_about) fresh seed without_blog = Ok r
            /\ map Types.url (pages r) = ["https://a.com/about"]
            /\ totalPages r = 1 /\ failed r = [] /\ length blog_and_about = 2.
Proof. eexists. split; [vm_compute; reflexivity |]. repeat split; reflexivity. Qed.

(** C10, as the code has it.  A record whose source URL normalizes but is,
    in its original form, not in the deduplicated and filtered URL list is
    skipped: it yields neither a Page Record nor a Failure Record.
    [totalPages] is the number of records minus the number of skipped ones,
    and for the two spellings [https://a.com/x] and [https://a.com/x/] it is
    1, below the 2 records that came back; so it is for two records of
    which the pattern filter removes one. *)
Theorem skipped_records_are_not_counted `{Locale} (firecrawl : Firecrawl) (σ : Store)
  (url : string) (options : ExtractWebsiteOptions) (data : list RawPage)
  (r : ExtractionResult) :
  firecrawl url (crawlOptions options) = Ok {| data := Some data |} ->
  extractWebsite firecrawl σ url options = Ok r ->
  let urls := crawl_urls url options data σ in
  let outcomes := map (process_page url options urls) data in
  (forall page, page ∈ data ->
                is_ok (normalizeUrl (pageUrl_of url page) no_options) = true ->
                pageUrl_of url page ∉ urls ->
                process_page url options urls page = Skipped)
  /\ pages r = pages_of outcomes
  /\ failed r = failed_of outcomes
  /\ totalPages r + length (List.filter is_skipped outcomes) = length data
  /\ (exists r2, extractWebsite (answer two_spellings) fresh seed no_website_options = Ok r2
                 /\ totalPages r2 = 1 /\ failed r2 = []
                 /\ length two_spellings = 2)
  /\ (exists r3, extractWebsite (answer blog_and_about) fresh seed without_blog = Ok r3
                 /\ map Types.url (pages r3) = ["https://a.com/about"]
                 /\ totalPages r3 = 1 /\ failed r3 = []
                 /\ length blog_and_about = 2).
Proof.
  intros Hcall Hrun urls outcomes.
  assert (r = summarize (pages_of outcomes) (failed_of outcomes)) as ->.
  { unfold extractWebsite, bind in Hrun.
    destruct (validateUrl url); [|discriminate].
    destruct (normalizeUrl url no_options); [|discriminate].
    rewrite Hcall in Hrun. injection Hrun as <-. reflexivity. }
  split.
  { intros page _ Hok Hout.
    destruct (normalizeUrl (pageUrl_of url page) no_options) as [n|] eqn:Hn; [|discriminate].
    eapply process_page_skipped; eassumption. }
  split; [reflexivity |]. split; [reflexivity |]. split.
  { rewrite StatsFacts.summarize_totalPages.
    pose proof (outcomes_lengths outcomes) as Hsum. unfold outcomes in *.
    rewrite length_map in Hsum. exact Hsum. }
  split; [exact two_spellings_give_one_page | exact excluded_record_gives_no_page].
Qed.

Lemma skipped_records_are_not_counted_witness :
  exists r, extractWebsite (answer two_spellings) fresh seed no_website_options = Ok r
            /\ totalPages r
               + length (List.filter is_skipped
                           (map (process_page seed no_website_options
                                   (crawl_urls seed no_website_options two_spellings fresh))
                                two_spellings))
               = length two_spellings.
Proof.
  assert (exists r, extractWebsite (answer two_spellings) fresh seed no_website_options = Ok r)
    as [r Hr] by (eexists; vm_compute; reflexivity).
  exists r. split; [exact Hr |].
  pose proof (skipped_records_are_not_counted (answer two_spellings) fresh seed
                no_website_options two_spellings r eq_refl Hr) as (_ & _ & _ & Hsum & _).
  exact Hsum.
Defined.

(** A record whose source URL does not parse is absent from the URL list as
    well, and it is not skipped: it yields a Failure Record, and
    [totalPages] equals the number of records. *)
Lemma unparseable_record_is_absent_and_counted :
  (pageUrl_of seed (record "not a url" "lost")
   ∉ crawl_urls seed no_website_options one_unparseable fresh)
  /\ exists r, extractWebsite (answer one_unparseable) fresh seed no_website_options = Ok r
               /\ pages r = []
               /\ failed r = [ {| failed_url := "unknown";
                                  failed_error := "Invalid URL: not a url - Invalid URL" |} ]
               /\ totalPages r = length one_unparseable.
Proof.
  split.
  - vm_compute. intros Hin. inversion Hin.
  - eexists. split; [vm_compute; reflexivity |]. repeat split; reflexivity.
Qed.

End CrawlFacts.

(** ** Normalization: parsing what the serializer wrote, and normalizing twice *)

Module NormalizeFacts.
Import JS WHATWG Types UrlUtils StringFacts Canonical Examples.

(** *** Strings *)

Lemma forallb_append (p : ascii -> bool) (a b : string) :
  str_forallb p (a +:+ b) = str_forallb p a && str_forallb p b.
Proof.
  induction a as [|c a IH]; [reflexivity |].
  rewrite append_cons. simpl. rewrite IH, andb_assoc. reflexivity.
Qed.

Lemma forallb_impl (p q : ascii -> bool) (s : string) :
  (forall c, p c = true -> q c = true) -> str_forallb p s = true -> str_forallb q s = true.
Proof.
  intros Hpq. induction s as [|c s IH]; simpl; [reflexivity |].
  intros Hs. apply andb_true_iff in Hs as [Hc Hs]. rewrite (Hpq c Hc), (IH Hs). reflexivity.
Qed.

Lemma str_map_id (f : ascii -> ascii) (p : ascii -> bool) (s : string) :
  (forall c, p c = true -> f c = c) -> str_forallb p s = true -> str_map f s = s.
Proof.
  intros Hf. induction s as [|c s IH]; simpl; [reflexivity |].
  intros Hs. apply andb_true_iff in Hs as [Hc Hs]. rewrite (Hf c Hc), (IH Hs). reflexivity.
Qed.

Lemma break_stop (p : ascii -> bool) (a b : string) (c : ascii) :
  str_forallb (fun x => negb (p x)) a = true -> p c = true ->
  break p (a +:+ String c b) = (a, String c b).
Proof.
  intros Ha Hc. induction a as [|x a IH].
  - simpl. rewrite Hc. reflexivity.
  - simpl in Ha. apply andb_true_iff in Ha as [Hx Ha]. apply negb_true_iff in Hx.
    rewrite append_cons. simpl. rewrite Hx, (IH Ha). reflexivity.
Qed.

Lemma break_all (p : ascii -> bool) (a : string) :
  str_forallb (fun x => negb (p x)) a = true -> break p a = (a, "").
Proof.
  induction a as [|x a IH]; simpl; [reflexivity |].
  intros Ha. apply andb_true_iff in Ha as [Hx Ha]. apply negb_true_iff in Hx.
  rewrite Hx, (IH Ha). reflexivity.
Qed.

(** What [break] returns: the two parts make up the input, the first part is
    free of [p], and the second part, if any, starts with a [p]. *)
Lemma break_spec (p : ascii -> bool) (s a b : string) :
  break p s = (a, b) ->
  s = a +:+ b
  /\ str_forallb (fun x => negb (p x)) a = true
  /\ match b with String c _ => p c = true | EmptyString => True end.
Proof.
  revert a b. induction s as [|x s IH]; intros a b; simpl.
  - intros Heq. injection Heq as <- <-. repeat split.
  - destruct (p x) eqn:Hx.
    + intros Heq. injection Heq as <- <-. repeat split. exact Hx.
    + destruct (break p s) as [a' b'] eqn:Hb. intros Heq. injection Heq as <- <-.
      destruct (IH a' b' eq_refl) as (-> & Ha & Hb').
      rewrite append_cons. simpl. rewrite Hx, Ha. repeat split. exact Hb'.
Qed.

Lemma split_on_cons_sep (d : ascii) (s : string) :
  split_on d (String d s) = "" :: split_on d s.
Proof. simpl. rewrite Ascii.eqb_refl. reflexivity. Qed.

(** Splitting [seg ++ rest] when [seg] is free of the separator. *)
Lemma split_on_segment (d : ascii) (seg rest : string) :
  str_forallb (fun x => negb (Ascii.eqb x d)) seg = true ->
  split_on d (seg +:+ rest) =
  match split_on d rest with
  | hd :: tl => (seg +:+ hd) :: tl
  | [] => [seg]
  end.
Proof.
  intros Hseg. induction seg as [|x seg IH].
  - rewrite append_nil_l. destruct (split_on d rest) eqn:Hs; [|reflexivity].
    exfalso. exact (split_on_nonempty d rest Hs).
  - simpl in Hseg. apply andb_true_iff in Hseg as [Hx Hseg]. apply negb_true_iff in Hx.
    rewrite append_cons. simpl. rewrite Hx, (IH Hseg).
    destruct (split_on d rest); reflexivity.
Qed.

Lemma split_on_pieces (d : ascii) (s : string) :
  Forall (fun piece => str_forallb (fun x => negb (Ascii.eqb x d)) piece = true) (split_on d s).
Proof.
  induction s as [|c s IH]; simpl; [repeat constructor |].
  destruct (Ascii.eqb c d) eqn:Hc; [constructor; [reflexivity | exact IH] |].
  destruct (split_on d s) as [|hd tl]; [repeat constructor; simpl; rewrite Hc; reflexivity |].
  inversion IH as [|? ? Hhd Htl]; subst. constructor; [|exact Htl].
  simpl. rewrite Hc, Hhd. reflexivity.
Qed.

Lemma split_on_forallb (p : ascii -> bool) (d : ascii) (s : string) :
  str_forallb p s = true -> Forall (fun piece => str_forallb p piece = true) (split_on d s).
Proof.
  induction s as [|c s IH]; simpl; [repeat constructor |].
  intros Hs. apply andb_true_iff in Hs as [Hc Hs]. specialize (IH Hs).
  destruct (Ascii.eqb c d); [constructor; [reflexivity | exact IH] |].
  destruct (split_on d s) as [|hd tl]; [repeat constructor; simpl; rewrite Hc; reflexivity |].
  inversion IH as [|? ? Hhd Htl]; subst. constructor; [|exact Htl].
  simpl. rewrite Hc, Hhd. reflexivity.
Qed.

Lemma endsWith_append_cons (a : string) (x : ascii) (b : string) (c : ascii) :
  endsWith (a +:+ String x b) c = endsWith (String x b) c.
Proof.
  induction a as [|y a IH]; [reflexivity |].
  rewrite append_cons. 
  change (endsWith (String y (a +:+ String x b)) c)
    with (match a +:+ String x b with
          | EmptyString => Ascii.eqb y c
          | String _ _ => endsWith (a +:+ String x b) c
          end).
  destruct (a +:+ String x b) eqn:Heq; [|exact IH].
  destruct a; discriminate.
Qed.

Lemma slice_append_cons (a : string) (x : ascii) (b : string) :
  slice_0_minus1 (a +:+ String x b) = a +:+ slice_0_minus1 (String x b).
Proof.
  induction a as [|y a IH]; [reflexivity |].
  rewrite !append_cons.
  change (slice_0_minus1 (String y (a +:+ String x b)))
    with (match a +:+ String x b with
          | EmptyString => EmptyString
          | String _ _ => String y (slice_0_minus1 (a +:+ String x b))
          end).
  destruct (a +:+ String x b) eqn:Heq; [destruct a; discriminate |].
  rewrite IH. reflexivity.
Qed.

(** *** Character classes *)

Ltac by_char c :=
  destruct c as [[|] [|] [|] [|] [|] [|] [|] [|]];
  vm_compute; first [reflexivity | discriminate | intros; reflexivity | intros; discriminate].

Lemma host_char_no_colon (c : ascii) : host_char c = true -> negb (is_colon c) = true.
Proof. by_char c. Qed.

Lemma host_char_no_authority_end (c : ascii) :
  host_char c = true -> negb (is_authority_end c) = true.
Proof. by_char c. Qed.

Lemma host_char_ascii_lower (c : ascii) : host_char c = true -> ascii_lower_char c = c.
Proof. by_char c. Qed.

Lemma host_char_lower (c : ascii) : host_char c = true -> lower_char c = c.
Proof. by_char c. Qed.

Lemma digit_no_authority_end (c : ascii) : is_digit c = true -> negb (is_authority_end c) = true.
Proof. by_char c. Qed.

Lemma path_char_no_hash (c : ascii) : path_char c = true -> negb (is_hash c) = true.
Proof. by_char c. Qed.

Lemma path_char_no_question (c : ascii) : path_char c = true -> negb (is_question c) = true.
Proof. by_char c. Qed.

Lemma query_char_no_hash (c : ascii) : query_char c = true -> negb (is_hash c) = true.
Proof. by_char c. Qed.

Lemma segment_char_path_char (c : ascii) : segment_char c = true -> path_char c = true.
Proof. by_char c. Qed.

Lemma segment_char_no_slash (c : ascii) :
  segment_char c = true -> negb (Ascii.eqb c "/") = true.
Proof. by_char c. Qed.

Lemma path_char_slash_or_segment (c : ascii) :
  path_char c = true -> negb (Ascii.eqb c "/") = true -> segment_char c = true.
Proof. by_char c. Qed.

(** *** Schemes *)

Lemma default_port_cases (scheme : string) (dflt : N) :
  default_port scheme = Some dflt ->
  scheme = "http" \/ scheme = "https" \/ scheme = "ws" \/ scheme = "wss" \/ scheme = "ftp".
Proof.
  unfold default_port.
  repeat match goal with
         | |- context [String.eqb scheme ?lit] =>
             destruct (String.eqb_spec scheme lit); [subst; tauto |]
         end.
  discriminate.
Qed.

Lemma scheme_facts (scheme : string) (dflt : N) :
  default_port scheme = Some dflt ->
  ascii_lower scheme = scheme
  /\ str_forallb (fun x => negb (is_colon x)) scheme = true.
Proof.
  intros Hd. destruct (default_port_cases _ _ Hd) as [-> | [-> | [-> | [-> | ->]]]];
    split; reflexivity.
Qed.

(** *** Ports *)

Lemma string_of_uint_digits (d : Decimal.uint) :
  str_forallb is_digit (NilEmpty.string_of_uint d) = true.
Proof. induction d; simpl; try reflexivity; exact IHd. Qed.

Lemma decimal_digits (p : N) : str_forallb is_digit (decimal p) = true.
Proof. apply string_of_uint_digits. Qed.

Lemma to_uint_not_nil (p : N) : N.to_uint p <> Decimal.Nil.
Proof.
  destruct p as [|q]; [discriminate |]. simpl. apply DecimalPos.Unsigned.to_uint_nonnil.
Qed.

Lemma parse_port_decimal (dflt p : N) :
  (p <=? 65535)%N = true -> (p =? dflt)%N = false ->
  parse_port dflt (String ":" (decimal p)) = Some (Some p).
Proof.
  intros Hle Hne. unfold parse_port, decimal. rewrite NilEmpty.usu.
  pose proof (to_uint_not_nil p) as Hnil.
  destruct (N.to_uint p) eqn:Hp; [congruence | ..];
    rewrite <- Hp, DecimalN.Unsigned.of_to;
    apply N.leb_le in Hle; destruct (N.ltb_spec 65535 p); try lia; rewrite Hne; reflexivity.
Qed.

Lemma parse_port_ok (dflt : N) (portpart : string) (port : option N) :
  parse_port dflt portpart = Some port -> port_ok dflt port = true.
Proof.
  unfold parse_port, port_ok. destruct portpart as [|c digits].
  - intros Heq. injection Heq as <-. reflexivity.
  - destruct (NilEmpty.uint_of_string digits) as [d|]; [|discriminate].
    destruct d; try (intros Heq; injection Heq as <-; reflexivity);
      match goal with
      | |- context [(65535 <? ?n)%N] =>
          destruct (N.ltb_spec 65535 n) as [|Hle]; [discriminate |];
          destruct (N.eqb_spec n dflt) as [|Hne];
          intros Heq; injection Heq as <-; [reflexivity |];
          apply andb_true_iff; split;
          [apply N.leb_le; exact Hle | apply negb_true_iff, N.eqb_neq; exact Hne]
      end.
Qed.

(** *** The authority *)

Lemma host_ok_chars (h : string) : host_ok h = true -> str_forallb host_char h = true.
Proof.
  unfold host_ok. intros Hh. apply andb_true_iff in Hh as [Hh _].
  apply andb_true_iff in Hh as [Hh _]. exact Hh.
Qed.

Lemma parse_host_fixed (h : string) : host_ok h = true -> parse_host h = Some h.
Proof.
  intros Hh. unfold parse_host, ascii_lower.
  rewrite (str_map_id _ host_char h host_char_ascii_lower (host_ok_chars h Hh)), Hh.
  reflexivity.
Qed.

Lemma parse_host_ok (input h : string) : parse_host input = Some h -> host_ok h = true.
Proof.
  unfold parse_host. destruct (host_ok (ascii_lower input)) eqn:Hh; [|discriminate].
  intros Heq. injection Heq as <-. exact Hh.
Qed.

Lemma toLowerCase_host (h : string) : host_ok h = true -> toLowerCase h = h.
Proof.
  intros Hh. apply (str_map_id _ host_char h host_char_lower (host_ok_chars h Hh)).
Qed.

Lemma parse_authority_string (dflt : N) (host : string) (port : option N) :
  host_ok host = true -> port_ok dflt port = true ->
  parse_authority dflt (authority_string host port) = Some (host, port).
Proof.
  intros Hh Hp. unfold parse_authority, authority_string.
  assert (str_forallb (fun x => negb (is_colon x)) host = true) as Hnc.
  { eapply forallb_impl; [apply host_char_no_colon | apply host_ok_chars; exact Hh]. }
  destruct port as [p|].
  - rewrite (break_stop is_colon host (decimal p) ":" Hnc eq_refl).
    rewrite (parse_host_fixed host Hh).
    unfold port_ok in Hp. apply andb_true_iff in Hp as [Hle Hne]. apply negb_true_iff in Hne.
    rewrite (parse_port_decimal dflt p Hle Hne). reflexivity.
  - rewrite append_nil_r, (break_all is_colon host Hnc), (parse_host_fixed host Hh).
    reflexivity.
Qed.

Lemma authority_string_chars (host : string) (port : option N) :
  host_ok host = true ->
  str_forallb (fun x => negb (is_authority_end x)) (authority_string host port) = true.
Proof.
  intros Hh. unfold authority_string. rewrite forallb_append.
  apply andb_true_iff. split.
  - eapply forallb_impl; [apply host_char_no_authority_end | apply host_ok_chars; exact Hh].
  - destruct port as [p|]; [|reflexivity]. simpl.
    eapply forallb_impl; [apply digit_no_authority_end | apply decimal_digits].
Qed.

Lemma parse_authority_ok (dflt : N) (authority host : string) (port : option N) :
  parse_authority dflt authority = Some (host, port) ->
  host_ok host = true /\ port_ok dflt port = true.
Proof.
  unfold parse_authority. destruct (break is_colon authority) as [hostpart portpart].
  destruct (parse_host hostpart) as [h|] eqn:Hh; [|discriminate].
  destruct (parse_port dflt portpart) as [p|] eqn:Hp; [|discriminate].
  intros Heq. injection Heq as <- <-.
  split; [eapply parse_host_ok; exact Hh | eapply parse_port_ok; exact Hp].
Qed.

(** *** Paths *)

Lemma segment_ok_chars (seg : string) :
  segment_ok seg = true -> str_forallb segment_char seg = true.
Proof.
  unfold segment_ok. intros H. apply andb_true_iff in H as [H _].
  apply andb_true_iff in H as [H _]. exact H.
Qed.

Lemma segment_ok_not_dots (seg : string) :
  segment_ok seg = true -> is_double_dot seg = false /\ is_single_dot seg = false.
Proof.
  unfold segment_ok. intros H. apply andb_true_iff in H as [H Hdd].
  apply andb_true_iff in H as [_ Hd]. apply negb_true_iff in Hd, Hdd. split; assumption.
Qed.

Lemma path_string_chars (p : list string) :
  forallb segment_ok p = true -> str_forallb path_char (path_string p) = true.
Proof.
  induction p as [|seg p IH]; simpl; [reflexivity |].
  intros H. apply andb_true_iff in H as [Hseg Hp].
  rewrite forallb_append, (IH Hp), andb_true_r.
  eapply forallb_impl; [apply segment_char_path_char | apply segment_ok_chars; exact Hseg].
Qed.

Lemma split_path_string (seg : string) (rest : list string) :
  forallb segment_ok (seg :: rest) = true ->
  split_on "/" (seg +:+ path_string rest) = seg :: rest.
Proof.
  revert seg. induction rest as [|seg' rest IH]; intros seg H; simpl in H;
    apply andb_true_iff in H as [Hseg Hrest].
  - simpl. rewrite append_nil_r.
    rewrite <- (append_nil_r seg) at 1. rewrite split_on_segment.
    + simpl. rewrite append_nil_r. reflexivity.
    + eapply forallb_impl; [apply segment_char_no_slash | apply segment_ok_chars; exact Hseg].
  - rewrite split_on_segment.
    + simpl path_string. rewrite split_on_cons_sep, (IH seg' Hrest), append_nil_r. reflexivity.
    + eapply forallb_impl; [apply segment_char_no_slash | apply segment_ok_chars; exact Hseg].
Qed.

Lemma path_state_no_dots (raw acc : list string) :
  raw <> [] -> forallb segment_ok raw = true -> path_state raw acc = rev acc ++ raw.
Proof.
  revert acc. induction raw as [|seg raw IH]; intros acc Hne H; [congruence |].
  simpl in H. apply andb_true_iff in H as [Hseg Hraw].
  destruct (segment_ok_not_dots seg Hseg) as [Hdd Hd].
  destruct raw as [|seg' raw].
  - simpl. rewrite Hdd, Hd. reflexivity.
  - change (path_state (seg :: seg' :: raw) acc)
      with (if is_double_dot seg then path_state (seg' :: raw) (tl acc)
            else if is_single_dot seg then path_state (seg' :: raw) acc
            else path_state (seg' :: raw) (seg :: acc)).
    rewrite Hdd, Hd, (IH (seg :: acc)); [| discriminate | exact Hraw].
    simpl. rewrite <- app_assoc. reflexivity.
Qed.

Lemma parse_path_string (p : list string) :
  p <> [] -> forallb segment_ok p = true -> parse_path (path_string p) = p.
Proof.
  intros Hne H. destruct p as [|seg rest]; [congruence |].
  simpl path_string. unfold parse_path.
  rewrite (split_path_string seg rest H). apply (path_state_no_dots (seg :: rest) []); assumption.
Qed.

Lemma raw_segment_ok (seg : string) :
  raw_segment seg = true -> is_double_dot seg = false -> is_single_dot seg = false ->
  segment_ok seg = true.
Proof. unfold segment_ok, raw_segment. intros -> -> ->. reflexivity. Qed.

Lemma forallb_tl {A} (f : A -> bool) (l : list A) :
  forallb f l = true -> forallb f (tl l) = true.
Proof. destruct l; simpl; [tauto |]. intros H. apply andb_true_iff in H as [_ H]. exact H. Qed.

Lemma forallb_reverse {A} (f : A -> bool) (l : list A) :
  forallb f l = true -> forallb f (rev l) = true.
Proof.
  rewrite !forallb_forall. intros H x Hx. apply H. apply in_rev. exact Hx.
Qed.

Lemma forallb_rev_cons {A} (f : A -> bool) (x : A) (l : list A) :
  f x = true -> forallb f l = true -> forallb f (rev (x :: l)) = true /\ rev (x :: l) <> [].
Proof.
  intros Hx Hl. split.
  - simpl. rewrite forallb_app, (forallb_reverse f l Hl). simpl. rewrite Hx. reflexivity.
  - simpl. destruct (rev l); discriminate.
Qed.

Lemma path_state_ok (raw acc : list string) :
  raw <> [] -> forallb raw_segment raw = true -> forallb segment_ok acc = true ->
  forallb segment_ok (path_state raw acc) = true /\ path_state raw acc <> [].
Proof.
  revert acc. induction raw as [|seg raw IH]; intros acc Hne Hraw Hacc; [congruence |].
  simpl in Hraw. apply andb_true_iff in Hraw as [Hseg Hraw].
  destruct raw as [|seg' raw].
  - simpl. destruct (is_double_dot seg) eqn:Hdd; [| destruct (is_single_dot seg) eqn:Hd].
    + apply forallb_rev_cons; [reflexivity | apply forallb_tl; exact Hacc].
    + apply forallb_rev_cons; [reflexivity | exact Hacc].
    + apply forallb_rev_cons; [apply raw_segment_ok; assumption | exact Hacc].
  - change (path_state (seg :: seg' :: raw) acc)
      with (if is_double_dot seg then path_state (seg' :: raw) (tl acc)
            else if is_single_dot seg then path_state (seg' :: raw) acc
            else path_state (seg' :: raw) (seg :: acc)).
    destruct (is_double_dot seg) eqn:Hdd; [| destruct (is_single_dot seg) eqn:Hd].
    + apply IH; [discriminate | exact Hraw | apply forallb_tl; exact Hacc].
    + apply IH; [discriminate | exact Hraw | exact Hacc].
    + apply IH; [discriminate | exact Hraw |].
      simpl. rewrite Hacc, andb_true_r. apply raw_segment_ok; assumption.
Qed.

Lemma split_raw_segments (s : string) :
  str_forallb path_char s = true -> forallb raw_segment (split_on "/" s) = true.
Proof.
  intros Hs. apply forallb_forall. intros seg Hin.
  pose proof (split_on_pieces "/" s) as Hnoslash.
  pose proof (split_on_forallb path_char "/" s Hs) as Hchars.
  rewrite Forall_forall in Hnoslash, Hchars.
  apply list_elem_of_In in Hin. specialize (Hnoslash seg Hin). specialize (Hchars seg Hin).
  unfold raw_segment. clear -Hnoslash Hchars.
  induction seg as [|c seg IH]; [reflexivity |]. simpl in *.
  apply andb_true_iff in Hnoslash as [Hc1 Hn]. apply andb_true_iff in Hchars as [Hc2 Hp].
  rewrite (path_char_slash_or_segment c Hc2 Hc1), (IH Hn Hp). reflexivity.
Qed.

Lemma parse_path_ok (pathstr : string) :
  str_forallb path_char pathstr = true ->
  forallb segment_ok (parse_path pathstr) = true /\ parse_path pathstr <> [].
Proof.
  intros Hp. unfold parse_path. destruct pathstr as [|c p]; [split; [reflexivity | discriminate] |].
  simpl in Hp. apply andb_true_iff in Hp as [_ Hp].
  apply path_state_ok; [apply split_on_nonempty | apply split_raw_segments; exact Hp | reflexivity].
Qed.

(** *** Path, query and fragment *)

Lemma query_string_checks (query : option string) :
  query_wf query = true ->
  query_supported (default "" query) = true
  /\ str_forallb (fun x => negb (is_hash x)) (query_string query) = true
  /\ after_delimiter (query_string query) = query.
Proof.
  destruct query as [q|]; simpl; [|repeat split].
  intros H. split; [exact H |]. split; [|reflexivity].
  unfold query_supported in H. apply andb_true_iff in H as [Hc _].
  eapply forallb_impl; [apply query_char_no_hash | exact Hc].
Qed.

Lemma parse_tail_string (path : list string) (query fragment : option string) :
  path <> [] -> forallb segment_ok path = true ->
  query_wf query = true -> fragment_wf fragment = true ->
  parse_tail (tail_string path query fragment) = Some (path, query, fragment).
Proof.
  intros Hne Hpath Hquery Hfragment.
  destruct (query_string_checks query Hquery) as (Hqs & Hqh & Hqa).
  pose proof (path_string_chars path Hpath) as Hpc.
  assert (str_forallb (fun x => negb (is_hash x)) (path_string path +:+ query_string query) = true)
    as Hnohash.
  { rewrite forallb_append, Hqh, andb_true_r.
    eapply forallb_impl; [apply path_char_no_hash | exact Hpc]. }
  assert (str_forallb (fun x => negb (is_question x)) (path_string path) = true) as Hnoq.
  { eapply forallb_impl; [apply path_char_no_question | exact Hpc]. }
  assert (break is_question (path_string path +:+ query_string query)
          = (path_string path, query_string query)) as Hbq.
  { destruct query as [q|]; simpl query_string.
    - apply break_stop; [exact Hnoq | reflexivity].
    - rewrite append_nil_r. apply break_all. exact Hnoq. }
  unfold parse_tail, tail_string. fold (query_string query). fold (fragment_string fragment).
  rewrite <- append_assoc.
  assert (break is_hash ((path_string path +:+ query_string query) +:+ fragment_string fragment)
          = (path_string path +:+ query_string query, fragment_string fragment)) as ->.
  { destruct fragment as [f|]; simpl fragment_string.
    - apply break_stop; [exact Hnohash | reflexivity].
    - rewrite append_nil_r. apply break_all. exact Hnohash. }
  rewrite Hbq, Hpc, Hqa, Hqs. simpl.
  assert (str_forallb fragment_char (default "" (after_delimiter (fragment_string fragment))) = true)
    as ->.
  { destruct fragment as [f|]; [exact Hfragment | reflexivity]. }
  rewrite (parse_path_string path Hne Hpath).
  destruct fragment; reflexivity.
Qed.

Lemma parse_tail_ok (tail : string) (path : list string) (query fragment : option string) :
  parse_tail tail = Some (path, query, fragment) ->
  path <> [] /\ forallb segment_ok path = true
  /\ query_wf query = true /\ fragment_wf fragment = true.
Proof.
  unfold parse_tail.
  destruct (break is_hash tail) as [pq frag] eqn:Hbh.
  destruct (break is_question pq) as [pathstr qry] eqn:Hbq.
  destruct (str_forallb path_char pathstr) eqn:Hpc; [|discriminate].
  destruct (query_supported _) eqn:Hqs; [|discriminate].
  destruct (str_forallb fragment_char _) eqn:Hfc; [|discriminate].
  simpl. intros Heq. injection Heq as <- <- <-.
  destruct (parse_path_ok pathstr Hpc) as [Hok Hne].
  split; [exact Hne |]. split; [exact Hok |]. split.
  - destruct qry as [|c q]; [reflexivity |]. exact Hqs.
  - destruct frag as [|c f]; [reflexivity |]. exact Hfc.
Qed.

(** *** The whole URL *)

Lemma well_formed_parts (u : URL) :
  well_formed u = true ->
  exists dflt, default_port (url_scheme u) = Some dflt
               /\ host_ok (url_host u) = true
               /\ port_ok dflt (url_port u) = true
               /\ url_path u <> []
               /\ forallb segment_ok (url_path u) = true
               /\ query_wf (url_query u) = true
               /\ fragment_wf (url_fragment u) = true.
Proof.
  unfold well_formed. destruct (default_port (url_scheme u)) as [dflt|]; [|discriminate].
  intros H. exists dflt.
  apply andb_true_iff in H as [H Hf]. apply andb_true_iff in H as [H Hq].
  apply andb_true_iff in H as [H Hp]. apply andb_true_iff in H as [Hh Hport].
  repeat split; try assumption.
  - destruct (url_path u); [discriminate | discriminate].
  - destruct (url_path u); [discriminate | exact Hp].
Qed.

Lemma well_formed_intro (u : URL) (dflt : N) :
  default_port (url_scheme u) = Some dflt ->
  host_ok (url_host u) = true ->
  port_ok dflt (url_port u) = true ->
  url_path u <> [] ->
  forallb segment_ok (url_path u) = true ->
  query_wf (url_query u) = true ->
  fragment_wf (url_fragment u) = true ->
  well_formed u = true.
Proof.
  intros Hd Hh Hport Hne Hp Hq Hf. unfold well_formed. rewrite Hd, Hh, Hport. simpl.
  destruct (url_path u) as [|seg rest]; [congruence |]. rewrite Hp. simpl.
  rewrite Hq, Hf. reflexivity.
Qed.

Lemma parse_scheme_and_rest (scheme : string) (dflt : N) (host : string) (port : option N)
  (tail : string) (path : list string) (query fragment : option string) :
  default_port scheme = Some dflt ->
  host_ok host = true -> port_ok dflt port = true ->
  match tail with String c _ => is_authority_end c = true | EmptyString => True end ->
  parse_tail tail = Some (path, query, fragment) ->
  URL_parse (scheme +:+ "://" +:+ authority_string host port +:+ tail)
  = Some (mkURL scheme host port path query fragment).
Proof.
  intros Hd Hh Hport Hstart Htail.
  destruct (scheme_facts scheme dflt Hd) as [Hlower Hnocolon].
  unfold URL_parse.
  change (scheme +:+ "://" +:+ authority_string host port +:+ tail)
    with (scheme +:+ String ":" (String "/" (String "/" (authority_string host port +:+ tail)))).
  rewrite (break_stop is_colon scheme _ ":" Hnocolon eq_refl), Hlower, Hd.
  change (Ascii.eqb "/" "/" && Ascii.eqb "/" "/") with true. cbv iota.
  assert (break is_authority_end (authority_string host port +:+ tail)
          = (authority_string host port, tail)) as ->.
  { destruct tail as [|c t].
    - rewrite append_nil_r. apply break_all. apply authority_string_chars. exact Hh.
    - apply break_stop; [apply authority_string_chars; exact Hh | exact Hstart]. }
  rewrite (parse_authority_string dflt host port Hh Hport), Htail. reflexivity.
Qed.

(** Parsing the serialization of a well-formed record gives the record. *)
Lemma parse_href (u : URL) : well_formed u = true -> URL_parse (URL_href u) = Some u.
Proof.
  intros Hwf.
  destruct (well_formed_parts u Hwf) as (dflt & Hd & Hh & Hport & Hne & Hp & Hq & Hf).
  destruct u as [scheme host port path query fragment]. simpl in *.
  unfold URL_href. simpl.
  apply (parse_scheme_and_rest scheme dflt); try assumption.
  - destruct path as [|seg rest]; [congruence |]. reflexivity.
  - apply parse_tail_string; assumption.
Qed.

(** A record with the one-segment path, no query and no fragment is also what
    the parser reads from its serialization without the final slash. *)
Lemma parse_bare (scheme host : string) (port : option N) :
  well_formed (mkURL scheme host port [""] None None) = true ->
  URL_parse (scheme +:+ "://" +:+ authority_string host port)
  = Some (mkURL scheme host port [""] None None).
Proof.
  intros Hwf.
  destruct (well_formed_parts _ Hwf) as (dflt & Hd & Hh & Hport & _). simpl in *.
  rewrite <- (append_nil_r (authority_string host port)).
  apply (parse_scheme_and_rest scheme dflt); try assumption; [exact I | reflexivity].
Qed.

(** What the parser returns is well formed. *)
Lemma parse_well_formed (input : string) (u : URL) :
  URL_parse input = Some u -> well_formed u = true.
Proof.
  unfold URL_parse. destruct (break is_colon input) as [sch rest].
  destruct (default_port (ascii_lower sch)) as [dflt|] eqn:Hd; [|discriminate].
  destruct rest as [|c0 [|c1 [|c2 after]]]; try discriminate.
  destruct (Ascii.eqb c1 "/" && Ascii.eqb c2 "/"); [|discriminate].
  destruct (break is_authority_end after) as [authority tail].
  destruct (parse_authority dflt authority) as [[host port]|] eqn:Ha; [|discriminate].
  destruct (parse_tail tail) as [[[path query] fragment]|] eqn:Ht; [|discriminate].
  intros Heq. injection Heq as <-.
  destruct (parse_authority_ok _ _ _ _ Ha) as [Hh Hport].
  destruct (parse_tail_ok _ _ _ _ Ht) as (Hne & Hp & Hq & Hf).
  apply (well_formed_intro _ dflt); assumption.
Qed.

(** *** Queries *)

Lemma urlencode_char_chars (c : ascii) : str_forallb encoded_char (urlencode_char c) = true.
Proof. by_char c. Qed.

Lemma encoded_char_query_char (c : ascii) : encoded_char c = true -> query_char c = true.
Proof. by_char c. Qed.

Lemma encoded_char_no_equals (c : ascii) :
  encoded_char c = true -> negb (Ascii.eqb c "=") = true.
Proof. by_char c. Qed.

Lemma encoded_char_no_ampersand (c : ascii) :
  encoded_char c = true -> negb (Ascii.eqb c "&") = true.
Proof. by_char c. Qed.

Lemma query_piece_no_slash (c : ascii) :
  encoded_char c || Ascii.eqb c "=" || Ascii.eqb c "&" = true -> negb (Ascii.eqb c "/") = true.
Proof. by_char c. Qed.

Lemma query_piece_query_char (c : ascii) :
  encoded_char c || Ascii.eqb c "=" || Ascii.eqb c "&" = true -> query_char c = true.
Proof. by_char c. Qed.

Lemma query_piece_no_question (c : ascii) :
  encoded_char c || Ascii.eqb c "=" || Ascii.eqb c "&" = true -> Ascii.eqb c "?" = false.
Proof. by_char c. Qed.

Lemma urlencode_chars (x : string) : str_forallb encoded_char (urlencode x) = true.
Proof.
  induction x as [|c x IH]; [reflexivity |]. simpl.
  rewrite forallb_append, urlencode_char_chars, IH. reflexivity.
Qed.

Lemma percent_decode_literal (c : ascii) (t : string) :
  Ascii.eqb c "%" = false -> percent_decode (String c t) = String c (percent_decode t).
Proof. intros Hc. simpl. rewrite Hc. reflexivity. Qed.

Lemma urldecode_literal (c : ascii) (t : string) :
  Ascii.eqb c "%" = false -> Ascii.eqb c "+" = false ->
  urldecode (String c t) = String c (urldecode t).
Proof.
  intros Hpercent Hplus. unfold urldecode.
  change (str_map plus_to_space (String c t))
    with (String (plus_to_space c) (str_map plus_to_space t)).
  unfold plus_to_space at 1. rewrite Hplus.
  apply percent_decode_literal. exact Hpercent.
Qed.

Lemma urldecode_plus (t : string) : urldecode (String "+" t) = String " " (urldecode t).
Proof. reflexivity. Qed.

Lemma hex_not_plus (h : ascii) (a : nat) : hex_value h = Some a -> plus_to_space h = h.
Proof. by_char h. Qed.

Lemma urldecode_escape (h1 h2 c : ascii) (t : string) :
  match hex_value h1, hex_value h2 with
  | Some a, Some b => Some (ascii_of_nat (16 * a + b))
  | _, _ => None
  end = Some c ->
  urldecode (String "%" (String h1 (String h2 t))) = String c (urldecode t).
Proof.
  destruct (hex_value h1) as [a|] eqn:H1; [|discriminate].
  destruct (hex_value h2) as [b|] eqn:H2; [|discriminate].
  intros Hc. injection Hc as <-. unfold urldecode.
  change (str_map plus_to_space (String "%" (String h1 (String h2 t))))
    with (String "%" (String (plus_to_space h1) (String (plus_to_space h2)
            (str_map plus_to_space t)))).
  rewrite (hex_not_plus h1 a H1), (hex_not_plus h2 b H2).
  change (percent_decode (String "%" (String h1 (String h2 (str_map plus_to_space t)))))
    with (match hex_value h1, hex_value h2 with
          | Some a, Some b =>
              String (ascii_of_nat (16 * a + b)) (percent_decode (str_map plus_to_space t))
          | _, _ => String "%" (percent_decode (String h1 (String h2 (str_map plus_to_space t))))
          end).
  rewrite H1, H2. reflexivity.
Qed.

Lemma urldecode_urlencode_char (c : ascii) (t : string) :
  is_ascii c = true -> urldecode (urlencode_char c +:+ t) = String c (urldecode t).
Proof.
  destruct c as [[|] [|] [|] [|] [|] [|] [|] [|]]; intros Hc;
    vm_compute in Hc; try discriminate Hc; clear Hc;
    match goal with
    | |- urldecode (urlencode_char ?c +:+ _) = _ =>
        let v := eval vm_compute in (urlencode_char c) in
        change (urlencode_char c) with v
    end;
    rewrite ?append_cons, append_nil_l;
    first [ apply urldecode_plus
          | apply urldecode_literal; reflexivity
          | apply urldecode_escape; vm_compute; reflexivity ].
Qed.

Lemma urldecode_urlencode (x : string) :
  str_forallb is_ascii x = true -> urldecode (urlencode x) = x.
Proof.
  induction x as [|c x IH]; [reflexivity |]. simpl.
  intros H. apply andb_true_iff in H as [Hc Hx].
  rewrite (urldecode_urlencode_char c _ Hc), (IH Hx). reflexivity.
Qed.

Lemma serialize_pair_chars (p : string * string) :
  str_forallb (fun c => encoded_char c || Ascii.eqb c "=" || Ascii.eqb c "&")
    (serialize_pair p) = true.
Proof.
  unfold serialize_pair. rewrite forallb_append. simpl.
  assert (forall x, str_forallb (fun c => encoded_char c || Ascii.eqb c "=" || Ascii.eqb c "&")
                      (urlencode x) = true) as Henc.
  { intros x. eapply forallb_impl; [|apply urlencode_chars].
    intros c ->. reflexivity. }
  rewrite !Henc. reflexivity.
Qed.

Lemma serialize_pair_no_ampersand (p : string * string) :
  str_forallb (fun c => negb (Ascii.eqb c "&")) (serialize_pair p) = true.
Proof.
  unfold serialize_pair. rewrite forallb_append. simpl.
  assert (forall x, str_forallb (fun c => negb (Ascii.eqb c "&")) (urlencode x) = true) as Henc.
  { intros x. eapply forallb_impl; [apply encoded_char_no_ampersand | apply urlencode_chars]. }
  rewrite !Henc. reflexivity.
Qed.

Lemma parse_serialize_pair (p : string * string) :
  ascii_pair p = true -> parse_pair (serialize_pair p) = [p].
Proof.
  destruct p as [n v]. unfold ascii_pair, serialize_pair. simpl fst. simpl snd.
  intros H. apply andb_true_iff in H as [Hn Hv].
  unfold parse_pair.
  assert (break (fun c => Ascii.eqb c "=") (urlencode n +:+ String "=" (urlencode v))
          = (urlencode n, String "=" (urlencode v))) as Hb.
  { apply break_stop; [|reflexivity].
    eapply forallb_impl; [apply encoded_char_no_equals | apply urlencode_chars]. }
  destruct (urlencode n +:+ String "=" (urlencode v)) eqn:Heq.
  - destruct (urlencode n); discriminate.
  - rewrite Hb. simpl. rewrite (urldecode_urlencode n Hn), (urldecode_urlencode v Hv).
    reflexivity.
Qed.

Lemma split_concat (d : ascii) (piece : string) (pieces : list string) :
  Forall (fun x => str_forallb (fun c => negb (Ascii.eqb c d)) x = true) (piece :: pieces) ->
  split_on d (String.concat (String d "") (piece :: pieces)) = piece :: pieces.
Proof.
  revert piece. induction pieces as [|piece' pieces IH]; intros piece H;
    inversion H as [|? ? Hpiece Hrest]; subst.
  - simpl. rewrite <- (append_nil_r piece) at 1. rewrite (split_on_segment d piece "" Hpiece).
    simpl. rewrite append_nil_r. reflexivity.
  - change (String.concat (String d "") (piece :: piece' :: pieces))
      with (piece +:+ String d (String.concat (String d "") (piece' :: pieces))).
    rewrite (split_on_segment d piece _ Hpiece), split_on_cons_sep, (IH piece' Hrest).
    rewrite append_nil_r. reflexivity.
Qed.

Lemma parse_serialize_pairs (l : list (string * string)) :
  forallb ascii_pair l = true -> flat_map parse_pair (map serialize_pair l) = l.
Proof.
  induction l as [|p l IH]; [reflexivity |]. simpl.
  intros H. apply andb_true_iff in H as [Hp Hl].
  rewrite (parse_serialize_pair p Hp), (IH Hl). reflexivity.
Qed.

(** Reading back what [toString] wrote. *)
Lemma parse_toString (l : list (string * string)) :
  forallb ascii_pair l = true -> parse_urlencoded (URLSearchParams_toString l) = l.
Proof.
  intros Hl. unfold parse_urlencoded, URLSearchParams_toString.
  destruct l as [|p l]; [reflexivity |].
  change (map serialize_pair (p :: l)) with (serialize_pair p :: map serialize_pair l).
  rewrite split_concat.
  - apply (parse_serialize_pairs (p :: l) Hl).
  - change (serialize_pair p :: map serialize_pair l) with (map serialize_pair (p :: l)).
    apply Forall_forall. intros x Hx. apply list_elem_of_In, in_map_iff in Hx as (q & <- & _).
    apply serialize_pair_no_ampersand.
Qed.

Lemma concat_chars (p : ascii -> bool) (sep : string) (pieces : list string) :
  str_forallb p sep = true -> Forall (fun x => str_forallb p x = true) pieces ->
  str_forallb p (String.concat sep pieces) = true.
Proof.
  intros Hsep. induction pieces as [|x pieces IH]; intros H; [reflexivity |].
  inversion H as [|? ? Hx Hrest]; subst.
  destruct pieces as [|y pieces]; [exact Hx |].
  change (String.concat sep (x :: y :: pieces)) with (x +:+ sep +:+ String.concat sep (y :: pieces)).
  rewrite !forallb_append, Hx, Hsep, (IH Hrest). reflexivity.
Qed.

Lemma toString_chars (l : list (string * string)) :
  str_forallb (fun c => encoded_char c || Ascii.eqb c "=" || Ascii.eqb c "&")
    (URLSearchParams_toString l) = true.
Proof.
  unfold URLSearchParams_toString. apply concat_chars; [reflexivity |].
  apply Forall_forall. intros x Hx. apply list_elem_of_In, in_map_iff in Hx as (q & <- & _).
  apply serialize_pair_chars.
Qed.

Lemma toString_supported (l : list (string * string)) :
  forallb ascii_pair l = true -> query_supported (URLSearchParams_toString l) = true.
Proof.
  intros Hl. unfold query_supported. rewrite (parse_toString l Hl), Hl, andb_true_r.
  eapply forallb_impl; [apply query_piece_query_char | apply toString_chars].
Qed.

Lemma endsWith_excluded (p : ascii -> bool) (s : string) (c : ascii) :
  str_forallb p s = true -> p c = false -> endsWith s c = false.
Proof.
  intros Hs Hc. induction s as [|x s IH]; [reflexivity |].
  simpl in Hs. apply andb_true_iff in Hs as [Hx Hs]. specialize (IH Hs).
  change (endsWith (String x s) c)
    with (match s with EmptyString => Ascii.eqb x c | String _ _ => endsWith s c end).
  destruct s; [|exact IH].
  destruct (Ascii.eqb_spec x c); [subst; congruence | reflexivity].
Qed.

(** *** Sorting *)

Section Sorting.
Context {A : Type} (cmp : A -> A -> Z).
Hypothesis cmp_consistent : forall a b, (0 < cmp a b)%Z -> (cmp b a <= 0)%Z.

Lemma sort_insert_sorted (x : A) (l : list A) : sorted cmp l -> sorted cmp (sort_insert cmp x l).
Proof.
  induction l as [|y l IH]; intros Hl; [exact I |]. simpl.
  destruct (Z.leb_spec (cmp x y) 0) as [Hxy|Hxy].
  - split; [exact Hxy | exact Hl].
  - assert (sorted cmp l) as Hl' by (destruct l; [exact I | apply Hl]).
    specialize (IH Hl'). destruct l as [|z l].
    + simpl. split; [apply cmp_consistent; exact Hxy | exact I].
    + simpl in IH |- *. destruct Hl as [Hyz _].
      destruct (cmp x z <=? 0)%Z; (split; [| exact IH]);
        [apply cmp_consistent; exact Hxy | exact Hyz].
Qed.

Lemma Array_sort_sorted (l : list A) : sorted cmp (Array_sort cmp l).
Proof.
  induction l as [|x l IH]; [exact I |]. simpl. apply sort_insert_sorted. exact IH.
Qed.

Lemma Array_sort_fixed (l : list A) : sorted cmp l -> Array_sort cmp l = l.
Proof.
  induction l as [|x l IH]; intros Hl; [reflexivity |]. simpl.
  assert (sorted cmp l) as Hl' by (destruct l; [exact I | apply Hl]).
  rewrite (IH Hl'). destruct l as [|y l]; [reflexivity |]. simpl.
  destruct Hl as [Hxy _]. apply Z.leb_le in Hxy. rewrite Hxy. reflexivity.
Qed.

Lemma sort_insert_forallb (f : A -> bool) (x : A) (l : list A) :
  forallb f (sort_insert cmp x l) = f x && forallb f l.
Proof.
  induction l as [|y l IH]; [reflexivity |]. simpl.
  destruct (cmp x y <=? 0)%Z; [reflexivity |]. simpl. rewrite IH.
  destruct (f x), (f y); reflexivity.
Qed.

Lemma Array_sort_forallb (f : A -> bool) (l : list A) :
  forallb f (Array_sort cmp l) = forallb f l.
Proof.
  induction l as [|x l IH]; [reflexivity |]. simpl.
  rewrite sort_insert_forallb, IH. reflexivity.
Qed.

Lemma Array_sort_nil (l : list A) : Array_sort cmp l = [] -> l = [].
Proof.
  destruct l as [|x l]; [reflexivity |]. simpl.
  destruct (Array_sort cmp l) as [|y l']; simpl; [discriminate |].
  destruct (cmp x y <=? 0)%Z; discriminate.
Qed.

End Sorting.

(** *** The default normalization *)

Section Idempotence.
Context `{Locale}.
Hypothesis collation_consistent : consistent localeCompare.

#[local] Abbreviation by_name := (fun a b : string * string => localeCompare (fst a) (fst b)).

Lemma by_name_consistent (a b : string * string) : (0 < by_name a b)%Z -> (by_name b a <= 0)%Z.
Proof. apply collation_consistent. Qed.

Lemma normalizeUrl_default (u : string) :
  normalizeUrl u no_options
  = bind (validateUrl u) (fun r => Ok (strip_slash (URL_href (default_steps r)))).
Proof. reflexivity. Qed.

Lemma toString_empty (l : list (string * string)) :
  URLSearchParams_toString l = "" -> l = [].
Proof.
  destruct l as [|p l]; [reflexivity |]. unfold URLSearchParams_toString. simpl map.
  intros Heq. exfalso.
  assert (forall a b, a +:+ String "=" b <> "") as Hne.
  { intros a b. destruct a; discriminate. }
  destruct (map serialize_pair l) as [|y ys].
  - simpl in Heq. exact (Hne _ _ Heq).
  - change (String.concat "&" (serialize_pair p :: y :: ys))
      with (serialize_pair p +:+ "&" +:+ String.concat "&" (y :: ys)) in Heq.
    unfold serialize_pair at 1 in Heq. rewrite append_assoc in Heq. exact (Hne _ _ Heq).
Qed.

Lemma set_search_toString (r : URL) (l : list (string * string)) :
  l <> [] ->
  URL_set_search r (URLSearchParams_toString l)
  = mkURL (url_scheme r) (url_host r) (url_port r) (url_path r)
          (Some (URLSearchParams_toString l)) (url_fragment r).
Proof.
  intros Hl. unfold URL_set_search.
  pose proof (toString_chars l) as Hchars.
  destruct (URLSearchParams_toString l) as [|c q] eqn:Heq.
  - exfalso. apply Hl. apply toString_empty. exact Heq.
  - simpl in Hchars. apply andb_true_iff in Hchars as [Hc _].
    apply query_piece_no_question in Hc.
    destruct (Ascii.eqb_spec c "?") as [->|Hne]; [discriminate |].
    destruct c as [[|] [|] [|] [|] [|] [|] [|] [|]]; try reflexivity. congruence.
Qed.

(** The record after the default steps, for a well-formed record. *)
Lemma default_steps_well_formed (r : URL) :
  well_formed r = true ->
  default_steps r
  = mkURL (url_scheme r) (url_host r) (url_port r) (url_path r)
          (match url_query r with
           | Some (String c q) =>
               match sort_params (parse_urlencoded (String c q)) with
               | [] => None
               | l => Some (URLSearchParams_toString l)
               end
           | other => other
           end) None.
Proof.
  intros Hwf.
  destruct (well_formed_parts r Hwf) as (dflt & Hd & Hh & Hport & Hne & Hp & Hq & Hf).
  destruct r as [scheme host port path query fragment]. simpl in *.
  unfold default_steps, URL_set_hostname, URL_hostname. simpl.
  rewrite (toLowerCase_host host Hh), (parse_host_fixed host Hh). simpl.
  destruct query as [[|c q]|]; try reflexivity.
  unfold URL_search. simpl.
  destruct (sort_params (parse_urlencoded (String c q))) as [|p l] eqn:Hs; [reflexivity |].
  apply (set_search_toString (mkURL scheme host port path (Some (String c q)) None) (p :: l)).
  discriminate.
Qed.

Lemma default_steps_canonical (r : URL) :
  well_formed r = true ->
  well_formed (default_steps r) = true
  /\ url_fragment (default_steps r) = None
  /\ canonical_query (url_query (default_steps r))
  /\ url_scheme (default_steps r) = url_scheme r.
Proof.
  intros Hwf. rewrite (default_steps_well_formed r Hwf).
  destruct (well_formed_parts r Hwf) as (dflt & Hd & Hh & Hport & Hne & Hp & Hq & Hf).
  simpl. split; [| split; [reflexivity | split; [| reflexivity]]].
  - apply (well_formed_intro _ dflt); simpl; try assumption; [| reflexivity].
    destruct (url_query r) as [[|c q]|]; try reflexivity.
    destruct (sort_params (parse_urlencoded (String c q))) as [|p l] eqn:Hs; [reflexivity |].
    simpl. apply toString_supported. rewrite <- Hs. unfold sort_params.
    rewrite Array_sort_forallb. simpl in Hq. unfold query_supported in Hq.
    apply andb_true_iff in Hq as [_ Hq]. exact Hq.
  - destruct (url_query r) as [[|c q]|]; try exact I.
    destruct (sort_params (parse_urlencoded (String c q))) as [|p l] eqn:Hs; [exact I |].
    simpl. destruct (URLSearchParams_toString (p :: l)) eqn:Hts; [exact I |].
    rewrite <- Hts. exists (p :: l). split; [discriminate |]. split; [| split; [| reflexivity]].
    + rewrite <- Hs. unfold sort_params. rewrite Array_sort_forallb.
      simpl in Hq. unfold query_supported in Hq. apply andb_true_iff in Hq as [_ Hq]. exact Hq.
    + rewrite <- Hs. unfold sort_params. apply Array_sort_sorted. apply by_name_consistent.
Qed.

Lemma default_steps_fixed (r : URL) :
  well_formed r = true -> url_fragment r = None -> canonical_query (url_query r) ->
  default_steps r = r.
Proof.
  intros Hwf Hfrag Hcanon. rewrite (default_steps_well_formed r Hwf).
  destruct r as [scheme host port path query fragment]. simpl in *. subst fragment.
  f_equal. destruct query as [[|c q]|]; try reflexivity.
  destruct Hcanon as (l & Hne & Hascii & Hsorted & Hq). rewrite Hq.
  rewrite (parse_toString l Hascii). unfold sort_params.
  rewrite (Array_sort_fixed _ l Hsorted). destruct l; [congruence | reflexivity].
Qed.

Lemma validateUrl_ok (u : string) (r : URL) :
  validateUrl u = Ok r ->
  URL_parse u = Some r
  /\ existsb (String.eqb (URL_protocol r)) ["http:"; "https:"] = true.
Proof.
  unfold validateUrl. destruct (URL_parse u) as [r'|]; [|discriminate].
  destruct (existsb _ _) eqn:Hproto; [|discriminate].
  intros Heq. injection Heq as <-. split; [reflexivity | exact Hproto].
Qed.

Lemma validateUrl_href (r : URL) :
  well_formed r = true ->
  existsb (String.eqb (URL_protocol r)) ["http:"; "https:"] = true ->
  validateUrl (URL_href r) = Ok r.
Proof.
  intros Hwf Hproto. unfold validateUrl. rewrite (parse_href r Hwf), Hproto. reflexivity.
Qed.

Lemma path_string_snoc (p : list string) (seg : string) :
  path_string (p ++ [seg]) = path_string p +:+ String "/" seg.
Proof.
  induction p as [|x p IH]; simpl.
  - rewrite append_nil_r. reflexivity.
  - rewrite IH, append_cons, append_assoc. reflexivity.
Qed.

Lemma endsWith_slice (s : string) (c : ascii) :
  endsWith s c = true -> s = slice_0_minus1 s +:+ String c "".
Proof.
  induction s as [|x s IH]; [discriminate |].
  change (endsWith (String x s) c)
    with (match s with EmptyString => Ascii.eqb x c | String _ _ => endsWith s c end).
  change (slice_0_minus1 (String x s))
    with (match s with EmptyString => EmptyString | String _ _ => String x (slice_0_minus1 s) end).
  destruct s as [|y s].
  - intros Hx. apply Ascii.eqb_eq in Hx. subst. reflexivity.
  - intros Hs. rewrite append_cons. f_equal. apply IH. exact Hs.
Qed.

Lemma href_with_query (r : URL) (q : string) :
  url_query r = Some q -> url_fragment r = None ->
  str_forallb (fun c => negb (Ascii.eqb c "/")) q = true ->
  endsWith (URL_href r) "/" = false.
Proof.
  intros Hq Hf Hchars. unfold URL_href, tail_string. rewrite Hq, Hf, append_nil_r.
  rewrite <- !append_assoc, endsWith_append_cons.
  apply (endsWith_excluded (fun c => negb (Ascii.eqb c "/"))); [|reflexivity].
  simpl. exact Hchars.
Qed.

Lemma canonical_query_no_slash (q : string) :
  canonical_query (Some q) -> str_forallb (fun c => negb (Ascii.eqb c "/")) q = true.
Proof.
  destruct q as [|c q]; [reflexivity |]. intros (l & _ & _ & _ & ->).
  eapply forallb_impl; [apply query_piece_no_slash | apply toString_chars].
Qed.

Lemma href_without_query (r : URL) :
  url_query r = None -> url_fragment r = None ->
  URL_href r = href_prefix r +:+ path_string (url_path r).
Proof.
  intros Hq Hf. unfold URL_href, href_prefix, tail_string.
  rewrite Hq, Hf, !append_nil_r, !append_assoc. reflexivity.
Qed.

Lemma segment_not_ending_in_slash (seg : string) :
  segment_ok seg = true -> endsWith (String "/" seg) "/" = negb (truthy seg).
Proof.
  intros Hseg. destruct seg as [|c seg]; [reflexivity |].
  change (endsWith (String "/" (String c seg)) "/") with (endsWith (String c seg) "/").
  apply (endsWith_excluded (fun c => negb (Ascii.eqb c "/"))); [|reflexivity].
  eapply forallb_impl; [apply segment_char_no_slash | apply segment_ok_chars; exact Hseg].
Qed.

Lemma forallb_snoc {A} (f : A -> bool) (l : list A) (x : A) :
  forallb f (l ++ [x]) = true -> forallb f l = true /\ f x = true.
Proof.
  rewrite forallb_app. simpl. rewrite andb_true_r. apply andb_true_iff.
Qed.

Lemma strip_slash_final (x : string) : strip_slash (x +:+ "/") = x.
Proof.
  unfold strip_slash. change (x +:+ "/") with (x +:+ String "/" "").
  rewrite endsWith_append_cons, slice_append_cons. simpl. apply append_nil_r.
Qed.

Lemma validateUrl_bare (r : URL) :
  well_formed r = true ->
  existsb (String.eqb (URL_protocol r)) ["http:"; "https:"] = true ->
  url_path r = [""] -> url_query r = None -> url_fragment r = None ->
  validateUrl (href_prefix r) = Ok r.
Proof.
  destruct r as [scheme host port path query fragment]. simpl.
  intros Hwf Hproto -> -> ->. unfold validateUrl, href_prefix. simpl.
  rewrite (parse_bare scheme host port Hwf), Hproto. reflexivity.
Qed.

End Idempotence.


Lemma sort_b_a `{Locale} :
  (0 < localeCompare "b" "a")%Z ->
  sort_params [("b", "2"); ("a", "1")] = [("a", "1"); ("b", "2")].
Proof.
  intros Hba. unfold sort_params. simpl.
  destruct (Z.leb_spec (localeCompare "b" "a") 0); [lia | reflexivity].
Qed.

(** C2. In every locale that sorts [a] before [b], the URL of the scenario
    keeps, under the default options, the case of its path and the slash in
    front of its query: only the host is lowercased, and only the last
    character of the serialized URL is looked at. *)
Theorem normalizeUrl_scenario `{Locale} :
  (0 < localeCompare "b" "a")%Z ->
  normalizeUrl scenario_url no_options = Ok "https://example.com/Path/?a=1&b=2"
  /\ normalizeUrl scenario_url no_options <> Ok "https://example.com/path?a=1&b=2".
Proof.
  intros Hba.
  assert (normalizeUrl scenario_url no_options = Ok "https://example.com/Path/?a=1&b=2") as ->.
  { rewrite normalizeUrl_default.
    replace (validateUrl scenario_url) with (Ok scenario_parsed) by (vm_compute; reflexivity).
    unfold bind, default_steps. cbv zeta.
    replace (URL_set_hash (URL_set_hostname scenario_parsed
                             (toLowerCase (URL_hostname scenario_parsed))) "")
      with (mkURL "https" "example.com" None ["Path"; ""] (Some "b=2&a=1") None)
      by (vm_compute; reflexivity).
    replace (URL_search (mkURL "https" "example.com" None ["Path"; ""] (Some "b=2&a=1") None))
      with "?b=2&a=1" by reflexivity.
    replace (URLSearchParams_new "?b=2&a=1") with [("b", "2"); ("a", "1")]
      by (vm_compute; reflexivity).
    rewrite (sort_b_a Hba). vm_compute. reflexivity. }
  split; [reflexivity | vm_compute; discriminate].
Qed.

Lemma normalizeUrl_scenario_witness :
  normalizeUrl scenario_url no_options = Ok "https://example.com/Path/?a=1&b=2".
Proof. apply (@normalizeUrl_scenario code_unit_order). reflexivity. Defined.

Lemma compare_code_units_consistent : consistent compare_code_units.
Proof.
  intros a b. unfold compare_code_units. rewrite (String.compare_antisym b a).
  destruct (String.compare a b); simpl; lia.
Qed.


End NormalizeFacts.

(** ** Normalization on any platform *)

Module PlatformFacts.
Import JS WHATWG Types StringFacts Canonical Examples NormalizeFacts.
Import Platform.

(** *** Any conforming platform *)

Section Conforming.
Context `{Conforming}.

Lemma platform_normalizeUrl_default (u : string) :
  normalizeUrl u no_options
  = bind (validateUrl u) (fun r => Ok (strip_slash (toString (default_steps r)))).
Proof. reflexivity. Qed.

Lemma platform_validateUrl_ok (u : string) (r : URLObject) :
  validateUrl u = Ok r ->
  new_URL u = Some r /\ existsb (String.eqb (get_protocol r)) ["http:"; "https:"] = true.
Proof.
  unfold validateUrl. destruct (new_URL u) as [r'|]; [|discriminate].
  destruct (existsb _ _) eqn:Hproto; [|discriminate].
  intros Heq. injection Heq as <-. split; [reflexivity | exact Hproto].
Qed.

Lemma validateUrl_toString (r : URLObject) :
  reached r -> existsb (String.eqb (get_protocol r)) ["http:"; "https:"] = true ->
  validateUrl (toString r) = Ok r.
Proof.
  intros Hok Hproto. unfold validateUrl. rewrite (new_URL_toString r Hok), Hproto. reflexivity.
Qed.

Lemma default_steps_settled (r : URLObject) : settled r -> default_steps r = r.
Proof.
  intros (Hok & Hhash & Hsearch). unfold default_steps.
  rewrite (hostname_fixed r Hok), Hhash.
  destruct (truthy (get_search r)) eqn:Hs; [apply Hsearch; reflexivity | reflexivity].
Qed.

Lemma default_steps_settle (r : URLObject) :
  reached r ->
  settled (default_steps r)
  /\ get_protocol (default_steps r) = get_protocol r
  /\ (endsWith (toString (default_steps r)) "/" = true -> get_search (default_steps r) = "").
Proof.
  intros Hok. unfold default_steps. rewrite (hostname_fixed r Hok).
  pose proof (reached_hash r Hok) as Hok2. pose proof (set_hash_twice r Hok) as Hhash2.
  pose proof (set_hash_protocol r Hok) as Hproto2.
  set (r2 := set_hash r "") in *.
  destruct (truthy (get_search r2)) eqn:Hs.
  - split; [| split].
    + split; [apply reached_search; exact Hok2 |].
      split; [apply set_hash_set_search; assumption |].
      intros _. unfold sorted_search at 2.
      rewrite (entries_set_search r2 Hok2).
      rewrite (Array_sort_fixed compare_names)
        by (apply Array_sort_sorted; apply compare_names_consistent).
      apply (set_search_twice r2 Hok2).
    + rewrite (set_search_protocol r2 Hok2). exact Hproto2.
    + apply slash_after_search; assumption.
  - split; [| split].
    + split; [exact Hok2 |]. split; [exact Hhash2 |]. rewrite Hs. discriminate.
    + exact Hproto2.
    + intros _. destruct (get_search r2); [reflexivity | discriminate].
Qed.

Lemma normalizeUrl_settled (r : URLObject) :
  settled r -> existsb (String.eqb (get_protocol r)) ["http:"; "https:"] = true ->
  normalizeUrl (toString r) no_options = Ok (strip_slash (toString r)).
Proof.
  intros Hsettled Hproto. rewrite platform_normalizeUrl_default.
  rewrite (validateUrl_toString r (proj1 Hsettled) Hproto). unfold bind.
  rewrite (default_steps_settled r Hsettled). reflexivity.
Qed.

Lemma slice_shorter (n : string) :
  endsWith n "/" = true -> slice_0_minus1 n <> n.
Proof.
  intros Hends Heq. pose proof (endsWith_slice n "/" Hends) as Hn.
  rewrite Heq in Hn. apply (f_equal String.length) in Hn.
  rewrite length_append in Hn. simpl in Hn. lia.
Qed.

Lemma normalizeUrl_again (u n : string) :
  normalizeUrl u no_options = Ok n ->
  (exists r, validateUrl u = Ok r
             /\ ((endsWith (toString (default_steps r)) "/" = false
                  /\ n = toString (default_steps r))
                 \/ toString (default_steps r) = n +:+ "/"))
  /\ normalizeUrl n no_options
     = Ok (if endsWith n "/" then slice_0_minus1 n else n).
Proof.
  rewrite platform_normalizeUrl_default. unfold bind.
  destruct (validateUrl u) as [r|] eqn:Hv; [|discriminate].
  intros Hn. injection Hn as <-.
  destruct (platform_validateUrl_ok u r Hv) as [Hparse Hproto].
  pose proof (reached_new u r Hparse) as Hok.
  destruct (default_steps_settle r Hok) as (Hsettled & Hsame & Hslash).
  set (r3 := default_steps r) in *.
  assert (existsb (String.eqb (get_protocol r3)) ["http:"; "https:"] = true) as Hproto3
    by (rewrite Hsame; exact Hproto).
  destruct (endsWith (toString r3) "/") eqn:Hends.
  - (* the serialization ends with a slash *)
    pose proof (endsWith_slice _ _ Hends) as Hh.
    assert (strip_slash (toString r3) = slice_0_minus1 (toString r3)) as ->
      by (unfold strip_slash; rewrite Hends; reflexivity).
    set (n := slice_0_minus1 (toString r3)) in *.
    split; [exists r; split; [reflexivity | right; exact Hh] |].
    destruct Hsettled as (Hok3 & Hhash3 & _).
    destruct (without_final_slash r3 n Hok3 Hhash3 (Hslash eq_refl) Hh)
      as (r' & Hparse' & Hproto' & Hhash' & Hsearch' & Hstr).
    assert (settled r') as Hsettled'.
    { split; [exact (reached_new n r' Hparse') |]. split; [exact Hhash' |].
      rewrite Hsearch'. discriminate. }
    assert (existsb (String.eqb (get_protocol r')) ["http:"; "https:"] = true) as Hp'
      by (rewrite Hproto'; exact Hproto3).
    pose proof (normalizeUrl_settled r' Hsettled' Hp') as Hnorm.
    destruct Hstr as [Hstr | [Hstr Hno]].
    + rewrite Hstr in Hnorm. exact Hnorm.
    + assert (normalizeUrl n no_options = Ok n) as ->; [| rewrite Hno; reflexivity].
      rewrite platform_normalizeUrl_default. unfold validateUrl. rewrite Hparse', Hp'. unfold bind.
      rewrite (default_steps_settled r' Hsettled'), Hstr, strip_slash_final. reflexivity.
  - (* the serialization does not end with a slash *)
    assert (strip_slash (toString r3) = toString r3) as Hstrip
      by (unfold strip_slash; rewrite Hends; reflexivity).
    rewrite Hstrip.
    split; [exists r; split; [reflexivity | left; split; [exact Hends | reflexivity]] |].
    rewrite (normalizeUrl_settled r3 Hsettled Hproto3), Hstrip, Hends. reflexivity.
Qed.


End Conforming.

(** *** The model of the URL standard conforms *)

Section Model.
Context `{Locale}.
Hypothesis collation_consistent : consistent localeCompare.

#[local] Abbreviation by_name := (fun a b : string * string => localeCompare (fst a) (fst b)).

Lemma no_fragment (r : URL) : URL_set_hash r "" = r -> url_fragment r = None.
Proof. intros Heq. rewrite <- Heq. reflexivity. Qed.

(** The search setter on the sorted parameters of a well-formed URL. *)
Lemma set_sorted_search (r : URL) :
  well_formed r = true ->
  let l := Array_sort by_name (URLSearchParams_new (URL_search r)) in
  forallb ascii_pair l = true
  /\ URL_set_search r (URLSearchParams_toString l)
     = mkURL (url_scheme r) (url_host r) (url_port r) (url_path r)
             (match l with [] => None | _ => Some (URLSearchParams_toString l) end)
             (url_fragment r).
Proof.
  intros Hwf l.
  destruct (well_formed_parts r Hwf) as (dflt & Hd & Hh & Hport & Hne & Hp & Hq & Hf).
  assert (forallb ascii_pair l = true) as Hascii.
  { unfold l. rewrite Array_sort_forallb. unfold URL_search.
    destruct (url_query r) as [[|c q]|]; try reflexivity.
    simpl in Hq. unfold query_supported in Hq. apply andb_true_iff in Hq as [_ Hq]. exact Hq. }
  split; [exact Hascii |].
  destruct l as [|p l'] eqn:Hl; [reflexivity |].
  apply set_search_toString. discriminate.
Qed.

Lemma toString_no_slash (l : list (string * string)) :
  str_forallb (fun c => negb (Ascii.eqb c "/")) (URLSearchParams_toString l) = true.
Proof. eapply forallb_impl; [apply query_piece_no_slash | apply toString_chars]. Qed.

Lemma host_ok_nonempty (h : string) : host_ok h = true -> h <> "".
Proof. intros Hh ->. discriminate Hh. Qed.

Lemma href_prefix_no_final_slash (r : URL) :
  well_formed r = true -> endsWith (href_prefix r) "/" = false.
Proof.
  intros Hwf.
  destruct (well_formed_parts r Hwf) as (dflt & Hd & Hh & _).
  pose proof (authority_string_chars (url_host r) (url_port r) Hh) as Hchars.
  unfold href_prefix.
  assert (authority_string (url_host r) (url_port r) <> "") as Hne.
  { unfold authority_string. pose proof (host_ok_nonempty _ Hh) as Hhost.
    destruct (url_host r); [congruence | discriminate]. }
  destruct (authority_string (url_host r) (url_port r)) as [|c a]; [congruence |].
  rewrite <- append_assoc, endsWith_append_cons.
  apply (endsWith_excluded _ _ _ Hchars). reflexivity.
Qed.

(** A well-formed URL without query and fragment whose serialization is
    [n] and a final slash: what [n] reads as. *)
Lemma parse_without_final_slash (r : URL) (n : string) :
  well_formed r = true -> url_fragment r = None -> URL_search r = "" ->
  URL_href r = n +:+ "/" ->
  exists r', URL_parse n = Some r'
             /\ url_scheme r' = url_scheme r
             /\ url_fragment r' = None
             /\ url_query r' = None
             /\ (URL_href r' = n \/ (URL_href r' = n +:+ "/" /\ endsWith n "/" = false)).
Proof.
  intros Hwf Hfrag Hsearch Hhref.
  assert (endsWith (URL_href r) "/" = true) as Hends.
  { rewrite Hhref. change (n +:+ "/") with (n +:+ String "/" "").
    rewrite endsWith_append_cons. reflexivity. }
  destruct (url_query r) as [q|] eqn:Hq.
  { exfalso. unfold URL_search in Hsearch. rewrite Hq in Hsearch.
    destruct q as [|c q]; [| discriminate Hsearch].
    rewrite (href_with_query r "" Hq Hfrag eq_refl) in Hends. discriminate. }
  destruct (well_formed_parts r Hwf) as (dflt & Hd & Hh & Hport & Hne & Hp & _ & _).
  destruct (exists_last Hne) as (p & seg & Hpath).
  assert (seg = "") as ->.
  { rewrite (href_without_query r Hq Hfrag), Hpath, path_string_snoc in Hends.
    rewrite <- append_assoc, endsWith_append_cons in Hends.
    rewrite Hpath in Hp. apply forallb_snoc in Hp as [_ Hseg].
    rewrite (segment_not_ending_in_slash seg Hseg) in Hends.
    destruct seg; [reflexivity | discriminate]. }
  assert (n = href_prefix r +:+ path_string p) as Hn.
  { rewrite (href_without_query r Hq Hfrag), Hpath, path_string_snoc, <- append_assoc in Hhref.
    apply (f_equal slice_0_minus1) in Hhref.
    change (slice_0_minus1 ((href_prefix r +:+ path_string p) +:+ "/"))
      with (slice_0_minus1 ((href_prefix r +:+ path_string p) +:+ String "/" "")) in Hhref.
    change (slice_0_minus1 (n +:+ "/")) with (slice_0_minus1 (n +:+ String "/" "")) in Hhref.
    rewrite !slice_append_cons in Hhref. simpl slice_0_minus1 in Hhref.
    rewrite !append_nil_r in Hhref. symmetry. exact Hhref. }
  destruct p as [|x p].
  - (* the path is the one empty segment *)
    simpl path_string in Hn. rewrite append_nil_r in Hn.
    exists r. destruct r as [scheme host port path query fragment]. simpl in *. subst.
    split; [apply (parse_bare scheme host port Hwf) |].
    split; [reflexivity |]. split; [reflexivity |]. split; [reflexivity |].
    right. split; [exact Hhref |].
    apply (href_prefix_no_final_slash (mkURL scheme host port [""] None None) Hwf).
  - (* a longer path: the URL without its last, empty segment *)
    set (r'' := mkURL (url_scheme r) (url_host r) (url_port r) (x :: p) None None).
    assert (well_formed r'' = true) as Hwf''.
    { rewrite Hpath in Hp. apply forallb_snoc in Hp as [Hp _].
      apply (well_formed_intro r'' dflt); simpl; try assumption; try reflexivity.
      discriminate. }
    assert (URL_href r'' = n) as Hhref''.
    { rewrite (href_without_query r''); [| reflexivity | reflexivity]. rewrite Hn. reflexivity. }
    exists r''. split; [rewrite <- Hhref''; apply parse_href; exact Hwf'' |].
    split; [reflexivity |]. split; [reflexivity |]. split; [reflexivity |].
    left. exact Hhref''.
Qed.

Lemma reached_well_formed (r : URL) : reached r -> well_formed r = true.
Proof.
  induction 1 as [u r Hparse | r _ Hwf | r _ Hwf].
  - exact (parse_well_formed u r Hparse).
  - destruct (well_formed_parts r Hwf) as (dflt & Hd & Hh & Hport & Hne & Hp & Hq & Hf).
    apply (well_formed_intro _ dflt); simpl; try assumption. reflexivity.
  - destruct (set_sorted_search r Hwf) as [Hascii Heq].
    unfold sorted_search. simpl. rewrite Heq.
    destruct (well_formed_parts r Hwf) as (dflt & Hd & Hh & Hport & Hne & Hp & Hq & Hf).
    apply (well_formed_intro _ dflt); simpl; try assumption.
    destruct (Array_sort _ _) as [|p l] eqn:Hl; [reflexivity |].
    simpl. apply toString_supported. exact Hascii.
Qed.

Lemma whatwg_conforming : Conforming (H := whatwg_model).
Proof.
  split.
  - (* hostname_fixed *)
    intros r Hr. apply reached_well_formed in Hr as Hwf.
    destruct (well_formed_parts r Hwf) as (dflt & Hd & Hh & _).
    simpl. unfold URL_set_hostname, URL_hostname.
    rewrite (toLowerCase_host _ Hh), (parse_host_fixed _ Hh). destruct r; reflexivity.
  - (* set_hash_protocol *) reflexivity.
  - (* set_search_protocol *) reflexivity.
  - (* set_hash_twice *) reflexivity.
  - (* set_hash_set_search *)
    intros r Hr Hhash. apply reached_well_formed in Hr as Hwf. apply no_fragment in Hhash.
    destruct (set_sorted_search r Hwf) as [_ Heq].
    unfold sorted_search. simpl. rewrite Heq. unfold URL_set_hash. simpl. rewrite Hhash.
    reflexivity.
  - (* new_URL_toString *)
    intros r Hr. apply parse_href, reached_well_formed. exact Hr.
  - (* entries_set_search *)
    intros r Hr. apply reached_well_formed in Hr as Hwf.
    destruct (set_sorted_search r Hwf) as [Hascii Heq].
    unfold sorted_search. simpl. rewrite Heq.
    destruct (Array_sort _ _) as [|p l] eqn:Hl; [reflexivity |].
    unfold URL_search. simpl.
    destruct (URLSearchParams_toString (p :: l)) as [|c q] eqn:Hts.
    { apply toString_empty in Hts. discriminate. }
    rewrite <- Hts. simpl. apply parse_toString. exact Hascii.
  - (* set_search_twice *) reflexivity.
  - (* compare_names_consistent *) intros a b. apply collation_consistent.
  - (* slash_after_search *)
    intros r Hr Hhash. apply reached_well_formed in Hr as Hwf. apply no_fragment in Hhash.
    destruct (set_sorted_search r Hwf) as [_ Heq].
    unfold sorted_search. simpl. rewrite Heq.
    destruct (Array_sort _ _) as [|p l] eqn:Hl; [reflexivity |].
    intros Hends. exfalso. unfold URL_toString in Hends.
    rewrite (href_with_query _ (URLSearchParams_toString (p :: l))) in Hends;
      [discriminate | reflexivity | exact Hhash | apply toString_no_slash].
  - (* without_final_slash *)
    intros r n Hr Hhash Hsearch Hhref. apply reached_well_formed in Hr as Hwf.
    apply no_fragment in Hhash.
    destruct (parse_without_final_slash r n Hwf Hhash Hsearch Hhref)
      as (r' & Hparse & Hscheme & Hfrag & Hquery & Hstr).
    exists r'. simpl. split; [exact Hparse |].
    split; [unfold URL_protocol; rewrite Hscheme; reflexivity |].
    split; [destruct r'; simpl in *; subst; reflexivity |].
    split; [unfold URL_search; rewrite Hquery; reflexivity | exact Hstr].
Qed.

End Model.


End PlatformFacts.

(** ** URL utilities: domains, options and errors *)

Module DomainFacts.
Import JS WHATWG RegExpModel Types UrlUtils WebExtractor Canonical Pieces Examples StringFacts NormalizeFacts.

Lemma default_steps_shape `{Locale} (r : URL) :
  well_formed r = true ->
  well_formed (default_steps r) = true
  /\ url_scheme (default_steps r) = url_scheme r
  /\ url_host (default_steps r) = url_host r
  /\ url_port (default_steps r) = url_port r
  /\ url_path (default_steps r) = url_path r
  /\ url_fragment (default_steps r) = None
  /\ (forall q, url_query (default_steps r) = Some q ->
        str_forallb (fun c => negb (Ascii.eqb c "/")) q = true).
Proof.
  intros Hwf. rewrite (default_steps_well_formed r Hwf).
  destruct (well_formed_parts r Hwf) as (dflt & Hd & Hh & Hport & Hne & Hp & Hq & Hf).
  simpl. repeat (split; [try reflexivity |]).
  - apply (well_formed_intro _ dflt); simpl; try assumption; [| reflexivity].
    destruct (url_query r) as [[|c q]|]; try reflexivity.
    destruct (sort_params (parse_urlencoded (String c q))) as [|p l] eqn:Hs; [reflexivity |].
    simpl. apply toString_supported. rewrite <- Hs. unfold sort_params.
    rewrite Array_sort_forallb. simpl in Hq. unfold query_supported in Hq.
    apply andb_true_iff in Hq as [_ Hq]. exact Hq.
  - intros q. destruct (url_query r) as [[|c q0]|]; try discriminate.
    + intros Heq. injection Heq as <-. reflexivity.
    + destruct (sort_params (parse_urlencoded (String c q0))) as [|p l]; [discriminate |].
      intros Heq. injection Heq as <-.
      eapply forallb_impl; [apply query_piece_no_slash | apply toString_chars].
Qed.

Lemma normalizeUrl_reparses `{Locale} (u n : string) :
  normalizeUrl u no_options = Ok n ->
  exists r r', validateUrl u = Ok r /\ validateUrl n = Ok r'
    /\ url_scheme r' = url_scheme r /\ url_host r' = url_host r /\ url_port r' = url_port r
    /\ List.filter nonempty (url_path r') = List.filter nonempty (url_path r)
    /\ url_query r' = url_query (default_steps r).
Proof.
  rewrite normalizeUrl_default. unfold bind.
  destruct (validateUrl u) as [r|] eqn:Hv; [|discriminate].
  intros Hn. injection Hn as <-. exists r.
  destruct (validateUrl_ok u r Hv) as [Hparse Hproto].
  pose proof (parse_well_formed u r Hparse) as Hwf.
  destruct (default_steps_shape r Hwf) as (Hwf' & Hs & Hh & Hpt & Hpath & Hfrag & Hnoslash).
  remember (default_steps r) as r' eqn:Hr'.
  assert (existsb (String.eqb (URL_protocol r')) ["http:"; "https:"] = true) as Hproto'.
  { unfold URL_protocol in *. rewrite Hs. exact Hproto. }
  unfold strip_slash. destruct (endsWith (URL_href r') "/") eqn:Hends.
  - destruct (url_query r') as [q|] eqn:Hq.
    { rewrite (href_with_query r' q Hq Hfrag) in Hends; [discriminate |].
      apply Hnoslash. reflexivity. }
    destruct (well_formed_parts r' Hwf') as (dflt & Hd & Hh' & Hport & Hne & Hp & _ & _).
    destruct (exists_last Hne) as (p & seg & Hpath').
    assert (seg = "") as ->.
    { rewrite (href_without_query r' Hq Hfrag), Hpath', path_string_snoc in Hends.
      rewrite <- append_assoc, endsWith_append_cons in Hends.
      rewrite Hpath' in Hp. apply forallb_snoc in Hp as [_ Hseg].
      rewrite (segment_not_ending_in_slash seg Hseg) in Hends.
      destruct seg; [reflexivity | discriminate]. }
    assert (URL_href r' = (href_prefix r' +:+ path_string p) +:+ "/") as Hhref.
    { rewrite (href_without_query r' Hq Hfrag), Hpath', path_string_snoc, append_assoc.
      reflexivity. }
    rewrite Hhref.
    change (slice_0_minus1 ((href_prefix r' +:+ path_string p) +:+ "/"))
      with (slice_0_minus1 ((href_prefix r' +:+ path_string p) +:+ String "/" "")).
    rewrite slice_append_cons. simpl slice_0_minus1. rewrite append_nil_r.
    destruct p as [|x p].
    + exists r'. simpl path_string. rewrite append_nil_r.
      rewrite (validateUrl_bare r' Hwf' Hproto' Hpath' Hq Hfrag).
      rewrite Hpath. repeat split; try assumption; reflexivity.
    + set (r'' := mkURL (url_scheme r') (url_host r') (url_port r') (x :: p) None None).
      assert (well_formed r'' = true) as Hwf''.
      { rewrite Hpath' in Hp. apply forallb_snoc in Hp as [Hp _].
        apply (well_formed_intro r'' dflt); simpl; try assumption; try reflexivity.
        discriminate. }
      assert (URL_href r'' = href_prefix r' +:+ path_string (x :: p)) as Hhref''.
      { rewrite (href_without_query r''); reflexivity. }
      rewrite <- Hhref''. exists r''.
      rewrite (validateUrl_href r'' Hwf'' Hproto').
      repeat split; try assumption; try (simpl; rewrite Hq; reflexivity).
      simpl url_path. rewrite <- Hpath, Hpath'.
      rewrite (List.filter_app _ (x :: p) [""]). simpl. rewrite app_nil_r. reflexivity.
  - exists r'. rewrite (validateUrl_href r' Hwf' Hproto').
    rewrite Hpath. repeat split; try assumption; reflexivity.
Qed.


Lemma extractDomain_ok (u d : string) :
  extractDomain u = Ok d <-> exists r, validateUrl u = Ok r /\ url_host r = d.
Proof.
  unfold extractDomain, bind, URL_hostname. destruct (validateUrl u) as [r|m].
  - split.
    + intros Heq. injection Heq as <-. exists r. split; reflexivity.
    + intros (r' & Heq & <-). injection Heq as <-. reflexivity.
  - split; [discriminate | intros (r' & Heq & _); discriminate].
Qed.

Lemma isSameDomain_true (a b : string) :
  isSameDomain a b = true <-> exists d, extractDomain a = Ok d /\ extractDomain b = Ok d.
Proof.
  unfold isSameDomain, catch_false, bind.
  destruct (extractDomain a) as [da|], (extractDomain b) as [db|]; simpl.
  - rewrite String.eqb_eq. split.
    + intros ->. exists db. split; reflexivity.
    + intros (d & Ha & Hb). congruence.
  - split; [discriminate | intros (d & _ & Hb); discriminate].
  - split; [discriminate | intros (d & Ha & _); discriminate].
  - split; [discriminate | intros (d & Ha & _); discriminate].
Qed.

Lemma isValidUrl_true (u : string) : isValidUrl u = true <-> exists r, validateUrl u = Ok r.
Proof.
  unfold isValidUrl. destruct (validateUrl u) as [r|m].
  - split; [intros _; exists r; reflexivity | reflexivity].
  - split; [discriminate | intros (r & Hr); discriminate].
Qed.

Lemma getUrlDepth_path (u : string) (r : URL) :
  validateUrl u = Ok r ->
  getUrlDepth u = Ok (length (List.filter nonempty (url_path r))).
Proof.
  intros Hv. unfold getUrlDepth. rewrite Hv. unfold bind. f_equal. f_equal.
  destruct (validateUrl_ok u r Hv) as [Hparse _].
  pose proof (parse_well_formed u r Hparse) as Hwf.
  destruct (well_formed_parts r Hwf) as (dflt & _ & _ & _ & Hne & Hp & _ & _).
  unfold URL_pathname. destruct (url_path r) as [|seg rest]; [congruence |].
  simpl path_string. rewrite split_on_cons_sep, (split_path_string seg rest Hp).
  reflexivity.
Qed.

(** X1. A normalized URL is itself a valid URL, on the domain of the URL it
    comes from and at the same depth. *)
Theorem normalized_url_keeps_domain_and_depth `{Locale} (u n : string) :
  normalizeUrl u no_options = Ok n ->
  isValidUrl n = true
  /\ isSameDomain u n = true
  /\ extractDomain n = extractDomain u
  /\ getUrlDepth n = getUrlDepth u.
Proof.
  intros Hn.
  destruct (normalizeUrl_reparses u n Hn) as (r & r' & Hu & Hv & _ & Hh & _ & Hpath & _).
  assert (extractDomain n = extractDomain u) as Hdom.
  { unfold extractDomain. rewrite Hu, Hv. unfold bind, URL_hostname. rewrite Hh. reflexivity. }
  split; [apply isValidUrl_true; exists r'; exact Hv |].
  split; [| split; [exact Hdom |]].
  - apply isSameDomain_true. exists (url_host r).
    rewrite Hdom. split; apply extractDomain_ok; exists r; split; auto.
  - rewrite (getUrlDepth_path n r' Hv), (getUrlDepth_path u r Hu), Hpath. reflexivity.
Qed.

Lemma normalized_url_keeps_domain_and_depth_witness :
  isValidUrl "https://example.com/Path/?a=1&b=2" = true
  /\ isSameDomain "https://Example.com/Path/?b=2&a=1#frag" "https://example.com/Path/?a=1&b=2" = true
  /\ extractDomain "https://example.com/Path/?a=1&b=2"
     = extractDomain "https://Example.com/Path/?b=2&a=1#frag"
  /\ getUrlDepth "https://example.com/Path/?a=1&b=2"
     = getUrlDepth "https://Example.com/Path/?b=2&a=1#frag".
Proof.
  apply (@normalized_url_keeps_domain_and_depth code_unit_order
           "https://Example.com/Path/?b=2&a=1#frag" "https://example.com/Path/?a=1&b=2").
  vm_compute. reflexivity.
Defined.

(** X2. Two URLs with one normalized form (the URLs that deduplication merges)
    are on the same domain and at the same depth. *)
Theorem same_key_same_domain_and_depth `{Locale} (a b n : string) :
  normalizeUrl a no_options = Ok n -> normalizeUrl b no_options = Ok n ->
  isSameDomain a b = true /\ getUrlDepth a = getUrlDepth b.
Proof.
  intros Ha Hb.
  destruct (normalizeUrl_reparses a n Ha) as (ra & ra' & Hua & Hva & _ & Hha & _ & Hpa & _).
  destruct (normalizeUrl_reparses b n Hb) as (rb & rb' & Hub & Hvb & _ & Hhb & _ & Hpb & _).
  rewrite Hva in Hvb. injection Hvb as <-.
  split.
  - apply isSameDomain_true. exists (url_host ra').
    split; apply extractDomain_ok; [exists ra | exists rb]; split; auto.
  - rewrite (getUrlDepth_path a ra Hua), (getUrlDepth_path b rb Hub), <- Hpa, <- Hpb.
    reflexivity.
Qed.

Lemma same_key_same_domain_and_depth_witness :
  isSameDomain "https://a.com/x/" "https://A.COM/x#top" = true
  /\ getUrlDepth "https://a.com/x/" = getUrlDepth "https://A.COM/x#top".
Proof.
  apply (@same_key_same_domain_and_depth code_unit_order
           "https://a.com/x/" "https://A.COM/x#top" "https://a.com/x");
    vm_compute; reflexivity.
Defined.

(** *** Suffixes, and the labels of a domain *)





Lemma endsWith_string_spec (s t : string) :
  endsWith_string s t = true <-> exists p, s = p +:+ t.
Proof.
  unfold endsWith_string. split.
  - intros Hends. apply andb_true_iff in Hends as [Hle Heq].
    apply Nat.leb_le in Hle. apply String.eqb_eq in Heq.
    exists (String.substring 0 (String.length s - String.length t) s).
    pose proof (substring_split s (String.length s - String.length t)) as Hsplit.
    replace (String.length s - (String.length s - String.length t)) with (String.length t)
      in Hsplit by lia.
    rewrite Heq in Hsplit. apply Hsplit. lia.
  - intros (p & ->). rewrite length_append. apply andb_true_iff. split.
    + apply Nat.leb_le. lia.
    + apply String.eqb_eq.
      replace (String.length p + String.length t - String.length t) with (String.length p) by lia.
      rewrite substring_skip. apply substring_all.
Qed.

Lemma split_on_app_sep (d : ascii) (a b : string) :
  split_on d (a +:+ String d b) = split_on d a ++ split_on d b.
Proof.
  induction a as [|c a IH].
  - rewrite append_nil_l. simpl. rewrite Ascii.eqb_refl. reflexivity.
  - rewrite append_cons. simpl. destruct (Ascii.eqb c d).
    + rewrite IH. reflexivity.
    + rewrite IH. pose proof (split_on_nonempty d a) as Hne.
      destruct (split_on d a) as [|hd tl]; [congruence | reflexivity].
Qed.

Lemma slice_last_two {A} (l : list A) :
  Array_slice l (Num (inject_Z (-2))) None = drop (length l - 2) l.
Proof.
  unfold Array_slice, relative_index.
  change (to_integer (inject_Z (-2))) with (-2)%Z. cbv iota beta zeta.
  change (-2 <? 0)%Z with true. cbv iota.
  replace (Z.to_nat (Z.max (Z.of_nat (length l) + -2) 0)) with (length l - 2) by lia.
  apply take_ge. rewrite length_drop. lia.
Qed.

Lemma extractRootDomain_ok (u d : string) :
  extractDomain u = Ok d ->
  extractRootDomain u
  = Ok (if (2 <=? length (split_on "." d))%nat
        then Array_join "." (drop (length (split_on "." d) - 2) (split_on "." d))
        else d).
Proof.
  intros Hd. unfold extractRootDomain. rewrite Hd. unfold bind.
  rewrite slice_last_two. destruct (2 <=? length (split_on "." d))%nat; reflexivity.
Qed.

Lemma isSameRootDomain_true (a b : string) :
  isSameRootDomain a b = true
  <-> exists d, extractRootDomain a = Ok d /\ extractRootDomain b = Ok d.
Proof.
  unfold isSameRootDomain, catch_false, bind.
  destruct (extractRootDomain a) as [da|], (extractRootDomain b) as [db|]; simpl.
  - rewrite String.eqb_eq. split.
    + intros ->. exists db. split; reflexivity.
    + intros (d & Ha & Hb). congruence.
  - split; [discriminate | intros (d & _ & Hb); discriminate].
  - split; [discriminate | intros (d & Ha & _); discriminate].
  - split; [discriminate | intros (d & Ha & _); discriminate].
Qed.

Lemma isSubdomain_true (a b : string) :
  isSubdomain a b = true
  <-> exists da db x, extractDomain a = Ok da /\ extractDomain b = Ok db
                      /\ da <> db /\ da = x +:+ String "." db.
Proof.
  unfold isSubdomain, catch_false, bind.
  destruct (extractDomain a) as [da|], (extractDomain b) as [db|]; simpl.
  - rewrite andb_true_iff, negb_true_iff, String.eqb_neq, endsWith_string_spec. split.
    + intros [Hne (x & Hx)]. exists da, db, x. repeat split; assumption.
    + intros (da' & db' & x & Ha & Hb & Hne & Hx).
      injection Ha as <-. injection Hb as <-. split; [exact Hne | exists x; exact Hx].
  - split; [discriminate | intros (? & ? & ? & _ & Hb & _); discriminate].
  - split; [discriminate | intros (? & ? & ? & Ha & _); discriminate].
  - split; [discriminate | intros (? & ? & ? & Ha & _); discriminate].
Qed.

(** X3. [isSameDomain] is an equivalence on the valid URLs, and [false] as
    soon as one of its arguments is not a valid URL. *)
Theorem isSameDomain_is_an_equivalence_on_valid_urls (a b c : string) :
  isSameDomain a a = isValidUrl a
  /\ isSameDomain a b = isSameDomain b a
  /\ (isSameDomain a b = true -> isSameDomain b c = true -> isSameDomain a c = true)
  /\ (isValidUrl a = false -> isSameDomain a b = false /\ isSameDomain b a = false).
Proof.
  split; [| split; [| split]].
  - unfold isSameDomain, isValidUrl, extractDomain, bind, catch_false.
    destruct (validateUrl a); [apply String.eqb_refl | reflexivity].
  - unfold isSameDomain, catch_false, bind.
    destruct (extractDomain a), (extractDomain b); try reflexivity. apply String.eqb_sym.
  - rewrite !isSameDomain_true. intros (d & Ha & Hb) (d' & Hb' & Hc).
    exists d. split; [exact Ha | congruence].
  - unfold isSameDomain, isValidUrl, extractDomain, bind, catch_false.
    destruct (validateUrl a); [discriminate |]. intros _.
    destruct (validateUrl b); split; reflexivity.
Qed.

(** X4. [isSubdomain] is a strict order on the valid URLs: no URL is a
    subdomain of a URL of its own domain, two URLs are never subdomains of
    each other, and a subdomain of a subdomain is a subdomain. *)
Theorem isSubdomain_is_a_strict_order (a b c : string) :
  (isSubdomain a b = true -> isSameDomain a b = false /\ isSubdomain b a = false)
  /\ (isSubdomain a b = true -> isSubdomain b c = true -> isSubdomain a c = true)
  /\ isSubdomain a a = false.
Proof.
  assert (forall x y, isSubdomain x y = true -> isSameDomain x y = false) as Hirr.
  { intros x y Hs. apply isSubdomain_true in Hs as (dx & dy & p & Hx & Hy & Hne & _).
    apply not_true_is_false. intros Hsame. apply isSameDomain_true in Hsame as (d & Hx' & Hy').
    congruence. }
  split; [| split].
  - intros Hab. split; [apply Hirr; exact Hab |].
    apply not_true_is_false. intros Hba.
    apply isSubdomain_true in Hab as (da & db & x & Ha & Hb & _ & Hx).
    apply isSubdomain_true in Hba as (db' & da' & y & Hb' & Ha' & _ & Hy).
    rewrite Ha in Ha'. injection Ha' as <-. rewrite Hb in Hb'. injection Hb' as <-.
    apply (f_equal String.length) in Hx, Hy. rewrite length_append in Hx, Hy.
    simpl in Hx, Hy. lia.
  - intros Hab Hbc.
    apply isSubdomain_true in Hab as (da & db & x & Ha & Hb & _ & Hx).
    apply isSubdomain_true in Hbc as (db' & dc & y & Hb' & Hc & _ & Hy).
    rewrite Hb in Hb'. injection Hb' as <-.
    apply isSubdomain_true. exists da, dc, (x +:+ String "." y).
    split; [exact Ha |]. split; [exact Hc |]. split.
    + intros Heq. subst. apply (f_equal String.length) in Heq.
      rewrite !length_append in Heq. simpl in Heq. rewrite length_append in Heq.
      simpl in Heq. lia.
    + rewrite Hx, Hy, append_assoc, append_cons. reflexivity.
  - apply not_true_is_false. intros Haa. pose proof (Hirr a a Haa) as Hsame.
    apply isSubdomain_true in Haa as (da & db & x & Ha & Hb & Hne & _). congruence.
Qed.

Lemma split_on_single (c : ascii) (s : string) :
  length (split_on c s) < 2 -> split_on c s = [s].
Proof.
  induction s as [|x s IH]; [reflexivity |]. simpl.
  destruct (Ascii.eqb x c).
  - pose proof (split_on_nonempty c s). destruct (split_on c s); simpl; [congruence | lia].
  - pose proof (split_on_nonempty c s) as Hne.
    destruct (split_on c s) as [|hd tl] eqn:Hs; [congruence |]. simpl. intros Hlen.
    assert (hd :: tl = [s]) as Heq by (apply IH; simpl; lia).
    injection Heq as -> ->. reflexivity.
Qed.

(** X5. URLs of one domain have one root domain.  A subdomain has the root
    domain of its parent when the domain of the parent has at least two
    labels, and only then: under a parent of one label, a subdomain never
    has the root domain of the parent. *)
Theorem subdomain_shares_root_domain (u p d : string) :
  extractDomain p = Ok d ->
  (isSameDomain u p = true -> isSameRootDomain u p = true)
  /\ (isSubdomain u p = true ->
      (isSameRootDomain u p = true <-> 2 <= length (split_on "." d))).
Proof.
  intros Hp. split.
  - intros Hsame. apply isSameDomain_true in Hsame as (d' & Hu & Hp').
    rewrite Hp in Hp'. injection Hp' as <-.
    apply isSameRootDomain_true. eexists.
    split; [apply extractRootDomain_ok; exact Hu | apply extractRootDomain_ok; exact Hp].
  - intros Hsub. apply isSubdomain_true in Hsub as (du & dp & x & Hu & Hp' & _ & Hx).
    rewrite Hp in Hp'. injection Hp' as <-.
    rewrite isSameRootDomain_true.
    rewrite (extractRootDomain_ok u du Hu), (extractRootDomain_ok p d Hp).
    rewrite Hx, split_on_app_sep, length_app.
    pose proof (split_on_nonempty "." x) as Hx1. pose proof (split_on_nonempty "." d) as Hd1.
    assert (0 < length (split_on "." x)) as Hlx by (destruct (split_on "." x); [congruence | simpl; lia]).
    assert (0 < length (split_on "." d)) as Hld by (destruct (split_on "." d); [congruence | simpl; lia]).
    assert ((2 <=? length (split_on "." x) + length (split_on "." d))%nat = true) as ->
      by (apply Nat.leb_le; lia).
    split.
    + intros (root & Hu' & Hp'). rewrite <- Hp' in Hu'. clear Hp'. injection Hu' as Heq.
      destruct (Nat.leb_spec 2 (length (split_on "." d))) as [Hle|Hlt]; [exact Hle | exfalso].
      rewrite (split_on_single "." d Hlt) in Heq. simpl in Heq.
      destruct (exists_last Hx1) as (front & y & Hfront). rewrite Hfront in Heq.
      rewrite length_app in Heq. simpl in Heq.
      replace (length front + 1 + 1 - 2) with (length front) in Heq by lia.
      rewrite <- app_assoc, drop_app_length in Heq. unfold Array_join in Heq. simpl in Heq.
      apply (f_equal String.length) in Heq. rewrite !length_append in Heq. simpl in Heq. lia.
    + intros Hlabels. apply Nat.leb_le in Hlabels as Hl. rewrite Hl. eexists.
      split; [| reflexivity]. f_equal. f_equal. rewrite drop_app.
      replace (length (split_on "." x) + length (split_on "." d) - 2 - length (split_on "." x))
        with (length (split_on "." d) - 2) by lia.
      rewrite (drop_ge (split_on "." x)) by lia. reflexivity.
Qed.

Lemma subdomain_shares_root_domain_witness :
  isSameRootDomain "https://docs.example.com/a" "https://example.com" = true
  /\ isSameRootDomain "https://a.localhost" "https://localhost" <> true.
Proof.
  split.
  - refine (proj2 (proj2 (subdomain_shares_root_domain "https://docs.example.com/a"
                            "https://example.com" "example.com" _) _) _).
    + vm_compute. reflexivity.
    + vm_compute. reflexivity.
    + vm_compute. lia.
  - intros Hroot.
    refine (_ (proj1 (proj2 (subdomain_shares_root_domain "https://a.localhost"
                               "https://localhost" "localhost" _) _) Hroot)).
    + vm_compute. lia.
    + vm_compute. reflexivity.
    + vm_compute. reflexivity.
Defined.

(** *** Any options *)

Lemma normalizeUrl_shape `{Locale} (u : string) (o : NormalizeUrlOptions) (n : string) :
  normalizeUrl u o = Ok n ->
  exists r q f,
    validateUrl u = Ok r
    /\ well_formed (mkURL (url_scheme r) (url_host r) (url_port r) (url_path r) q f) = true
    /\ (default true (removeFragment o) = true -> f = None)
    /\ (default false (removeQueryParams o) = true -> q = None)
    /\ (n = URL_href (mkURL (url_scheme r) (url_host r) (url_port r) (url_path r) q f)
        \/ URL_href (mkURL (url_scheme r) (url_host r) (url_port r) (url_path r) q f)
           = n +:+ "/").
Proof.
  unfold normalizeUrl, bind. destruct (validateUrl u) as [r|] eqn:Hv; [|discriminate].
  destruct (validateUrl_ok u r Hv) as [Hparse _].
  pose proof (parse_well_formed u r Hparse) as Hwf.
  destruct (well_formed_parts r Hwf) as (dflt & Hd & Hh & Hport & Hne & Hp & Hq & Hf).
  destruct r as [scheme host port path query fragment]. simpl in Hd, Hh, Hport, Hne, Hp, Hq, Hf.
  cbv zeta.
  assert (forall R, url_host R = host ->
            (if default true (lowercase o)
             then URL_set_hostname R (toLowerCase (URL_hostname R)) else R) = R) as Hhost.
  { intros R HR. destruct (default true (lowercase o)); [| reflexivity].
    unfold URL_set_hostname, URL_hostname.
    rewrite HR, (toLowerCase_host host Hh), (parse_host_fixed host Hh), <- HR.
    destruct R; reflexivity. }
  rewrite (Hhost (mkURL scheme host port path query fragment) eq_refl). clear Hhost.
  set (f := if default true (removeFragment o) then None else fragment).
  assert ((if default true (removeFragment o)
           then URL_set_hash (mkURL scheme host port path query fragment) ""
           else mkURL scheme host port path query fragment)
          = mkURL scheme host port path query f) as ->.
  { unfold f. destruct (default true (removeFragment o)); reflexivity. }
  assert (fragment_wf f = true) as Hf'.
  { unfold f. destruct (default true (removeFragment o)); [reflexivity | exact Hf]. }
  assert (exists q,
             (if default false (removeQueryParams o)
              then URL_set_search (mkURL scheme host port path query f) ""
              else if default true (sortQueryParams o)
                      && truthy (URL_search (mkURL scheme host port path query f))
                   then URL_set_search (mkURL scheme host port path query f)
                          (URLSearchParams_toString
                             (sort_params (URLSearchParams_new
                                (URL_search (mkURL scheme host port path query f)))))
                   else mkURL scheme host port path query f)
             = mkURL scheme host port path q f
             /\ query_wf q = true
             /\ (default false (removeQueryParams o) = true -> q = None)) as (q & -> & Hq' & Hrq).
  { destruct (default false (removeQueryParams o)).
    { exists None. split; [reflexivity |]. split; reflexivity. }
    destruct (default true (sortQueryParams o)
              && truthy (URL_search (mkURL scheme host port path query f))) eqn:Hsort.
    2:{ exists query. split; [reflexivity |]. split; [exact Hq | discriminate]. }
    apply andb_true_iff in Hsort as [_ Hsearch].
    destruct query as [[|c q0]|]; try discriminate.
    change (URL_search (mkURL scheme host port path (Some (String c q0)) f))
      with (String "?" (String c q0)).
    change (URLSearchParams_new (String "?" (String c q0)))
      with (parse_urlencoded (String c q0)).
    destruct (sort_params (parse_urlencoded (String c q0))) as [|p l] eqn:Hs.
    { exists None. split; [reflexivity |]. split; [reflexivity | discriminate]. }
    exists (Some (URLSearchParams_toString (p :: l))).
    split; [| split; [| discriminate]].
    - apply (set_search_toString (mkURL scheme host port path (Some (String c q0)) f) (p :: l)).
      discriminate.
    - simpl. apply toString_supported. rewrite <- Hs. unfold sort_params.
      rewrite Array_sort_forallb. simpl in Hq. unfold query_supported in Hq.
      apply andb_true_iff in Hq as [_ Hq]. exact Hq. }
  intros Hn. injection Hn as <-.
  exists (mkURL scheme host port path query fragment), q, f. simpl.
  split; [reflexivity |]. split.
  { apply (well_formed_intro _ dflt); simpl; assumption. }
  split.
  { unfold f. intros ->. reflexivity. }
  split; [exact Hrq |].
  destruct (default true (removeTrailingSlash o)
            && endsWith (URL_toString (mkURL scheme host port path q f)) "/") eqn:Hstrip.
  - right. apply andb_true_iff in Hstrip as [_ Hends]. apply endsWith_slice. exact Hends.
  - left. reflexivity.
Qed.

Lemma forallb_slice (p : ascii -> bool) (s : string) :
  str_forallb p s = true -> str_forallb p (slice_0_minus1 s) = true.
Proof.
  induction s as [|c s IH]; [reflexivity |]. intros Hs. simpl in Hs.
  apply andb_true_iff in Hs as [Hc Hs].
  change (slice_0_minus1 (String c s))
    with (match s with EmptyString => EmptyString | String _ _ => String c (slice_0_minus1 s) end).
  destruct s; [reflexivity |]. simpl str_forallb at 1. rewrite Hc. apply IH. exact Hs.
Qed.

Lemma scheme_chars (scheme : string) (dflt : N) :
  default_port scheme = Some dflt -> str_forallb is_lower scheme = true.
Proof.
  intros Hd. destruct (default_port_cases scheme dflt Hd) as [->|[->|[->|[->| ->]]]]; reflexivity.
Qed.

Lemma is_lower_plain (c : ascii) :
  is_lower c = true -> negb (is_hash c) && negb (is_question c) = true.
Proof. by_char c. Qed.

Lemma authority_end_plain (c : ascii) :
  negb (is_authority_end c) = true -> negb (is_hash c) && negb (is_question c) = true.
Proof. by_char c. Qed.

Lemma path_char_plain (c : ascii) :
  path_char c = true -> negb (is_hash c) && negb (is_question c) = true.
Proof. by_char c. Qed.

Lemma plain_no_hash (c : ascii) :
  negb (is_hash c) && negb (is_question c) = true -> negb (is_hash c) = true.
Proof. by_char c. Qed.

Lemma plain_no_question (c : ascii) :
  negb (is_hash c) && negb (is_question c) = true -> negb (is_question c) = true.
Proof. by_char c. Qed.

(** The serialization up to the end of the path has neither [#] nor [?]. *)
Lemma href_before_query (r : URL) :
  well_formed r = true ->
  str_forallb (fun c => negb (is_hash c) && negb (is_question c))
    (url_scheme r +:+ "://" +:+ authority_string (url_host r) (url_port r)
     +:+ path_string (url_path r)) = true.
Proof.
  intros Hwf.
  destruct (well_formed_parts r Hwf) as (dflt & Hd & Hh & Hport & Hne & Hp & Hq & Hf).
  rewrite !forallb_append.
  rewrite (forallb_impl _ _ _ is_lower_plain (scheme_chars _ _ Hd)).
  rewrite (forallb_impl _ _ _ authority_end_plain (authority_string_chars _ (url_port r) Hh)).
  rewrite (forallb_impl _ _ _ path_char_plain (path_string_chars _ Hp)).
  reflexivity.
Qed.

Lemma href_split (r : URL) :
  URL_href r
  = (url_scheme r +:+ "://" +:+ authority_string (url_host r) (url_port r)
     +:+ path_string (url_path r))
    +:+ (query_string (url_query r) +:+ fragment_string (url_fragment r)).
Proof.
  unfold URL_href, tail_string, query_string, fragment_string.
  rewrite !append_assoc. reflexivity.
Qed.

(** X6. Unless the caller asks to keep the fragment, a normalized URL has no
    [#]; when the caller also asks to remove the query, it has no [?] either. *)
Theorem normalizeUrl_drops_fragment_and_query `{Locale}
  (u : string) (o : NormalizeUrlOptions) (n : string) :
  normalizeUrl u o = Ok n ->
  removeFragment o <> Some false ->
  str_forallb (fun c => negb (is_hash c)) n = true
  /\ (removeQueryParams o = Some true -> str_forallb (fun c => negb (is_question c)) n = true).
Proof.
  intros Hn Hkeep.
  destruct (normalizeUrl_shape u o n Hn) as (r & q & f & _ & Hwf & Hf & Hq & Hhref).
  assert (f = None) as ->.
  { apply Hf. destruct (removeFragment o) as [[|]|]; [reflexivity | congruence | reflexivity]. }
  pose proof (href_before_query _ Hwf) as Hplain.
  pose proof (href_split (mkURL (url_scheme r) (url_host r) (url_port r) (url_path r) q None))
    as Hs.
  cbn [url_scheme url_host url_port url_path url_query url_fragment fragment_string]
    in Hplain, Hs.
  rewrite append_nil_r in Hs.
  destruct (well_formed_parts _ Hwf) as (_ & _ & _ & _ & _ & _ & Hqwf & _). simpl in Hqwf.
  destruct (query_string_checks q Hqwf) as (_ & Hqhash & _).
  assert (forall p : ascii -> bool,
             str_forallb p (URL_href (mkURL (url_scheme r) (url_host r) (url_port r) (url_path r) q None))
             = true -> str_forallb p n = true) as Hprefix.
  { intros p Hp. destruct Hhref as [->|Heq]; [exact Hp |].
    rewrite Heq, forallb_append in Hp. apply andb_true_iff in Hp as [Hp _]. exact Hp. }
  split.
  - apply Hprefix. rewrite Hs, forallb_append, Hqhash, andb_true_r.
    eapply forallb_impl; [apply plain_no_hash | exact Hplain].
  - intros Hrq. assert (q = None) as -> by (apply Hq; rewrite Hrq; reflexivity).
    apply Hprefix. cbn [query_string] in Hs. rewrite append_nil_r in Hs. rewrite Hs.
    eapply forallb_impl; [apply plain_no_question | exact Hplain].
Qed.

Lemma normalizeUrl_drops_fragment_and_query_witness :
  str_forallb (fun c => negb (is_hash c)) "https://example.com/Path/?a=1&b=2" = true.
Proof.
  refine (proj1 (@normalizeUrl_drops_fragment_and_query code_unit_order
                   scenario_url no_options "https://example.com/Path/?a=1&b=2" _ _)).
  - vm_compute. reflexivity.
  - discriminate.
Defined.

(** *** The final slash kept *)

Lemma normalizeUrl_keep_slash `{Locale} (u : string) :
  normalizeUrl u keep_slash = bind (validateUrl u) (fun r => Ok (URL_href (default_steps r))).
Proof. reflexivity. Qed.

(** X7. With [removeTrailingSlash: false], normalization is idempotent on
    every URL, and the default normalization is this one less one final slash. *)
Theorem normalizeUrl_keeping_the_slash_is_idempotent `{Locale} (u n : string) :
  consistent localeCompare ->
  normalizeUrl u keep_slash = Ok n ->
  normalizeUrl n keep_slash = Ok n
  /\ normalizeUrl u no_options = Ok (if endsWith n "/" then slice_0_minus1 n else n).
Proof.
  intros Hcons. rewrite normalizeUrl_keep_slash, normalizeUrl_default. unfold bind.
  destruct (validateUrl u) as [r|] eqn:Hv; [|discriminate].
  intros Hn. injection Hn as <-.
  destruct (validateUrl_ok u r Hv) as [Hparse Hproto].
  pose proof (parse_well_formed u r Hparse) as Hwf.
  destruct (default_steps_canonical Hcons r Hwf) as (Hwf' & Hfrag & Hcanon & Hscheme).
  split; [| reflexivity].
  assert (existsb (String.eqb (URL_protocol (default_steps r))) ["http:"; "https:"] = true)
    as Hproto'.
  { unfold URL_protocol in *. rewrite Hscheme. exact Hproto. }
  rewrite normalizeUrl_keep_slash, (validateUrl_href _ Hwf' Hproto'). unfold bind.
  rewrite (default_steps_fixed _ Hwf' Hfrag Hcanon). reflexivity.
Qed.

Lemma normalizeUrl_keeping_the_slash_is_idempotent_witness :
  normalizeUrl "https://example.com//" keep_slash = Ok "https://example.com//"
  /\ normalizeUrl "https://example.com//" no_options = Ok "https://example.com/".
Proof.
  apply (@normalizeUrl_keeping_the_slash_is_idempotent code_unit_order
           "https://example.com//" "https://example.com//" compare_code_units_consistent).
  vm_compute. reflexivity.
Defined.

(** *** Deduplication, again *)

Lemma dedup_loop_fixed `{Locale} (options : NormalizeUrlOptions)
  (urls : list string) (seen : gset string) :
  (forall u, u ∈ urls -> exists n, normalizeUrl u options = Ok n /\ n ∉ seen) ->
  (forall i j u v, urls !! i = Some u -> urls !! j = Some v ->
                   normalizeUrl u options = normalizeUrl v options -> i = j) ->
  dedup_loop options urls seen [] = urls.
Proof.
  revert seen. induction urls as [|x urls IH]; intros seen Hok Hdistinct; [reflexivity |].
  rewrite UrlFacts.dedup_loop_cons.
  destruct (Hok x) as (n & Hx & Hfresh); [left |]. rewrite Hx.
  destruct (decide (n ∈ seen)); [contradiction |]. f_equal. apply IH.
  - intros u Hu. destruct (Hok u) as (k & Hk & Hks); [right; exact Hu |].
    exists k. split; [exact Hk |]. intros Hin. apply elem_of_union in Hin as [Hin|Hin]; [| contradiction].
    apply elem_of_singleton in Hin. subst k.
    apply list_elem_of_lookup_1 in Hu as [j Hj].
    assert (0 = S j) as Hbad by (apply (Hdistinct 0 (S j) x u); [reflexivity | exact Hj | congruence]).
    discriminate.
  - intros i j a b Hi Hj Hab. assert (S i = S j) as Heq by (apply (Hdistinct _ _ a b); assumption).
    lia.
Qed.

(** X8. Deduplicating a list that has been deduplicated changes nothing, and a
    list of URLs that normalize to pairwise different forms is returned as it
    is. *)
Theorem deduplicateUrls_is_idempotent `{Locale} (L : list string) (options : NormalizeUrlOptions) :
  deduplicateUrls (deduplicateUrls L options) options = deduplicateUrls L options
  /\ ((forall u, u ∈ L -> is_ok (normalizeUrl u options) = true) ->
      (forall i j u v, L !! i = Some u -> L !! j = Some v ->
                       normalizeUrl u options = normalizeUrl v options -> i = j) ->
      deduplicateUrls L options = L).
Proof.
  assert (forall M : list string,
             (forall u, u ∈ M -> is_ok (normalizeUrl u options) = true) ->
             (forall i j u v, M !! i = Some u -> M !! j = Some v ->
                              normalizeUrl u options = normalizeUrl v options -> i = j) ->
             deduplicateUrls M options = M) as Hfixed.
  { intros M Hok Hdistinct. unfold deduplicateUrls. apply dedup_loop_fixed; [| exact Hdistinct].
    intros u Hu. specialize (Hok u Hu). destruct (normalizeUrl u options) as [n|]; [| discriminate].
    exists n. split; [reflexivity |]. intros Hin. inversion Hin. }
  split; [| apply Hfixed].
  apply Hfixed.
  - intros u Hu. unfold deduplicateUrls in Hu.
    destruct (UrlFacts.dedup_loop_fresh options _ _ _ Hu) as (n & -> & _). reflexivity.
  - intros i j u v. unfold deduplicateUrls. apply UrlFacts.dedup_loop_distinct.
Qed.

(** *** Errors *)

Lemma validateUrl_message (u m : string) :
  validateUrl u = Throw m ->
  m = "Invalid URL: " +:+ u +:+ " - " +:+ URL_TypeError
  \/ m = "Invalid URL: " +:+ u +:+ " - Only HTTP and HTTPS protocols are supported".
Proof.
  unfold validateUrl. destruct (URL_parse u) as [r|].
  - destruct (existsb _ _); [discriminate |]. intros Hm. injection Hm as <-. right. reflexivity.
  - intros Hm. injection Hm as <-. left. reflexivity.
Qed.

(** X9. Every function that takes a URL fails exactly on the strings that
    [validateUrl] rejects, and with its message, which names the string;
    [isValidUrl] tells the two cases apart without failing. *)
Theorem url_functions_fail_like_validateUrl `{Locale} (u : string) (o : NormalizeUrlOptions) :
  match validateUrl u with
  | Ok _ =>
      isValidUrl u = true
      /\ is_ok (normalizeUrl u o) = true /\ is_ok (extractDomain u) = true
      /\ is_ok (extractRootDomain u) = true /\ is_ok (getUrlDepth u) = true
  | Throw m =>
      isValidUrl u = false
      /\ normalizeUrl u o = Throw m /\ extractDomain u = Throw m
      /\ extractRootDomain u = Throw m /\ getUrlDepth u = Throw m
      /\ exists reason, m = "Invalid URL: " +:+ u +:+ " - " +:+ reason
  end.
Proof.
  destruct (validateUrl u) as [r|m] eqn:Hv.
  - unfold isValidUrl, normalizeUrl, extractRootDomain, extractDomain, getUrlDepth.
    rewrite Hv. unfold bind.
    repeat split. destruct (2 <=? _)%nat; reflexivity.
  - unfold isValidUrl, normalizeUrl, extractRootDomain, extractDomain, getUrlDepth.
    rewrite Hv. unfold bind. repeat split.
    destruct (validateUrl_message u m Hv) as [->| ->]; eexists; reflexivity.
Qed.

(** *** The parameters of the query *)

Lemma sort_insert_perm {A} (cmp : A -> A -> Z) (x : A) (l : list A) :
  sort_insert cmp x l ≡ₚ x :: l.
Proof.
  induction l as [|y l IH]; [reflexivity |]. simpl.
  destruct (cmp x y <=? 0)%Z; [reflexivity |]. rewrite IH. apply Permutation_swap.
Qed.

Lemma Array_sort_perm {A} (cmp : A -> A -> Z) (l : list A) : Array_sort cmp l ≡ₚ l.
Proof.
  induction l as [|x l IH]; [reflexivity |]. simpl. rewrite sort_insert_perm, IH. reflexivity.
Qed.

(** X10. The parameters of the query of a normalized URL are the parameters of
    the URL it comes from, every one of them, in the order that the stable
    sort on the names gives; they are in the order of the names when the
    collation is consistent. *)
Theorem normalizeUrl_sorts_the_parameters `{Locale} (u n : string) :
  normalizeUrl u no_options = Ok n ->
  exists r r',
    validateUrl u = Ok r /\ validateUrl n = Ok r'
    /\ URLSearchParams_new (URL_search r') = sort_params (URLSearchParams_new (URL_search r))
    /\ URLSearchParams_new (URL_search r') ≡ₚ URLSearchParams_new (URL_search r)
    /\ (consistent localeCompare ->
        sorted (fun a b => localeCompare (fst a) (fst b)) (URLSearchParams_new (URL_search r'))).
Proof.
  intros Hn.
  destruct (normalizeUrl_reparses u n Hn) as (r & r' & Hu & Hv & _ & _ & _ & _ & Hq).
  exists r, r'. split; [exact Hu |]. split; [exact Hv |].
  assert (URLSearchParams_new (URL_search r')
          = sort_params (URLSearchParams_new (URL_search r))) as Heq.
  { destruct (validateUrl_ok u r Hu) as [Hparse _].
    pose proof (parse_well_formed u r Hparse) as Hwf.
    rewrite (default_steps_well_formed r Hwf) in Hq. simpl in Hq.
    destruct (well_formed_parts r Hwf) as (_ & _ & _ & _ & _ & _ & Hqwf & _).
    unfold URL_search. rewrite Hq.
    destruct (url_query r) as [[|c q]|]; try reflexivity.
    change (URLSearchParams_new (String "?" (String c q))) with (parse_urlencoded (String c q)).
    destruct (sort_params (parse_urlencoded (String c q))) as [|p l] eqn:Hs; [reflexivity |].
    assert (forallb ascii_pair (p :: l) = true) as Hascii.
    { rewrite <- Hs. unfold sort_params. rewrite Array_sort_forallb.
      simpl in Hqwf. unfold query_supported in Hqwf.
      apply andb_true_iff in Hqwf as [_ Hqwf]. exact Hqwf. }
    destruct (URLSearchParams_toString (p :: l)) as [|c' q'] eqn:Hts.
    - apply toString_empty in Hts. discriminate.
    - change (URLSearchParams_new (String "?" (String c' q')))
        with (parse_urlencoded (String c' q')).
      rewrite <- Hts. apply parse_toString. exact Hascii. }
  split; [exact Heq |]. split.
  - rewrite Heq. unfold sort_params. apply Array_sort_perm.
  - intros Hcons. rewrite Heq. unfold sort_params. apply Array_sort_sorted.
    intros a b. apply Hcons.
Qed.

Lemma normalizeUrl_sorts_the_parameters_witness :
  exists r r',
    validateUrl scenario_url = Ok r /\ validateUrl "https://example.com/Path/?a=1&b=2" = Ok r'
    /\ URLSearchParams_new (URL_search r') = sort_params (URLSearchParams_new (URL_search r))
    /\ URLSearchParams_new (URL_search r') ≡ₚ URLSearchParams_new (URL_search r)
    /\ (consistent localeCompare ->
        sorted (fun a b => localeCompare (fst a) (fst b)) (URLSearchParams_new (URL_search r'))).
Proof.
  apply (@normalizeUrl_sorts_the_parameters code_unit_order scenario_url
           "https://example.com/Path/?a=1&b=2").
  vm_compute. reflexivity.
Defined.

(** *** Root domains *)

(** X11. The root domain of a URL is made of the last two labels of its
    domain, whatever they are, and is the domain itself when it has one label. *)
Theorem extractRootDomain_is_the_last_two_labels (u d : string) :
  extractDomain u = Ok d ->
  (forall front a b, split_on "." d = front ++ [a; b] ->
                     extractRootDomain u = Ok (a +:+ "." +:+ b))
  /\ (forall a, split_on "." d = [a] -> extractRootDomain u = Ok d).
Proof.
  intros Hd. rewrite (extractRootDomain_ok u d Hd). split.
  - intros front a b ->. rewrite length_app. simpl length.
    assert ((2 <=? length front + 2)%nat = true) as -> by (apply Nat.leb_le; lia).
    replace (length front + 2 - 2) with (length front) by lia.
    rewrite drop_app_length. reflexivity.
  - intros a ->. reflexivity.
Qed.

Lemma extractRootDomain_is_the_last_two_labels_witness :
  extractRootDomain "https://www.example.co.uk/about" = Ok "co.uk".
Proof.
  apply (proj1 (extractRootDomain_is_the_last_two_labels "https://www.example.co.uk/about"
                  "www.example.co.uk" ltac:(vm_compute; reflexivity))
           ["www"; "example"] "co" "uk").
  vm_compute. reflexivity.
Defined.

(** *** The pattern filter, whatever the flags *)

Lemma filter_st_sublist {A} (f : A -> Store -> bool * Store) (l : list A) (σ : Store) :
  sublist (fst (filter_st f l σ)) l.
Proof.
  revert σ. induction l as [|x l IH]; intros σ; simpl; [constructor |].
  destruct (f x σ) as [keep σ1]. specialize (IH σ1).
  destruct (filter_st f l σ1) as [kept σ2]. simpl in *.
  destruct keep; [apply sublist_skip | apply sublist_cons]; exact IH.
Qed.

(** X12. The filter returns a subsequence of the URLs it is given, whatever
    the patterns and their flags; a pattern list that is left out or empty
    filters nothing, so that with no pattern at all every URL is kept. *)
Theorem filterUrlsByPattern_keeps_order (urls : list string)
  (includePatterns excludePatterns : option (list RegExp)) (σ : Store) :
  sublist (fst (filterUrlsByPattern urls includePatterns excludePatterns σ)) urls
  /\ (default [] includePatterns = [] -> default [] excludePatterns = [] ->
      filterUrlsByPattern urls includePatterns excludePatterns σ = (urls, σ))
  /\ (default [] includePatterns = [] ->
      filterUrlsByPattern urls includePatterns excludePatterns σ
      = filterUrlsByPattern urls None excludePatterns σ).
Proof.
  split; [apply filter_st_sublist |]. split.
  - intros Hinc Hexc. unfold filterUrlsByPattern.
    rewrite (FilterFacts.filter_st_pure _ (fun _ => true)).
    + f_equal. induction urls as [|u urls IH]; [reflexivity | simpl; rewrite IH; reflexivity].
    + intros x τ. destruct includePatterns as [[|? ?]|], excludePatterns as [[|? ?]|];
        try discriminate; reflexivity.
  - intros Hinc. destruct includePatterns as [[|? ?]|]; try discriminate; reflexivity.
Qed.

Lemma filterUrlsByPattern_keeps_order_witness :
  filterUrlsByPattern blog_urls (Some []) (Some []) fresh = (blog_urls, fresh).
Proof.
  apply (proj1 (proj2 (filterUrlsByPattern_keeps_order blog_urls (Some []) (Some []) fresh)));
    reflexivity.
Defined.

End DomainFacts.

(** ** Content utilities: words, excerpts, languages *)

Module TextFacts.
Import JS WHATWG Types ContentUtils Pieces StringFacts.

(** *** Pieces and words *)

Lemma split_ws_space_head (s : string) :
  starts_with_space s = true -> first_piece s = "".
Proof.
  unfold first_piece. induction s as [|c s IH]; [discriminate |].
  simpl. intros Hc. rewrite Hc. destruct (starts_with_space s) eqn:Hs; [apply IH; reflexivity | reflexivity].
Qed.

Lemma words_pieces (s : string) :
  words s = (if nonempty (first_piece s) then [first_piece s] else []) ++ later_words s.
Proof.
  unfold words, first_piece, later_words. pose proof (split_ws_nonempty s) as Hne.
  destruct (split_ws s) as [|hd tl]; [congruence |]. simpl.
  destruct (nonempty hd); reflexivity.
Qed.

Lemma pieces_nil : first_piece "" = "" /\ later_words "" = [].
Proof. split; reflexivity. Qed.

Lemma pieces_space (c : ascii) (s : string) :
  is_space c = true ->
  first_piece (String c s) = "" /\ later_words (String c s) = words s.
Proof.
  intros Hc. unfold first_piece, later_words. simpl. rewrite Hc.
  destruct (starts_with_space s) eqn:Hs.
  - pose proof (split_ws_space_head s Hs) as Hhd. pose proof (words_pieces s) as Hw.
    rewrite Hhd in Hw. simpl in Hw. unfold first_piece in Hhd. unfold later_words in Hw.
    split; [exact Hhd | symmetry; exact Hw].
  - split; reflexivity.
Qed.

Lemma pieces_letter (c : ascii) (s : string) :
  is_space c = false ->
  first_piece (String c s) = String c (first_piece s)
  /\ later_words (String c s) = later_words s.
Proof.
  intros Hc. unfold first_piece, later_words. simpl. rewrite Hc.
  pose proof (split_ws_nonempty s) as Hne.
  destruct (split_ws s) as [|hd tl]; [congruence |]. split; reflexivity.
Qed.

Lemma words_space (c : ascii) (s : string) : is_space c = true -> words (String c s) = words s.
Proof.
  intros Hc. rewrite (words_pieces (String c s)).
  destruct (pieces_space c s Hc) as [-> ->]. reflexivity.
Qed.

Lemma words_letter (c : ascii) (s : string) :
  is_space c = false -> words (String c s) = String c (first_piece s) :: later_words s.
Proof.
  intros Hc. rewrite (words_pieces (String c s)).
  destruct (pieces_letter c s Hc) as [-> ->]. reflexivity.
Qed.

Lemma countWords_words (s : string) : countWords s = length (words s).
Proof. destruct s; reflexivity. Qed.

(** *** Trimming *)

Lemma words_trimStart (s : string) : words (trimStart s) = words s.
Proof.
  induction s as [|c s IH]; [reflexivity |]. simpl.
  destruct (is_space c) eqn:Hc; [| reflexivity].
  rewrite IH, (words_space c s Hc). reflexivity.
Qed.

Lemma trimEnd_cons (c : ascii) (s : string) :
  trimEnd (String c s)
  = match trimEnd s with
    | EmptyString => if is_space c then EmptyString else String c EmptyString
    | t => String c t
    end.
Proof. reflexivity. Qed.

Lemma pieces_trimEnd (s : string) :
  first_piece (trimEnd s) = first_piece s /\ later_words (trimEnd s) = later_words s.
Proof.
  induction s as [|c s [IHf IHl]]; [split; reflexivity |].
  assert (words (trimEnd s) = words s) as IHw by (rewrite !words_pieces, IHf, IHl; reflexivity).
  rewrite trimEnd_cons. destruct (trimEnd s) as [|x t] eqn:Ht.
  - destruct (is_space c) eqn:Hc.
    + destruct (pieces_space c s Hc) as [-> ->]. rewrite <- IHw. split; reflexivity.
    + destruct (pieces_letter c s Hc) as [-> ->]. rewrite <- IHf, <- IHl.
      destruct (pieces_letter c "" Hc) as [-> ->]. split; reflexivity.
  - destruct (is_space c) eqn:Hc.
    + destruct (pieces_space c s Hc) as [-> ->].
      destruct (pieces_space c (String x t) Hc) as [-> ->]. rewrite IHw. split; reflexivity.
    + destruct (pieces_letter c s Hc) as [-> ->].
      destruct (pieces_letter c (String x t) Hc) as [-> ->]. rewrite IHf, IHl. split; reflexivity.
Qed.

Lemma words_trimEnd (s : string) : words (trimEnd s) = words s.
Proof. destruct (pieces_trimEnd s) as [Hf Hl]. rewrite !words_pieces, Hf, Hl. reflexivity. Qed.

Lemma words_trim (s : string) : words (trim s) = words s.
Proof. unfold trim. rewrite words_trimEnd, words_trimStart. reflexivity. Qed.

Lemma trimStart_no_space (s : string) : starts_with_space (trimStart s) = false.
Proof.
  induction s as [|c s IH]; [reflexivity |]. simpl.
  destruct (is_space c) eqn:Hc; [exact IH | simpl; exact Hc].
Qed.

Lemma trimStart_fixed (s : string) : starts_with_space s = false -> trimStart s = s.
Proof. destruct s as [|c s]; [reflexivity |]. simpl. intros ->. reflexivity. Qed.

Lemma trimEnd_head (s : string) : starts_with_space s = false -> starts_with_space (trimEnd s) = false.
Proof.
  destruct s as [|c s]; [reflexivity |]. intros Hc. simpl in Hc.
  rewrite trimEnd_cons. destruct (trimEnd s); [rewrite Hc |]; simpl; exact Hc.
Qed.

Lemma trimEnd_no_space (s : string) : ends_with_space (trimEnd s) = false.
Proof.
  induction s as [|c s IH]; [reflexivity |]. rewrite trimEnd_cons.
  destruct (trimEnd s) as [|x t].
  - destruct (is_space c) eqn:Hc; [reflexivity | simpl; exact Hc].
  - exact IH.
Qed.

Lemma trimEnd_fixed (s : string) : ends_with_space s = false -> trimEnd s = s.
Proof.
  induction s as [|c s IH]; [reflexivity |]. rewrite trimEnd_cons.
  destruct s as [|x t].
  - simpl. intros ->. reflexivity.
  - intros Hs. change (ends_with_space (String c (String x t))) with (ends_with_space (String x t)) in Hs.
    rewrite (IH Hs). reflexivity.
Qed.

Lemma trim_shape (s : string) :
  starts_with_space (trim s) = false /\ ends_with_space (trim s) = false.
Proof.
  unfold trim. split; [apply trimEnd_head, trimStart_no_space | apply trimEnd_no_space].
Qed.

Lemma trim_fixed (s : string) :
  starts_with_space s = false -> ends_with_space s = false -> trim s = s.
Proof. intros Hs He. unfold trim. rewrite (trimStart_fixed s Hs). apply trimEnd_fixed, He. Qed.

(** *** Runs of line feeds *)

Lemma LF_is_space : is_space LF = true.
Proof. reflexivity. Qed.

Lemma collapse_cons (c : ascii) (s : string) :
  collapse_newlines (String c s)
  = if Ascii.eqb c LF && starts_with_two_LF (collapse_newlines s)
    then collapse_newlines s else String c (collapse_newlines s).
Proof.
  simpl. destruct (Ascii.eqb c LF); [| reflexivity].
  destruct (collapse_newlines s) as [|a [|b r]]; try reflexivity.
Qed.

Lemma collapse_no_triple (s : string) : no_triple_LF (collapse_newlines s) = true.
Proof.
  induction s as [|c s IH]; [reflexivity |]. rewrite collapse_cons.
  destruct (Ascii.eqb c LF && starts_with_two_LF (collapse_newlines s)) eqn:Hc; [exact IH |].
  simpl. rewrite Hc, IH. reflexivity.
Qed.

Lemma collapse_fixed (s : string) : no_triple_LF s = true -> collapse_newlines s = s.
Proof.
  induction s as [|c s IH]; [reflexivity |].
  intros Hs. simpl in Hs. apply andb_true_iff in Hs as [Hc Hs]. rewrite collapse_cons, (IH Hs).
  apply negb_true_iff in Hc. rewrite Hc. reflexivity.
Qed.

Lemma no_triple_tail (c : ascii) (s : string) : no_triple_LF (String c s) = true -> no_triple_LF s = true.
Proof. simpl. intros Hs. apply andb_true_iff in Hs as [_ Hs]. exact Hs. Qed.

Lemma no_triple_trimStart (s : string) : no_triple_LF s = true -> no_triple_LF (trimStart s) = true.
Proof.
  induction s as [|c s IH]; [reflexivity |]. intros Hs. simpl trimStart.
  destruct (is_space c); [apply IH, (no_triple_tail c s Hs) | exact Hs].
Qed.

Lemma two_LF_trimEnd (s : string) :
  starts_with_two_LF (trimEnd s) = true -> starts_with_two_LF s = true.
Proof.
  destruct s as [|a s]; [discriminate |]. rewrite trimEnd_cons.
  destruct (trimEnd s) as [|x t] eqn:Ht.
  - destruct (is_space a); discriminate.
  - destruct s as [|b s]; [discriminate |]. rewrite trimEnd_cons in Ht.
    destruct (trimEnd s) as [|y t'].
    + destruct (is_space b); [discriminate |]. injection Ht as <- <-. simpl. tauto.
    + injection Ht as <- <-. simpl. tauto.
Qed.

Lemma no_triple_trimEnd (s : string) : no_triple_LF s = true -> no_triple_LF (trimEnd s) = true.
Proof.
  induction s as [|c s IH]; [reflexivity |].
  intros Hs. simpl in Hs. apply andb_true_iff in Hs as [Hc Hs]. specialize (IH Hs).
  rewrite trimEnd_cons. destruct (trimEnd s) as [|x t] eqn:Ht.
  - destruct (is_space c); [reflexivity |]. simpl. rewrite andb_false_r. reflexivity.
  - change (no_triple_LF (String c (String x t)))
      with (negb (Ascii.eqb c LF && starts_with_two_LF (String x t))
            && no_triple_LF (String x t)).
    rewrite IH, andb_true_r.
    apply negb_true_iff. apply negb_true_iff in Hc.
    destruct (Ascii.eqb c LF); [| reflexivity]. rewrite andb_true_l in Hc |- *.
    apply not_true_is_false. intros Htwo. rewrite <- Ht in Htwo.
    apply two_LF_trimEnd in Htwo. congruence.
Qed.

Lemma collapse_head (s : string) :
  starts_with_space (collapse_newlines s) = starts_with_space s.
Proof.
  destruct s as [|c s]; [reflexivity |]. rewrite collapse_cons.
  destruct (Ascii.eqb c LF && starts_with_two_LF (collapse_newlines s)) eqn:Hc; [| reflexivity].
  apply andb_true_iff in Hc as [Hc Htwo]. apply Ascii.eqb_eq in Hc. subst c.
  destruct (collapse_newlines s) as [|a [|b r]]; try discriminate.
  simpl in Htwo. apply andb_true_iff in Htwo as [Ha _]. apply Ascii.eqb_eq in Ha. subst a.
  reflexivity.
Qed.

Lemma pieces_collapse (s : string) :
  first_piece (collapse_newlines s) = first_piece s
  /\ later_words (collapse_newlines s) = later_words s.
Proof.
  induction s as [|c s [IHf IHl]]; [split; reflexivity |].
  assert (words (collapse_newlines s) = words s) as IHw
    by (rewrite !words_pieces, IHf, IHl; reflexivity).
  rewrite collapse_cons.
  destruct (Ascii.eqb c LF && starts_with_two_LF (collapse_newlines s)) eqn:Hc.
  - apply andb_true_iff in Hc as [Hc Htwo]. apply Ascii.eqb_eq in Hc. subst c.
    destruct (pieces_space LF s LF_is_space) as [-> ->]. rewrite <- IHw.
    destruct (collapse_newlines s) as [|a [|b r]]; try discriminate.
    simpl in Htwo. apply andb_true_iff in Htwo as [Ha _]. apply Ascii.eqb_eq in Ha. subst a.
    destruct (pieces_space LF (String b r) LF_is_space) as [-> ->].
    rewrite (words_space LF (String b r) LF_is_space). split; reflexivity.
  - destruct (is_space c) eqn:Hsp.
    + destruct (pieces_space c s Hsp) as [-> ->].
      destruct (pieces_space c (collapse_newlines s) Hsp) as [-> ->]. rewrite IHw. split; reflexivity.
    + destruct (pieces_letter c s Hsp) as [-> ->].
      destruct (pieces_letter c (collapse_newlines s) Hsp) as [-> ->]. rewrite IHf, IHl.
      split; reflexivity.
Qed.

Lemma words_collapse (s : string) : words (collapse_newlines s) = words s.
Proof. destruct (pieces_collapse s) as [Hf Hl]. rewrite !words_pieces, Hf, Hl. reflexivity. Qed.

Lemma cleanContent_trim (c : string) : cleanContent c = trim (collapse_newlines c).
Proof. destruct c; reflexivity. Qed.

Lemma words_cleanContent (c : string) : words (cleanContent c) = words c.
Proof. rewrite cleanContent_trim, words_trim, words_collapse. reflexivity. Qed.

Lemma cleanContent_shape (c : string) :
  no_triple_LF (cleanContent c) = true
  /\ starts_with_space (cleanContent c) = false
  /\ ends_with_space (cleanContent c) = false.
Proof.
  rewrite cleanContent_trim. destruct (trim_shape (collapse_newlines c)) as [Hs He].
  split; [| split; assumption].
  unfold trim. apply no_triple_trimEnd, no_triple_trimStart, collapse_no_triple.
Qed.

Lemma cleanContent_fixed (c : string) : cleanContent (cleanContent c) = cleanContent c.
Proof.
  destruct (cleanContent_shape c) as (Hno & Hs & He).
  rewrite (cleanContent_trim (cleanContent c)), (collapse_fixed _ Hno).
  apply trim_fixed; assumption.
Qed.

(** X13. Cleaning is idempotent; what it returns has no run of three line
    feeds and no white space at either end. *)
Theorem cleanContent_is_idempotent (c : string) :
  cleanContent (cleanContent c) = cleanContent c
  /\ no_triple_LF (cleanContent c) = true
  /\ starts_with_space (cleanContent c) = false
  /\ ends_with_space (cleanContent c) = false.
Proof. split; [apply cleanContent_fixed | apply cleanContent_shape]. Qed.

(** X14. Cleaning never changes the words of a text, so the word count of the
    cleaned content is the word count of the content. *)
Theorem countWords_ignores_cleaning (c : string) :
  words (cleanContent c) = words c /\ countWords (cleanContent c) = countWords c.
Proof.
  split; [apply words_cleanContent |].
  rewrite !countWords_words, words_cleanContent. reflexivity.
Qed.


(** *** Words *)

Lemma pieces_app_space (a b : string) (sp : ascii) :
  is_space sp = true ->
  first_piece (a +:+ String sp b) = first_piece a
  /\ later_words (a +:+ String sp b) = later_words a ++ words b.
Proof.
  intros Hsp. induction a as [|c a [IHf IHl]].
  - rewrite append_nil_l. destruct (pieces_space sp b Hsp) as [-> ->]. split; reflexivity.
  - rewrite append_cons. destruct (is_space c) eqn:Hc.
    + destruct (pieces_space c (a +:+ String sp b) Hc) as [-> ->].
      destruct (pieces_space c a Hc) as [-> ->].
      rewrite (words_pieces (a +:+ String sp b)), IHf, IHl, app_assoc, <- words_pieces.
      split; reflexivity.
    + destruct (pieces_letter c (a +:+ String sp b) Hc) as [-> ->].
      destruct (pieces_letter c a Hc) as [-> ->]. rewrite IHf, IHl. split; reflexivity.
Qed.

Lemma words_app_space (a b : string) (sp : ascii) :
  is_space sp = true -> words (a +:+ String sp b) = words a ++ words b.
Proof.
  intros Hsp. destruct (pieces_app_space a b sp Hsp) as [Hf Hl].
  rewrite (words_pieces (a +:+ String sp b)), Hf, Hl, app_assoc, <- words_pieces. reflexivity.
Qed.

Lemma pieces_prefix (w s : string) :
  no_space w = true ->
  first_piece (w +:+ s) = w +:+ first_piece s /\ later_words (w +:+ s) = later_words s.
Proof.
  induction w as [|c w IH]; intros Hw; [split; reflexivity |].
  simpl in Hw. apply andb_true_iff in Hw as [Hc Hw]. apply negb_true_iff in Hc.
  destruct (IH Hw) as [IHf IHl]. rewrite append_cons.
  destruct (pieces_letter c (w +:+ s) Hc) as [-> ->]. rewrite IHf, IHl. split; reflexivity.
Qed.

Lemma pieces_shape (s : string) :
  no_space (first_piece s) = true
  /\ Forall (fun w => nonempty w = true /\ no_space w = true) (later_words s).
Proof.
  induction s as [|c s [IHf IHl]]; [split; [reflexivity | constructor] |].
  destruct (is_space c) eqn:Hc.
  - destruct (pieces_space c s Hc) as [-> ->]. split; [reflexivity |].
    rewrite words_pieces. apply Forall_app. split; [| exact IHl].
    destruct (nonempty (first_piece s)) eqn:Hne; constructor; [| constructor].
    split; [exact Hne | exact IHf].
  - destruct (pieces_letter c s Hc) as [-> ->]. split; [| exact IHl].
    unfold no_space. simpl. rewrite Hc. exact IHf.
Qed.

Lemma words_shape (s : string) :
  Forall (fun w => nonempty w = true /\ no_space w = true) (words s).
Proof.
  destruct (pieces_shape s) as [Hf Hl]. rewrite words_pieces. apply Forall_app. split; [| exact Hl].
  destruct (nonempty (first_piece s)) eqn:Hne; constructor; [| constructor].
  split; [exact Hne | exact Hf].
Qed.

Lemma no_space_append (a b : string) : no_space (a +:+ b) = no_space a && no_space b.
Proof.
  unfold no_space. induction a as [|c a IH]; [reflexivity |].
  rewrite append_cons. simpl. rewrite IH, andb_assoc. reflexivity.
Qed.

Lemma nonempty_append (a b : string) : nonempty a = true -> nonempty (a +:+ b) = true.
Proof. destruct a; [discriminate | reflexivity]. Qed.

Lemma words_word (w : string) :
  nonempty w = true -> no_space w = true -> words w = [w].
Proof.
  intros Hne Hw. destruct (pieces_prefix w "" Hw) as [Hf Hl].
  rewrite append_nil_r in Hf, Hl. rewrite words_pieces, Hf, Hl.
  change (first_piece "") with "". rewrite append_nil_r, Hne. reflexivity.
Qed.

Lemma words_none (s : string) : words s = [] <-> str_forallb is_space s = true.
Proof.
  induction s as [|c s IH]; [split; reflexivity |]. simpl str_forallb.
  destruct (is_space c) eqn:Hc.
  - rewrite (words_space c s Hc). exact IH.
  - rewrite (words_letter c s Hc). split; discriminate.
Qed.

(** From the second piece on, every piece of a joined list is a word. *)
Lemma words_join (w : string) (ws : list string) (t : string) :
  Forall (fun w => nonempty w = true /\ no_space w = true) (w :: ws) ->
  no_space t = true ->
  length (words (Array_join " " (w :: ws) +:+ t)) = S (length ws).
Proof.
  revert w. induction ws as [|w' ws IH]; intros w Hall Ht.
  - apply Forall_cons in Hall as [[Hne Hw] _]. unfold Array_join. simpl String.concat.
    rewrite words_word; [reflexivity | apply nonempty_append; exact Hne |].
    rewrite no_space_append, Hw, Ht. reflexivity.
  - apply Forall_cons in Hall as [[Hne Hw] Hall]. unfold Array_join.
    change (String.concat " " (w :: w' :: ws))
      with (w +:+ String " " (String.concat " " (w' :: ws))).
    rewrite append_assoc, append_cons.
    rewrite (words_app_space w _ " " eq_refl), (words_word w Hne Hw).
    simpl length. f_equal. apply (IH w' Hall Ht).
Qed.

(** X15. The words of a text that joins two texts with a white space character
    are the words of the one followed by the words of the other, and a text
    has no word exactly when it is made of white space. *)
Theorem countWords_is_additive (a b : string) (sp : ascii) :
  is_space sp = true ->
  countWords (a +:+ String sp b) = countWords a + countWords b
  /\ (countWords a = 0 <-> str_forallb is_space a = true).
Proof.
  intros Hsp. rewrite !countWords_words. split.
  - rewrite (words_app_space a b sp Hsp), length_app. reflexivity.
  - rewrite <- words_none. destruct (words a); split; (discriminate || reflexivity).
Qed.

Lemma countWords_is_additive_witness :
  countWords ("one two" +:+ String " " "three") = countWords "one two" + countWords "three".
Proof. apply (proj1 (countWords_is_additive "one two" "three" " " eq_refl)). Defined.

(** *** Numbers that are natural numbers *)

Lemma leq_of_nat (a b : nat) : leq (of_nat a) (of_nat b) = (a <=? b)%nat.
Proof.
  unfold leq, of_nat, Qle_bool. simpl.
  destruct (Nat.leb_spec a b) as [Hab|Hab].
  - apply Z.leb_le. lia.
  - apply Z.leb_gt. lia.
Qed.

Lemma to_integer_of_nat (n : nat) : to_integer (inject_Z (Z.of_nat n)) = Z.of_nat n.
Proof. unfold to_integer. simpl. apply Z.quot_1_r. Qed.

Lemma relative_index_of_nat (len n : nat) : relative_index len (of_nat n) = Nat.min n len.
Proof.
  unfold relative_index, of_nat. rewrite to_integer_of_nat.
  destruct (Z.ltb_spec (Z.of_nat n) 0); lia.
Qed.

Lemma slice_first {A} (l : list A) (n : nat) :
  Array_slice l (of_nat 0) (Some (of_nat n)) = take n l.
Proof.
  unfold Array_slice. rewrite !relative_index_of_nat.
  change (Nat.min 0 (length l)) with 0. rewrite Nat.sub_0_r, drop_0.
  destruct (Nat.min_spec n (length l)) as [[_ ->]|[Hle ->]]; [reflexivity |].
  rewrite (take_ge l (length l)) by lia. rewrite (take_ge l n) by lia. reflexivity.
Qed.

(** *** Excerpts *)

Lemma generateExcerpt_nat (content : string) (n : nat) :
  generateExcerpt content (Some (of_nat n))
  = if (length (words content) <=? n)%nat then content
    else Array_join " " (take n (words content)) +:+ "...".
Proof.
  unfold generateExcerpt. simpl default. fold (words content) nonempty.
  change (List.filter (fun w => (0 <? String.length w)%nat) (split_ws content))
    with (words content).
  rewrite leq_of_nat, slice_first. reflexivity.
Qed.

(** X16. An excerpt of at least one word has as many words as asked for, or as
    the content has when that is less; a content short enough is returned as
    it is; and the excerpt of an excerpt is the excerpt. *)
Theorem generateExcerpt_word_count (content : string) (n : nat) :
  1 <= n ->
  countWords (generateExcerpt content (Some (of_nat n))) = Nat.min (countWords content) n
  /\ (countWords content <= n -> generateExcerpt content (Some (of_nat n)) = content)
  /\ generateExcerpt (generateExcerpt content (Some (of_nat n))) (Some (of_nat n))
     = generateExcerpt content (Some (of_nat n)).
Proof.
  intros Hn.
  assert (countWords (generateExcerpt content (Some (of_nat n))) = Nat.min (countWords content) n)
    as Hcount.
  { rewrite generateExcerpt_nat, !countWords_words.
    destruct (Nat.leb_spec (length (words content)) n) as [Hle|Hgt]; [lia |].
    pose proof (words_shape content) as Hall.
    apply (Forall_take _ n) in Hall.
    assert (length (take n (words content)) = n) as Hlen by (rewrite length_take; lia).
    destruct (take n (words content)) as [|w ws]; [simpl in Hlen; lia |].
    rewrite (words_join w ws "..." Hall eq_refl). simpl in Hlen. lia. }
  split; [exact Hcount |]. split.
  - intros Hle. rewrite generateExcerpt_nat. rewrite countWords_words in Hle.
    apply Nat.leb_le in Hle. rewrite Hle. reflexivity.
  - rewrite (generateExcerpt_nat (generateExcerpt content (Some (of_nat n)))).
    rewrite <- countWords_words, Hcount.
    assert ((Nat.min (countWords content) n <=? n)%nat = true) as -> by (apply Nat.leb_le; lia).
    reflexivity.
Qed.

Lemma generateExcerpt_word_count_witness :
  countWords (generateExcerpt "a b  c d e" (Some (of_nat 3))) = Nat.min (countWords "a b  c d e") 3.
Proof. apply (proj1 (generateExcerpt_word_count "a b  c d e" 3 ltac:(lia))). Defined.

(** *** Truncation *)


Lemma to_integer_difference (m k : nat) :
  to_integer (inject_Z (Z.of_nat m) - inject_Z (Z.of_nat k)) = (Z.of_nat m - Z.of_nat k)%Z.
Proof. unfold to_integer. simpl. rewrite Z.quot_1_r. lia. Qed.

Lemma truncate_nat (text : string) (m : nat) (suffix : option string) :
  truncate text (of_nat m) suffix
  = if (String.length text <=? m)%nat then text
    else String.substring 0
           (if (m <? String.length (default "..." suffix))%nat
            then String.length text + m - String.length (default "..." suffix)
            else Nat.min (m - String.length (default "..." suffix)) (String.length text))
           text
         +:+ default "..." suffix.
Proof.
  unfold truncate. rewrite leq_of_nat.
  destruct (String.length text <=? m)%nat; [reflexivity |]. f_equal.
  unfold String_slice. rewrite relative_index_of_nat.
  change (Nat.min 0 (String.length text)) with 0. rewrite Nat.sub_0_r.
  f_equal. unfold relative_index, sub, of_nat. rewrite to_integer_difference.
  destruct (Nat.ltb_spec m (String.length (default "..." suffix))) as [Hlt|Hge];
    destruct (Z.ltb_spec (Z.of_nat m - Z.of_nat (String.length (default "..." suffix))) 0); lia.
Qed.

(** X17. A text that fits is returned as it is. A longer text is cut so that,
    with the suffix, it has exactly [maxLength] characters, provided that the
    suffix itself fits; when the suffix is longer than [maxLength], the result
    is longer than [maxLength]. *)
Theorem truncate_length (text : string) (m : nat) (suffix : option string) :
  let s := default "..." suffix in
  (String.length text <= m -> truncate text (of_nat m) suffix = text)
  /\ (m < String.length text -> String.length s <= m ->
      truncate text (of_nat m) suffix = String.substring 0 (m - String.length s) text +:+ s
      /\ String.length (truncate text (of_nat m) suffix) = m)
  /\ (m < String.length text -> m < String.length s ->
      String.length (truncate text (of_nat m) suffix)
      = Nat.max (String.length text + m) (String.length s)
      /\ m < String.length (truncate text (of_nat m) suffix)).
Proof.
  intros s. subst s. rewrite truncate_nat. split; [| split].
  - intros Hle. apply Nat.leb_le in Hle. rewrite Hle. reflexivity.
  - intros Hlt Hs. apply Nat.leb_gt in Hlt as Hlt'. rewrite Hlt'.
    apply Nat.ltb_ge in Hs as Hs'. rewrite Hs'.
    rewrite Nat.min_l by lia. split; [reflexivity |].
    rewrite length_append, length_substring_0. lia.
  - intros Hlt Hs. apply Nat.leb_gt in Hlt as Hlt'. rewrite Hlt'.
    apply Nat.ltb_lt in Hs as Hs'. rewrite Hs'.
    rewrite length_append, length_substring_0. lia.
Qed.

(** *** Language detection *)

Lemma detectLanguage_scores (content : string) :
  detectLanguage content
  = match Array_sort (fun a b => (Z.of_nat (snd b) - Z.of_nat (snd a))%Z)
            (map (fun '(lang, patterns) =>
                    (lang, length (List.filter (fun pattern => word_test pattern content) patterns)))
                 languagePatterns) with
    | detected :: _ => if (0 <? snd detected)%nat then Some (fst detected) else None
    | [] => None
    end.
Proof. reflexivity. Qed.

Lemma first_best (en es fr de : nat) :
  let scores := [("en", en); ("es", es); ("fr", fr); ("de", de)] in
  match
    match Array_sort (fun a b : string * nat => (Z.of_nat (snd b) - Z.of_nat (snd a))%Z) scores with
    | detected :: _ => if (0 <? snd detected)%nat then Some (fst detected) else None
    | [] => None
    end
  with
  | None => forall p, p ∈ scores -> snd p = 0
  | Some lang =>
      exists i score, scores !! i = Some (lang, score) /\ 0 < score
        /\ forall j p, scores !! j = Some p -> snd p <= score /\ (j < i -> snd p < score)
  end.
Proof.
  intros scores. subst scores.
  assert (forall (P : nat -> (string * nat) -> Prop),
             P 0 ("en", en) -> P 1 ("es", es) -> P 2 ("fr", fr) -> P 3 ("de", de) ->
             forall j p, [("en", en); ("es", es); ("fr", fr); ("de", de)] !! j = Some p -> P j p)
    as Hall.
  { intros P H0 H1 H2 H3 j p Hj.
    destruct j as [|[|[|[|j]]]]; simpl in Hj; try discriminate; injection Hj as <-; assumption. }
  unfold Array_sort, sort_insert. cbn [snd fst].
  repeat match goal with
         | |- context [(?a <=? 0)%Z] => destruct (Z.leb_spec a 0)
         end;
    cbn [snd fst];
    repeat match goal with
           | |- context [(0 <? ?a)%nat] => destruct (Nat.ltb_spec 0 a)
           end;
    cbn [snd fst] in *;
    try lia;
    first
      [ intros p Hp; apply list_elem_of_lookup_1 in Hp as [j Hj]; revert j p Hj;
        apply (Hall (fun _ p => snd p = 0)); simpl; lia
      | exists 0, en; split; [reflexivity |]; split; [lia |];
        apply (Hall (fun j p => snd p <= en /\ (j < 0 -> snd p < en))); simpl; lia
      | exists 1, es; split; [reflexivity |]; split; [lia |];
        apply (Hall (fun j p => snd p <= es /\ (j < 1 -> snd p < es))); simpl; lia
      | exists 2, fr; split; [reflexivity |]; split; [lia |];
        apply (Hall (fun j p => snd p <= fr /\ (j < 2 -> snd p < fr))); simpl; lia
      | exists 3, de; split; [reflexivity |]; split; [lia |];
        apply (Hall (fun j p => snd p <= de /\ (j < 3 -> snd p < de))); simpl; lia ].
Qed.

(** X18. The language returned is one with the highest number of matching
    patterns, the one listed first among these; no language is returned when
    no pattern matches. *)
Theorem detectLanguage_picks_the_first_best (content : string) :
  let scores :=
    map (fun '(lang, patterns) =>
           (lang, length (List.filter (fun pattern => word_test pattern content) patterns)))
        languagePatterns in
  match detectLanguage content with
  | None => forall p, p ∈ scores -> snd p = 0
  | Some lang =>
      exists i score, scores !! i = Some (lang, score) /\ 0 < score
        /\ forall j p, scores !! j = Some p -> snd p <= score /\ (j < i -> snd p < score)
  end.
Proof.
  exact (first_best
           (length (List.filter (fun pattern => word_test pattern content) ["the"; "and"; "of"; "is"]))
           (length (List.filter (fun pattern => word_test pattern content) ["el"; "la"; "de"; "que"]))
           (length (List.filter (fun pattern => word_test pattern content) ["le"; "la"; "de"; "et"]))
           (length (List.filter (fun pattern => word_test pattern content)
                      ["der"; "die"; "das"; "und"]))).
Qed.

(** *** Similarity *)

Lemma lower_char_idempotent (c : ascii) : lower_char (lower_char c) = lower_char c.
Proof. destruct c as [[|] [|] [|] [|] [|] [|] [|] [|]]; vm_compute; reflexivity. Qed.

Lemma toLowerCase_idempotent (s : string) : toLowerCase (toLowerCase s) = toLowerCase s.
Proof.
  unfold toLowerCase. induction s as [|c s IH]; [reflexivity |].
  simpl. rewrite lower_char_idempotent, IH. reflexivity.
Qed.

Lemma ratio_is_one (n d : nat) :
  0 < d -> (inject_Z (Z.of_nat n) / inject_Z (Z.of_nat d) == 1)%Q <-> n = d.
Proof.
  intros Hd. unfold Qeq, Qdiv, Qmult, Qinv, inject_Z. simpl Qnum at 2. simpl Qden at 2.
  destruct (Z.of_nat d) as [|p|p] eqn:Hp; [lia | | lia]. simpl. lia.
Qed.

Lemma ratio_is_zero (n d : nat) :
  0 < d -> (inject_Z (Z.of_nat n) / inject_Z (Z.of_nat d) == 0)%Q <-> n = 0.
Proof.
  intros Hd. unfold Qeq, Qdiv, Qmult, Qinv, inject_Z. simpl Qnum at 2. simpl Qden at 2.
  destruct (Z.of_nat d) as [|p|p] eqn:Hp; [lia | | lia]. simpl. lia.
Qed.

(** X19. The similarity does not depend on the order of the two texts nor on
    their letter case; it is 1 exactly when the two texts have the same
    pieces, and 0 exactly when they share none. *)
Theorem calculateSimilarity_symmetry_and_extremes (a b : string) :
  calculateSimilarity a b = calculateSimilarity b a
  /\ calculateSimilarity (toLowerCase a) b = calculateSimilarity a b
  /\ exists q, calculateSimilarity a b = Num q
               /\ ((q == 1)%Q <-> word_set a = word_set b)
               /\ ((q == 0)%Q <-> word_set a ∩ word_set b = ∅).
Proof.
  assert (0 < size (word_set a ∪ word_set b)) as Hpos.
  { destruct (decide (size (word_set a ∪ word_set b) = 0)) as [Hz|Hnz]; [|lia].
    apply size_empty_inv in Hz. exfalso. apply (ContentFacts.word_set_nonempty a).
    apply set_eq. intros x. split; [| intros Hx; inversion Hx].
    intros Hx. apply Hz. apply elem_of_union. left. exact Hx. }
  assert (calculateSimilarity a b
          = Num (inject_Z (Z.of_nat (size (word_set a ∩ word_set b)))
                 / inject_Z (Z.of_nat (size (word_set a ∪ word_set b))))) as Hab.
  { unfold calculateSimilarity.
    rewrite ContentFacts.intersection_as_set, ContentFacts.union_as_set.
    apply ContentFacts.div_of_nat. exact Hpos. }
  split; [| split].
  - unfold calculateSimilarity.
    rewrite !ContentFacts.intersection_as_set, !ContentFacts.union_as_set.
    rewrite (comm_L (∩) (word_set b)), (comm_L (∪) (word_set b)). reflexivity.
  - unfold calculateSimilarity, word_set. rewrite toLowerCase_idempotent. reflexivity.
  - eexists. split; [exact Hab |]. split.
    + rewrite (ratio_is_one _ _ Hpos). split.
      * intros Hsize.
        assert (word_set a ∩ word_set b = word_set a ∪ word_set b) as Heq.
        { apply set_subseteq_size_eq; [| lia].
          intros x Hx. apply elem_of_intersection in Hx as [Hx _].
          apply elem_of_union. left. exact Hx. }
        apply set_eq. intros x. split; intros Hx.
        -- assert (x ∈ word_set a ∪ word_set b) as Hu by (apply elem_of_union; left; exact Hx).
           rewrite <- Heq in Hu. apply elem_of_intersection in Hu as [_ Hu]. exact Hu.
        -- assert (x ∈ word_set a ∪ word_set b) as Hu by (apply elem_of_union; right; exact Hx).
           rewrite <- Heq in Hu. apply elem_of_intersection in Hu as [Hu _]. exact Hu.
      * intros ->. rewrite (idemp_L (∩)), (idemp_L (∪)). reflexivity.
    + rewrite (ratio_is_zero _ _ Hpos). split.
      * intros Hz. apply leibniz_equiv. apply size_empty_inv. exact Hz.
      * intros ->. apply size_empty.
Qed.

End TextFacts.

(** ** Pages and crawls *)

Module PageFacts.
Import JS WHATWG RegExpModel Types UrlUtils ContentUtils WebExtractor Pieces Examples StringFacts.

Lemma normalizeUrl_total `{Locale} (u : string) (o : NormalizeUrlOptions) (r : URL) :
  validateUrl u = Ok r -> exists n, normalizeUrl u o = Ok n.
Proof. intros Hv. unfold normalizeUrl. rewrite Hv. unfold bind. eexists. reflexivity. Qed.

Lemma normalizeUrl_throws `{Locale} (u : string) (o : NormalizeUrlOptions) (m : string) :
  normalizeUrl u o = Throw m -> validateUrl u = Throw m.
Proof.
  unfold normalizeUrl, bind. destruct (validateUrl u); [discriminate |].
  intros Hm. injection Hm as <-. reflexivity.
Qed.

Lemma extractContent_markdown (page : RawPage) (format : string) :
  format <> "html" -> format <> "text" -> extractContent page format = extractContent page "markdown".
Proof.
  intros Hhtml Htext. unfold extractContent.
  destruct (String.eqb_spec format "markdown"); [reflexivity |].
  destruct (String.eqb_spec format "html"); [contradiction |].
  destruct (String.eqb_spec format "text"); [contradiction | reflexivity].
Qed.

(** *** One page *)

(** X20. [extractPage] passes on the error of an invalid URL as it is, wraps
    the error of the collaborator, and otherwise returns a page under the
    normalized URL: the fallback title never fails. *)
Theorem extractPage_outcomes `{Locale} (scrapeUrl : FirecrawlScrape)
  (url : string) (options : ExtractPageOptions) :
  let format := default "markdown" (page_format options) in
  let scrapeOptions :=
    {| scrape_formats := [format];
       scrapeUrl_onlyMainContent := default true (page_onlyMainContent options);
       scrape_waitFor := match waitFor options with
                         | Some w => if truthy_number w then Some w else None
                         | None => None
                         end |} in
  match validateUrl url with
  | Throw m => extractPage scrapeUrl url options = Throw m
  | Ok r =>
      match scrapeUrl url scrapeOptions with
      | Throw m =>
          extractPage scrapeUrl url options
          = Throw ("Failed to extract page " +:+ url +:+ ": " +:+ m)
      | Ok result =>
          exists page,
            extractPage scrapeUrl url options = Ok page
            /\ normalizeUrl url no_options = Ok (Types.url page)
            /\ sourceUrl (metadata page) = Types.url page
            /\ title page = or_else (meta raw_title result) (url_host r)
            /\ content page = cleanContent (extractContent result format)
            /\ wordCount (metadata page) = countWords (extractContent result "markdown")
      end
  end.
Proof.
  intros format scrapeOptions. unfold extractPage.
  destruct (validateUrl url) as [r|m] eqn:Hv; [| reflexivity].
  destruct (normalizeUrl_total url no_options r Hv) as [n Hn]. rewrite Hn. unfold bind.
  fold format. fold scrapeOptions.
  destruct (scrapeUrl url scrapeOptions) as [result|m]; [| reflexivity].
  assert (URL_parse url = Some r) as ->.
  { unfold validateUrl in Hv. destruct (URL_parse url) as [r'|]; [| discriminate].
    destruct (existsb _ _); [| discriminate]. injection Hv as <-. reflexivity. }
  unfold or_else, truthy_opt, URL_hostname.
  destruct (meta raw_title result) as [t|]; [destruct (truthy t) |];
    eexists; repeat split.
Qed.

(** *** The crawl *)

Lemma extractWebsite_ok `{Locale} (firecrawl : Firecrawl) (σ : Store)
  (url : string) (options : ExtractWebsiteOptions) (res : ExtractionResult) :
  extractWebsite firecrawl σ url options = Ok res ->
  exists r resp,
    validateUrl url = Ok r /\ firecrawl url (crawlOptions options) = Ok resp
    /\ res = summarize
               (pages_of (map (process_page url options
                                 (crawl_urls url options (default [] (data resp)) σ))
                              (default [] (data resp))))
               (failed_of (map (process_page url options
                                  (crawl_urls url options (default [] (data resp)) σ))
                               (default [] (data resp)))).
Proof.
  unfold extractWebsite, bind.
  destruct (validateUrl url) as [r|]; [| discriminate].
  destruct (normalizeUrl url no_options); [| discriminate].
  destruct (firecrawl url (crawlOptions options)) as [resp|]; [| discriminate].
  intros Hres. injection Hres as <-. exists r, resp. repeat split.
Qed.

Lemma pages_of_elem (f : RawPage -> Outcome) (data : list RawPage) (p : ExtractedPage) :
  p ∈ pages_of (map f data) -> exists page, page ∈ data /\ f page = Extracted p.
Proof.
  unfold pages_of. intros Hp. apply list_elem_of_omap in Hp as (o & Ho & Hsome).
  change (map f data) with (f <$> data) in Ho.
  apply list_elem_of_fmap in Ho as (page & -> & Hpage).
  exists page. split; [exact Hpage |]. destruct (f page); try discriminate.
  injection Hsome as <-. reflexivity.
Qed.

Lemma failed_of_elem (f : RawPage -> Outcome) (data : list RawPage) (x : FailedExtraction) :
  x ∈ failed_of (map f data) -> exists page, page ∈ data /\ f page = Failed x.
Proof.
  unfold failed_of. intros Hx. apply list_elem_of_omap in Hx as (o & Ho & Hsome).
  change (map f data) with (f <$> data) in Ho.
  apply list_elem_of_fmap in Ho as (page & -> & Hpage).
  exists page. split; [exact Hpage |]. destruct (f page); try discriminate.
  injection Hsome as <-. reflexivity.
Qed.

Lemma process_page_extracted_inv `{Locale} (url : string) (options : ExtractWebsiteOptions)
  (urls : list string) (page : RawPage) (p : ExtractedPage) :
  process_page url options urls page = Extracted p ->
  exists r,
    validateUrl (pageUrl_of url page) = Ok r
    /\ normalizeUrl (pageUrl_of url page) no_options = Ok (Types.url p)
    /\ pageUrl_of url page ∈ urls
    /\ metadata p = buildMetadata page (Types.url p)
    /\ content p = cleanContent (extractContent page (default "markdown" (format options)))
    /\ title p = match truthy_opt (titlePrefix options) with
                 | Some prefix => prefix +:+ " - " +:+ or_else (meta raw_title page) (URL_pathname r)
                 | None => or_else (meta raw_title page) (URL_pathname r)
                 end.
Proof.
  unfold process_page.
  destruct (normalizeUrl (pageUrl_of url page) no_options) as [n|m] eqn:Hn; [| discriminate].
  destruct (existsb (String.eqb (pageUrl_of url page)) urls) eqn:Hin; [| discriminate].
  apply CrawlFacts.existsb_eqb_elem_of in Hin. simpl negb. cbv iota.
  assert (exists r, validateUrl (pageUrl_of url page) = Ok r) as [r Hv].
  { unfold normalizeUrl, bind in Hn. destruct (validateUrl (pageUrl_of url page)) as [r|];
      [eauto | discriminate]. }
  assert (URL_parse (pageUrl_of url page) = Some r) as ->.
  { unfold validateUrl in Hv. destruct (URL_parse (pageUrl_of url page)) as [r'|]; [| discriminate].
    destruct (existsb _ _); [| discriminate]. injection Hv as <-. reflexivity. }
  intros Hp. exists r. split; [exact Hv |].
  unfold or_else, truthy_opt in *.
  destruct (meta raw_title page) as [t|]; [destruct (truthy t) |];
    (destruct (titlePrefix options) as [prefix|]; [destruct (truthy prefix) |]);
    injection Hp as <-; repeat split; assumption.
Qed.

Lemma process_page_failed_inv `{Locale} (url : string) (options : ExtractWebsiteOptions)
  (urls : list string) (page : RawPage) (x : FailedExtraction) :
  process_page url options urls page = Failed x ->
  normalizeUrl (pageUrl_of url page) no_options = Throw (failed_error x)
  /\ failed_url x = or_else (raw_url page) "unknown".
Proof.
  unfold process_page.
  destruct (normalizeUrl (pageUrl_of url page) no_options) as [n|m] eqn:Hn.
  - destruct (existsb (String.eqb (pageUrl_of url page)) urls); [| discriminate].
    simpl negb. cbv iota.
    assert (exists r, URL_parse (pageUrl_of url page) = Some r) as [r ->]
      by (eapply CrawlFacts.normalizeUrl_ok_parses; exact Hn).
    destruct (truthy_opt (meta raw_title page)); discriminate.
  - intros Hx. injection Hx as <-. split; reflexivity.
Qed.

(** X21. [extractWebsite] passes on the error of an invalid start URL as it is
    and wraps the error of the collaborator; once the crawl has answered it
    always returns a result, which counts at most one record for each raw
    record. *)
Theorem extractWebsite_outcomes `{Locale} (firecrawl : Firecrawl) (σ : Store)
  (url : string) (options : ExtractWebsiteOptions) :
  match validateUrl url with
  | Throw m => extractWebsite firecrawl σ url options = Throw m
  | Ok _ =>
      match firecrawl url (crawlOptions options) with
      | Throw m =>
          extractWebsite firecrawl σ url options
          = Throw ("Failed to extract website " +:+ url +:+ ": " +:+ m)
      | Ok resp =>
          exists res,
            extractWebsite firecrawl σ url options = Ok res
            /\ totalPages res = length (pages res) + length (failed res)
            /\ totalPages res <= length (default [] (data resp))
            /\ (data resp = None -> pages res = [] /\ failed res = [])
      end
  end.
Proof.
  unfold extractWebsite.
  destruct (validateUrl url) as [r|m] eqn:Hv; [| reflexivity].
  destruct (normalizeUrl_total url no_options r Hv) as [n ->]. unfold bind.
  destruct (firecrawl url (crawlOptions options)) as [resp|m]; [| reflexivity].
  eexists. split; [reflexivity |]. split; [reflexivity |]. split.
  - rewrite StatsFacts.summarize_totalPages.
    pose proof (CrawlFacts.outcomes_lengths
                  (map (process_page url options
                          (crawl_urls url options (default [] (data resp)) σ))
                       (default [] (data resp)))) as Hlen.
    rewrite length_map in Hlen. lia.
  - intros ->. split; reflexivity.
Qed.

(** X22. Every Page Record of a crawl comes from a raw record whose source URL
    is valid and is in the URL list: its [url] is the normalized source URL
    and a valid URL, its [metadata.sourceUrl] is the same string, its content
    is clean, and its title is the title of the record, or the path of the
    source URL, behind the prefix when there is one. *)
Theorem page_records_carry_the_normalized_source `{Locale} (firecrawl : Firecrawl) (σ : Store)
  (url : string) (options : ExtractWebsiteOptions) (res : ExtractionResult) (p : ExtractedPage) :
  extractWebsite firecrawl σ url options = Ok res ->
  p ∈ pages res ->
  exists resp page r,
    firecrawl url (crawlOptions options) = Ok resp
    /\ page ∈ default [] (data resp)
    /\ validateUrl (pageUrl_of url page) = Ok r
    /\ normalizeUrl (pageUrl_of url page) no_options = Ok (Types.url p)
    /\ isValidUrl (Types.url p) = true
    /\ sourceUrl (metadata p) = Types.url p
    /\ content p = cleanContent (extractContent page (default "markdown" (format options)))
    /\ cleanContent (content p) = content p
    /\ title p = match truthy_opt (titlePrefix options) with
                 | Some prefix => prefix +:+ " - " +:+ or_else (meta raw_title page) (URL_pathname r)
                 | None => or_else (meta raw_title page) (URL_pathname r)
                 end.
Proof.
  intros Hres Hp. destruct (extractWebsite_ok _ _ _ _ _ Hres) as (r0 & resp & _ & Hcrawl & ->).
  simpl in Hp. apply pages_of_elem in Hp as (page & Hpage & Hout).
  apply process_page_extracted_inv in Hout as (r & Hv & Hn & _ & Hmeta & Hcontent & Htitle).
  exists resp, page, r. repeat (split; [assumption |]).
  split.
  { destruct (DomainFacts.normalizeUrl_reparses _ _ Hn) as (_ & r' & _ & Hv' & _).
    unfold isValidUrl. rewrite Hv'. reflexivity. }
  split; [rewrite Hmeta; reflexivity |].
  split; [exact Hcontent |]. split; [| exact Htitle].
  rewrite Hcontent. apply TextFacts.cleanContent_fixed.
Qed.

Lemma page_records_carry_the_normalized_source_witness :
  exists res p,
    extractWebsite (answer two_spellings) fresh seed no_website_options = Ok res
    /\ pages res = [p]
    /\ Types.url p = "https://a.com/x" /\ sourceUrl (metadata p) = Types.url p.
Proof.
  eexists. eexists. split; [vm_compute; reflexivity |]. split; [reflexivity |].
  split; [reflexivity |].
  match goal with
  | |- sourceUrl (metadata ?p) = _ =>
      destruct (@page_records_carry_the_normalized_source code_unit_order
                  (answer two_spellings) fresh seed no_website_options
                  (summarize [p] []) p)
        as (_ & _ & _ & _ & _ & _ & _ & _ & Hsource & _)
  end.
  - vm_compute. reflexivity.
  - left.
  - exact Hsource.
Defined.

(** X23. When the format asked for is the markdown (the default, and whatever
    is neither [html] nor [text]), the word count in the metadata of a Page
    Record is the word count of its content, and the total of the statistics
    is the number of words of the contents. *)
Theorem wordCount_is_the_count_of_the_content `{Locale} (firecrawl : Firecrawl) (σ : Store)
  (url : string) (options : ExtractWebsiteOptions) (res : ExtractionResult) :
  extractWebsite firecrawl σ url options = Ok res ->
  default "markdown" (format options) <> "html" ->
  default "markdown" (format options) <> "text" ->
  (forall p, p ∈ pages res -> wordCount (metadata p) = countWords (content p))
  /\ totalWords (stats res) = list_sum (map (fun p => countWords (content p)) (pages res)).
Proof.
  intros Hres Hhtml Htext.
  assert (forall p, p ∈ pages res -> wordCount (metadata p) = countWords (content p)) as Hcount.
  { intros p Hp. destruct (extractWebsite_ok _ _ _ _ _ Hres) as (r0 & resp & _ & _ & ->).
    simpl in Hp. apply pages_of_elem in Hp as (page & _ & Hout).
    apply process_page_extracted_inv in Hout as (r & _ & _ & _ & Hmeta & Hcontent & _).
    rewrite Hmeta, Hcontent, (extractContent_markdown page _ Hhtml Htext).
    unfold buildMetadata. cbn [wordCount].
    rewrite !TextFacts.countWords_words, TextFacts.words_cleanContent. reflexivity. }
  split; [exact Hcount |].
  rewrite (StatsFacts.extractWebsite_summarizes _ _ _ _ _ Hres). cbn [stats totalWords summarize pages].
  rewrite (StatsFacts.fold_left_sum _ (pages res) 0). simpl. f_equal.
  apply map_ext_in. intros p Hp. apply Hcount. apply list_elem_of_In. exact Hp.
Qed.

Lemma wordCount_is_the_count_of_the_content_witness :
  exists res,
    extractWebsite (answer blog_and_about) fresh seed no_website_options = Ok res
    /\ totalWords (stats res) = list_sum (map (fun p => countWords (content p)) (pages res)).
Proof.
  eexists. split; [vm_compute; reflexivity |].
  apply (@wordCount_is_the_count_of_the_content code_unit_order
           (answer blog_and_about) fresh seed no_website_options).
  - vm_compute. reflexivity.
  - discriminate.
  - discriminate.
Defined.

(** X24. A Failure Record of a crawl comes from a raw record that carries a
    source URL which is not a valid URL: the error is the message of
    [validateUrl] for that source URL, and the [url] of the Failure Record
    is the [url] field of the raw record, or ['unknown'] when the record has
    no [url] field or an empty one. *)
Theorem failure_records_come_from_invalid_sources `{Locale} (firecrawl : Firecrawl) (σ : Store)
  (url : string) (options : ExtractWebsiteOptions) (res : ExtractionResult)
  (x : FailedExtraction) :
  extractWebsite firecrawl σ url options = Ok res ->
  x ∈ failed res ->
  exists resp page source,
    firecrawl url (crawlOptions options) = Ok resp
    /\ page ∈ default [] (data resp)
    /\ meta sourceURL page = Some source
    /\ isValidUrl source = false
    /\ validateUrl source = Throw (failed_error x)
    /\ (exists reason, failed_error x = "Invalid URL: " +:+ source +:+ " - " +:+ reason)
    /\ failed_url x = or_else (raw_url page) "unknown".
Proof.
  intros Hres Hx. destruct (extractWebsite_ok _ _ _ _ _ Hres) as (r0 & resp & Hseed & Hcrawl & ->).
  simpl in Hx. apply failed_of_elem in Hx as (page & Hpage & Hout).
  apply process_page_failed_inv in Hout as [Hn Hurl].
  apply normalizeUrl_throws in Hn.
  assert (exists source, meta sourceURL page = Some source /\ pageUrl_of url page = source)
    as (source & Hmeta & Hsource).
  { unfold pageUrl_of, or_else in *. destruct (meta sourceURL page) as [s|].
    - destruct (truthy s); [exists s; split; reflexivity | congruence].
    - congruence. }
  rewrite Hsource in Hn.
  exists resp, page, source. repeat (split; [assumption |]).
  split; [unfold isValidUrl; rewrite Hn; reflexivity |].
  split; [exact Hn |]. split; [| exact Hurl].
  unfold validateUrl in Hn. destruct (URL_parse source).
  - destruct (existsb _ _); [discriminate |]. injection Hn as <-. eexists. reflexivity.
  - injection Hn as <-. eexists. reflexivity.
Qed.

Lemma failure_records_come_from_invalid_sources_witness :
  exists resp page source,
    answer one_unparseable seed (crawlOptions no_website_options) = Ok resp
    /\ page ∈ default [] (data resp)
    /\ meta sourceURL page = Some source
    /\ isValidUrl source = false
    /\ validateUrl source = Throw "Invalid URL: not a url - Invalid URL"
    /\ (exists reason,
          "Invalid URL: not a url - Invalid URL" = "Invalid URL: " +:+ source +:+ " - " +:+ reason)
    /\ "unknown" = or_else (raw_url page) "unknown".
Proof.
  apply (@failure_records_come_from_invalid_sources code_unit_order
           (answer one_unparseable) fresh seed no_website_options
           (summarize [] [ {| failed_url := "unknown";
                              failed_error := "Invalid URL: not a url - Invalid URL" |} ])
           {| failed_url := "unknown"; failed_error := "Invalid URL: not a url - Invalid URL" |}).
  - vm_compute. reflexivity.
  - left.
Defined.

(** X25. No Page Record of a crawl comes from a source URL in which an exclude
    pattern occurs, and, when there are include patterns, every Page Record
    comes from a source URL in which one of them occurs; the patterns are
    tried on the source URL as the collaborator wrote it. This holds for
    patterns that carry neither the global nor the sticky flag. *)
Theorem page_records_pass_the_patterns `{Locale} (firecrawl : Firecrawl) (σ : Store)
  (url : string) (options : ExtractWebsiteOptions) (res : ExtractionResult) (p : ExtractedPage) :
  extractWebsite firecrawl σ url options = Ok res ->
  all_stateless (includePatterns options) = true ->
  all_stateless (excludePatterns options) = true ->
  p ∈ pages res ->
  exists resp page,
    firecrawl url (crawlOptions options) = Ok resp
    /\ page ∈ default [] (data resp)
    /\ normalizeUrl (pageUrl_of url page) no_options = Ok (Types.url p)
    /\ (forall pattern, pattern ∈ default [] (excludePatterns options) ->
                        matches pattern (pageUrl_of url page) = false)
    /\ (default [] (includePatterns options) <> [] ->
        exists pattern, pattern ∈ default [] (includePatterns options)
                        /\ matches pattern (pageUrl_of url page) = true).
Proof.
  intros Hres Hinc Hexc Hp.
  destruct (extractWebsite_ok _ _ _ _ _ Hres) as (r0 & resp & _ & Hcrawl & ->).
  simpl in Hp. apply pages_of_elem in Hp as (page & Hpage & Hout).
  apply process_page_extracted_inv in Hout as (r & _ & Hn & Hin & _).
  exists resp, page. repeat (split; [assumption |]).
  assert (spec_keeps (includePatterns options) (excludePatterns options) (pageUrl_of url page)
          = true
          \/ (includePatterns options = None /\ excludePatterns options = None)) as Hkeeps.
  { unfold crawl_urls in Hin.
    destruct (includePatterns options) as [inc|] eqn:Hi, (excludePatterns options) as [exc|] eqn:He;
      try (right; split; reflexivity); left;
      unfold filterUrlsByPattern in Hin;
      rewrite (FilterFacts.filter_st_pure _ (spec_keeps _ _)) in Hin
        by (intros x τ; apply FilterFacts.keep_url_stateless; assumption);
      simpl in Hin; apply list_elem_of_In, filter_In in Hin as [_ Hin]; exact Hin. }
  destruct Hkeeps as [Hkeeps|[-> ->]].
  2:{ split; [intros pattern Hpat; inversion Hpat | intros Hne; contradiction]. }
  unfold spec_keeps in Hkeeps. apply andb_true_iff in Hkeeps as [Hx Hi].
  apply negb_true_iff in Hx. split.
  - intros pattern Hpat. apply not_true_is_false. intros Hm.
    assert (existsb (fun q => matches q (pageUrl_of url page))
              (default [] (excludePatterns options)) = true) as Hex.
    { apply existsb_exists. exists pattern. split; [apply list_elem_of_In; exact Hpat | exact Hm]. }
    congruence.
  - intros Hne. destruct (includePatterns options) as [[|q rest]|]; try contradiction.
    apply existsb_exists in Hi as (pattern & Hpat & Hm).
    exists pattern. split; [apply list_elem_of_In; exact Hpat | exact Hm].
Qed.

Lemma page_records_pass_the_patterns_witness :
  exists res p,
    extractWebsite (answer blog_and_about) fresh seed without_blog = Ok res
    /\ pages res = [p]
    /\ exists resp page,
         answer blog_and_about seed (crawlOptions without_blog) = Ok resp
         /\ page ∈ default [] (data resp)
         /\ normalizeUrl (pageUrl_of seed page) no_options = Ok (Types.url p)
         /\ (forall pattern, pattern ∈ default [] (excludePatterns without_blog) ->
                             matches pattern (pageUrl_of seed page) = false)
         /\ (default [] (includePatterns without_blog) <> [] ->
             exists pattern, pattern ∈ default [] (includePatterns without_blog)
                             /\ matches pattern (pageUrl_of seed page) = true).
Proof.
  eexists. eexists. split; [vm_compute; reflexivity |]. split; [reflexivity |].
  match goal with
  | |- context [Ok (Types.url ?p)] =>
      apply (@page_records_pass_the_patterns code_unit_order
               (answer blog_and_about) fresh seed without_blog (summarize [p] []) p)
  end.
  - vm_compute. reflexivity.
  - reflexivity.
  - reflexivity.
  - left.
Defined.

End PageFacts.
